(** * Autoblog worker: a shallow embedding of the ingestion pipeline

    The worker polls an RSS feed, filters the items already recorded in a
    key-value ledger, summarises the new ones with a text-generation
    backend and publishes one JSON file per item through the GitHub
    contents API.  This development embeds the TypeScript sources
    ([rss-parser.ts], [kv-storage.ts], [ai-summarizer.ts],
    [github-publisher.ts] and the worker entry point) and proves the
    properties the specification states about them.

    Conventions.
    - A JavaScript string is the list of its UTF-16 code units.
    - A regular expression is embedded as its matcher at a fixed start
      position; the scanning loops of [match], [matchAll] and [replace]
      are shared.
    - Every call that leaves the worker (fetch, AI, KV, timers, clock) is
      answered by an oracle that sees the whole history of earlier calls,
      and is appended to that history.
    - [console] output is not part of the embedding: it cannot throw and
      nothing in the control flow reads it. *)

From Stdlib Require Import String Ascii.
From Stdlib Require Import DecimalString.
From Stdlib Require DecimalN.
From Stdlib Require Import List NArith ZArith Bool Arith Lia.
Import ListNotations.

Set Implicit Arguments.

(* ================================================================== *)
(** * JavaScript strings *)

Module JsString.

Definition jsstring := list N.

(** An ASCII literal as a JavaScript string. *)
Definition js (s : String.string) : jsstring :=
  map Ascii.N_of_ascii (String.list_ascii_of_string s).

Arguments js s%_string_scope.

Fixpoint eqb (a b : jsstring) : bool :=
  match a, b with
  | [], [] => true
  | x :: a', y :: b' => N.eqb x y && eqb a' b'
  | _, _ => false
  end.

(** Truthiness of a string: only the empty string is falsy. *)
Definition truthy (s : jsstring) : bool :=
  match s with [] => false | _ :: _ => true end.

(** [s.startsWith(p)] *)
Fixpoint starts_with (p s : jsstring) : bool :=
  match p, s with
  | [], _ => true
  | a :: p', b :: s' => N.eqb a b && starts_with p' s'
  | _ :: _, [] => false
  end.

(** Splits [s] around the first occurrence of [needle]. *)
Fixpoint cut (needle s : jsstring) {struct s} : option (jsstring * jsstring) :=
  if starts_with needle s then Some ([], skipn (length needle) s)
  else match s with
       | [] => None
       | c :: s' =>
           match cut needle s' with
           | Some (before, after) => Some (c :: before, after)
           | None => None
           end
       end.

(** The longest prefix whose code units satisfy [p], and what follows. *)
Fixpoint span (p : N -> bool) (s : jsstring) : jsstring * jsstring :=
  match s with
  | [] => ([], [])
  | c :: s' =>
      if p c then let (run, rest) := span p s' in (c :: run, rest)
      else ([], s)
  end.

Fixpoint drop_while (p : N -> bool) (s : jsstring) : jsstring :=
  match s with
  | [] => []
  | c :: s' => if p c then drop_while p s' else s
  end.

Definition between (lo hi c : N) : bool := N.leb lo c && N.leb c hi.

Definition is_digit (c : N) : bool := between 48 57 c.
Definition is_lower (c : N) : bool := between 97 122 c.
Definition is_upper (c : N) : bool := between 65 90 c.
Definition is_hex_digit (c : N) : bool :=
  is_digit c || between 65 70 c || between 97 102 c.

(** White space and line terminators of ECMAScript: the set that
    [String.prototype.trim] strips and that [\s] matches. *)
Definition is_space (c : N) : bool :=
  between 9 13 c || N.eqb c 32 || N.eqb c 160 || N.eqb c 5760
  || between 8192 8202 c || N.eqb c 8232 || N.eqb c 8233
  || N.eqb c 8239 || N.eqb c 8287 || N.eqb c 12288 || N.eqb c 65279.

(** [s.trim()] *)
Definition trim (s : jsstring) : jsstring :=
  rev (drop_while is_space (rev (drop_while is_space s))).

(** [s.toLowerCase()] on the code units whose lower case contains an
    ASCII letter: [A]-[Z], U+0130 (mapped to [i] followed by U+0307) and
    U+212A (mapped to [k]).  The Unicode tables map every other code unit
    outside ASCII to code units outside ASCII; the callers in this
    program replace all of those by a hyphen, so they are left as they
    are. *)
Definition lower_unit (c : N) : jsstring :=
  if is_upper c then [c + 32]%N
  else if N.eqb c 304 then [105; 775]%N
  else if N.eqb c 8490 then [107]%N
  else [c].

Definition toLowerCase (s : jsstring) : jsstring := flat_map lower_unit s.

(** [parts.join(sep)] *)
Fixpoint join (sep : jsstring) (parts : list jsstring) : jsstring :=
  match parts with
  | [] => []
  | [p] => p
  | p :: rest => p ++ sep ++ join sep rest
  end.

(** ** Regular expressions

    A pattern is embedded as a head matcher: given the text that starts
    at the position under test, it answers how many code units the match
    consumes and a payload (the capture group, or the replacement). *)
Definition matcher := jsstring -> option (nat * jsstring).

(** [s.match(re)] for a pattern without the [g] flag: the payload of the
    leftmost match. *)
Fixpoint first_match (m : matcher) (s : jsstring) : option jsstring :=
  match m s with
  | Some (_, cap) => Some cap
  | None => match s with
            | [] => None
            | _ :: s' => first_match m s'
            end
  end.

(** [[...s.matchAll(re)]]: the payloads of the successive matches, each
    search resuming where the previous match ended.  [skip] counts the
    code units still covered by the last match. *)
Fixpoint scan_matches (m : matcher) (skip : nat) (s : jsstring) : list jsstring :=
  match s with
  | [] => []
  | c :: s' =>
      match skip with
      | S k => scan_matches m k s'
      | O =>
          match m (c :: s') with
          | Some (n, cap) => cap :: scan_matches m (pred n) s'
          | None => scan_matches m 0 s'
          end
      end
  end.

Definition match_all (m : matcher) (s : jsstring) : list jsstring :=
  scan_matches m 0 s.

(** [s.replace(re, ...)] for a pattern with the [g] flag; the payload of
    the matcher is the replacement text. *)
Fixpoint replace_scan (m : matcher) (skip : nat) (s : jsstring) : jsstring :=
  match s with
  | [] => []
  | c :: s' =>
      match skip with
      | S k => replace_scan m k s'
      | O =>
          match m (c :: s') with
          | Some (S n, r) => r ++ replace_scan m n s'
          | _ => c :: replace_scan m 0 s'
          end
      end
  end.

Definition replace_all (m : matcher) (s : jsstring) : jsstring :=
  replace_scan m 0 s.

(** A literal pattern, as in [new RegExp(text, 'g')] for a text without
    metacharacters. *)
Definition literal (pat repl : jsstring) : matcher :=
  fun s => if starts_with pat s then Some (length pat, repl) else None.

(** [re+] over a character class, replaced by [repl]. *)
Definition run_of (p : N -> bool) (repl : jsstring) : matcher :=
  fun s => match fst (span p s) with
           | [] => None
           | run => Some (length run, repl)
           end.

(** The value of a digit, decimal or hexadecimal, and of a run of digits
    in a radix. *)
Definition digit_value (c : N) : N :=
  if is_digit c then c - 48
  else if between 65 70 c then c - 55
  else c - 87.

Definition number_of (radix : N) (digits : jsstring) : N :=
  fold_left (fun acc c => acc * radix + digit_value c)%N digits 0%N.

(** The Number nearest to a non-negative integer: exact below 2^53,
    otherwise rounded to 53 significant bits, ties to even; [None] is
    Infinity. *)
Definition round_double (n : N) : option N :=
  let bits := N.size n in
  if (bits <=? 53)%N then Some n
  else
    let e := (bits - 53)%N in
    let q := N.shiftr n e in
    let r := N.land n (N.ones e) in
    let half := N.shiftl 1 (e - 1) in
    let q' := if (half <? r)%N || ((r =? half)%N && N.odd q) then (q + 1)%N else q in
    let v := N.shiftl q' e in
    if (N.size v <=? 1024)%N then Some v else None.

(** [String.fromCharCode(parseInt(digits, radix))] for a run of digits:
    ToUint16 of the parsed Number. *)
Definition char_of_digits (radix : N) (digits : jsstring) : jsstring :=
  match round_double (number_of radix digits) with
  | Some v => [v mod 65536]%N
  | None => [0%N]
  end.

(** The decimal text of a natural number, as a template literal prints it. *)
Definition decimal (n : N) : jsstring :=
  js (NilZero.string_of_uint (N.to_uint n)).

End JsString.

Import JsString.

(* ================================================================== *)
(** * Runtime: exceptions, the outside world and its history *)

Module Runtime.

(** A thrown value; the program only ever reads its message. *)
Record JsError := mkError { message : jsstring }.

(** The completion of a call: a value or a thrown error. *)
Inductive Exc (A : Type) : Type :=
| Ok (a : A)
| Throw (e : JsError).

Arguments Ok {A} a.
Arguments Throw {A} e.

Definition is_ok {A} (r : Exc A) : bool :=
  match r with Ok _ => true | Throw _ => false end.

(** ** HTTP *)

Inductive Method := GET | PUT.

Record Request := mkRequest {
  req_url : jsstring;
  req_method : Method;
  req_headers : list (jsstring * jsstring);
  req_body : option jsstring
}.

(** What [await response.json()] evaluates to, as far as the program
    looks: [null] (on which any property access throws a TypeError), or
    a value whose [sha] property is a string or is absent. *)
Inductive JsonDoc :=
| DocNull
| DocValue (sha : option jsstring).

Record Response := mkResponse {
  status : N;
  statusText : jsstring;
  resp_text : Exc jsstring;          (* await response.text() *)
  resp_json : Exc JsonDoc            (* await response.json() *)
}.

(** [response.ok]: the status is in the range 200-299. *)
Definition ok (r : Response) : bool := between 200 299 (status r).

(** ** Workers AI *)

Record Message := mkMessage { role : jsstring; content : jsstring }.

Record AiInputs := mkAiInputs {
  messages : list Message;
  max_tokens : N;
  temperature : jsstring             (* the decimal literal *)
}.

(** A JavaScript value as [String(...)] sees it. *)
Inductive JsValue :=
| VUndefined
| VNull
| VBool (b : bool)
| VString (s : jsstring)
| VObject                            (* a plain object *)
| VOther (text : jsstring).          (* a number, an array, ...: by its text *)

(** What [ai.run] resolves to: an object that has a [response] property,
    a string, or anything else (null, undefined, a number, an object
    without that property). *)
Inductive AiResponse :=
| RespObject (response : JsValue)
| RespString (s : jsstring)
| RespOther.

(** ** Workers KV *)

Record KvListOptions := mkKvListOptions {
  list_prefix : jsstring;
  list_limit : N;
  list_cursor : option jsstring
}.

Record KvListResult := mkKvListResult {
  keys : list jsstring;              (* the [name] of each key *)
  list_complete : bool;
  cursor : option jsstring
}.

(** ** History *)

Inductive Event :=
| EvFetch (req : Request) (res : Exc Response)
| EvAiRun (model : jsstring) (inputs : AiInputs) (res : Exc AiResponse)
| EvKvGet (key : jsstring) (res : Exc (option jsstring))
| EvKvPut (key value : jsstring) (ttl : option N) (res : Exc unit)
| EvKvList (opts : KvListOptions) (res : Exc KvListResult)
| EvSleep (ms : N)
| EvNow (iso : jsstring).

Definition History := list Event.

(** ** The bindings of the worker, as oracles over the history *)

Record KVNamespace := mkKV {
  kv_get : History -> jsstring -> Exc (option jsstring);
  kv_put : History -> jsstring -> jsstring -> option N -> Exc unit;
  kv_list : History -> KvListOptions -> Exc KvListResult
}.

Record Ai := mkAi {
  ai_run : History -> jsstring -> AiInputs -> Exc AiResponse
}.

(** The globals: [fetch] and the clock behind [new Date().toISOString()]. *)
Record World := mkWorld {
  world_fetch : History -> Request -> Exc Response;
  world_now : History -> jsstring
}.

(** ** Computations *)

Definition M (A : Type) : Type := History -> Exc A * History.

Definition ret {A} (a : A) : M A := fun h => (Ok a, h).

Definition throw {A} (e : JsError) : M A := fun h => (Throw e, h).

Definition bind {A B} (m : M A) (k : A -> M B) : M B :=
  fun h => match m h with
           | (Ok a, h') => k a h'
           | (Throw e, h') => (Throw e, h')
           end.

(** [try { m } catch (e) { handler e }] *)
Definition try_catch {A} (m : M A) (handler : JsError -> M A) : M A :=
  fun h => match m h with
           | (Ok a, h') => (Ok a, h')
           | (Throw e, h') => handler e h'
           end.

(** A pure completion, inside a computation. *)
Definition lift {A} (r : Exc A) : M A := fun h => (r, h).

(** A call answered by an oracle and recorded. *)
Definition call {A} (oracle : History -> Exc A) (ev : Exc A -> Event) : M A :=
  fun h => let r := oracle h in (r, h ++ [ev r]).

Definition fetch (W : World) (req : Request) : M Response :=
  call (fun h => world_fetch W h req) (EvFetch req).

(** [await new Promise((resolve) => setTimeout(resolve, ms))] *)
Definition sleep (ms : N) : M unit := fun h => (Ok tt, h ++ [EvSleep ms]).

(** [new Date().toISOString()] *)
Definition now_iso (W : World) : M jsstring :=
  fun h => let t := world_now W h in (Ok t, h ++ [EvNow t]).

(** [try { ... } catch] over a pure completion. *)
Definition catch_pure {A} (r : Exc A) (handler : JsError -> Exc A) : Exc A :=
  match r with Ok a => Ok a | Throw e => handler e end.

End Runtime.

Import Runtime.

Declare Scope js_scope.
Delimit Scope js_scope with js_m.
Notation "'do' x <- m ; k" := (bind m (fun x => k))
  (at level 10, x name, m at level 100, k at level 200) : js_scope.
Notation "'do' ' pat <- m ; k" := (bind m (fun x => match x with pat => k end))
  (at level 10, pat pattern, m at level 100, k at level 200) : js_scope.
Open Scope js_scope.

(* ================================================================== *)
(** * JSON text and base64 *)

Module Json.

(** The values the program serialises: strings, booleans and arrays of
    strings, as the properties of one flat object. *)
Inductive value :=
| Str (s : jsstring)
| Bool (b : bool)
| Strings (l : list jsstring).

Definition object := list (jsstring * value).

Definition hex_digit (n : N) : N := if (n <? 10)%N then (48 + n)%N else (87 + n)%N.

(** [\uXXXX] with lower-case digits. *)
Definition unicode_escape (c : N) : jsstring :=
  js "\u" ++ [hex_digit (c / 4096 mod 16); hex_digit (c / 256 mod 16);
              hex_digit (c / 16 mod 16); hex_digit (c mod 16)]%N.

Definition is_high_surrogate (c : N) : bool := between 55296 56319 c.
Definition is_low_surrogate (c : N) : bool := between 56320 57343 c.

Definition escape_unit (c : N) : jsstring :=
  if N.eqb c 34 then js "\" ++ [34%N]
  else if N.eqb c 92 then js "\\"
  else if N.eqb c 8 then js "\b"
  else if N.eqb c 12 then js "\f"
  else if N.eqb c 10 then js "\n"
  else if N.eqb c 13 then js "\r"
  else if N.eqb c 9 then js "\t"
  else if (c <? 32)%N then unicode_escape c
  else if is_high_surrogate c || is_low_surrogate c then unicode_escape c
  else [c].

(** The characters of QuoteJSONString: a high surrogate followed by a
    low one is one code point and is copied; a lone surrogate is
    escaped. *)
Fixpoint quote_units (s : jsstring) : jsstring :=
  match s with
  | [] => []
  | c :: s' =>
      match s' with
      | d :: s'' =>
          if is_high_surrogate c && is_low_surrogate d
          then c :: d :: quote_units s''
          else escape_unit c ++ quote_units s'
      | [] => escape_unit c
      end
  end.

Definition quote (s : jsstring) : jsstring := [34%N] ++ quote_units s ++ [34%N].

Definition newline : jsstring := [10%N].

Definition stringify_value (pretty : bool) (v : value) : jsstring :=
  match v with
  | Str s => quote s
  | Bool true => js "true"
  | Bool false => js "false"
  | Strings [] => js "[]"
  | Strings l =>
      if pretty then
        js "[" ++ newline
        ++ join (js "," ++ newline) (map (fun s => js "    " ++ quote s) l)
        ++ newline ++ js "  ]"
      else js "[" ++ join (js ",") (map quote l) ++ js "]"
  end.

(** [JSON.stringify(o)] when [pretty] is false and
    [JSON.stringify(o, null, 2)] when it is true, for a flat object. *)
Definition stringify (pretty : bool) (o : object) : jsstring :=
  match o with
  | [] => js "{}"
  | _ =>
      if pretty then
        js "{" ++ newline
        ++ join (js "," ++ newline)
             (map (fun kv => js "  " ++ quote (fst kv) ++ js ": "
                             ++ stringify_value true (snd kv)) o)
        ++ newline ++ js "}"
      else
        js "{"
        ++ join (js ",")
             (map (fun kv => quote (fst kv) ++ js ":" ++ stringify_value false (snd kv)) o)
        ++ js "}"
  end.

Definition alphabet : jsstring :=
  js "ABCDEFGHIJKLMNOPQRSTUVWXYZabcdefghijklmnopqrstuvwxyz0123456789+/".

Definition sextet (i : N) : N := nth (N.to_nat (i mod 64)) alphabet 0%N.

Fixpoint base64 (bytes : list N) : jsstring :=
  match bytes with
  | [] => []
  | [a] =>
      let n := (a * 65536)%N in
      [sextet (n / 262144); sextet (n / 4096); 61%N; 61%N]
  | [a; b] =>
      let n := (a * 65536 + b * 256)%N in
      [sextet (n / 262144); sextet (n / 4096); sextet (n / 64); 61%N]
  | a :: b :: c :: rest =>
      let n := (a * 65536 + b * 256 + c)%N in
      [sextet (n / 262144); sextet (n / 4096); sextet (n / 64); sextet n]
      ++ base64 rest
  end.

(** [btoa(text)]: every code unit is taken as one byte; a code unit
    above 255 makes it throw an InvalidCharacterError. *)
Definition btoa (text : jsstring) : Exc jsstring :=
  if forallb (fun c => (c <=? 255)%N) text then Ok (base64 text)
  else Throw (mkError (js "InvalidCharacterError")).

End Json.

(* ================================================================== *)
(** * types.ts *)

Module BlogPost.
Record t := mk {
  title : jsstring;
  link : jsstring;
  guid : jsstring;
  pubDate : jsstring;
  description : jsstring;
  content : jsstring;
  categories : list jsstring;
  authors : list jsstring
}.
End BlogPost.

Module BlogPostSummary.
Record t := mk {
  slug : jsstring;
  title : jsstring;
  url : jsstring;
  publishedAt : jsstring;
  summary : jsstring;
  authors : list jsstring;
  categories : list jsstring;
  guid : jsstring
}.
End BlogPostSummary.

Record Env := mkEnv {
  PROCESSED_POSTS : option KVNamespace;
  AI : option Ai;
  RSS_FEED_URL : jsstring;
  POSTS_TO_FETCH : jsstring;
  GITHUB_TOKEN : option jsstring;
  GITHUB_OWNER : option jsstring;
  GITHUB_REPO : option jsstring
}.

(* ================================================================== *)
(** * rss-parser.ts *)

Module RssParser.

Definition is_slug_unit (c : N) : bool := is_lower c || is_digit c.

(** [/^-+|-+$/g] replaced by the empty string: the leading run of
    hyphens and the run of hyphens that reaches the end. *)
Definition strip_hyphens (s : jsstring) : jsstring :=
  rev (drop_while (N.eqb 45) (rev (drop_while (N.eqb 45) s))).

(** [generateSlug]:
    [title.toLowerCase().replace(/[^a-z0-9]+/g, '-').replace(/^-+|-+$/g, '')] *)
Definition generateSlug (title : jsstring) : jsstring :=
  strip_hyphens
    (replace_all (run_of (fun c => negb (is_slug_unit c)) (js "-"))
                 (toLowerCase title)).

(** [/blog\.cloudflare\.com\/([^/]+)/] *)
Definition re_blog_path : matcher :=
  fun s =>
    let host := js "blog.cloudflare.com/" in
    if starts_with host s then
      match fst (span (fun c => negb (N.eqb c 47)) (skipn (length host) s)) with
      | [] => None
      | seg => Some (length host + length seg, seg)
      end
    else None.

(** [.replace(/\/$/, '')]: one slash at the very end is removed. *)
Definition drop_final_slash (s : jsstring) : jsstring :=
  match rev s with
  | 47%N :: r => rev r
  | _ => s
  end.

(** [extractSlugFromUrl] *)
Definition extractSlugFromUrl (url : jsstring) : jsstring :=
  match first_match re_blog_path url with
  | Some cap => if truthy cap then drop_final_slash cap else []
  | None => []
  end.

(** ** Items *)

(** [<tag><!\[CDATA\[(.*?)\]\]><\/tag>] with the [s] flag, for a tag
    name without metacharacters (all the callers' are). *)
Definition re_cdata (tag : jsstring) : matcher :=
  fun s =>
    let opener := js "<" ++ tag ++ js "><![CDATA[" in
    let closer := js "]]></" ++ tag ++ js ">" in
    if starts_with opener s then
      match cut closer (skipn (length opener) s) with
      | Some (body, _) => Some (length opener + length body + length closer, body)
      | None => None
      end
    else None.

(** [<tag[^>]*>(.*?)<\/tag>] with the [s] flag: the attributes end at
    the first [>], the body at the first closing tag after it. *)
Definition re_text (tag : jsstring) : matcher :=
  fun s =>
    let opener := js "<" ++ tag in
    let closer := js "</" ++ tag ++ js ">" in
    if starts_with opener s then
      match cut (js ">") (skipn (length opener) s) with
      | Some (attrs, rest) =>
          match cut closer rest with
          | Some (body, _) =>
              Some (length opener + length attrs + 1 + length body + length closer, body)
          | None => None
          end
      | None => None
      end
    else None.

(** [<item>([\s\S]*?)<\/item>] *)
Definition re_item : matcher :=
  fun s =>
    let opener := js "<item>" in
    let closer := js "</item>" in
    if starts_with opener s then
      match cut closer (skipn (length opener) s) with
      | Some (body, _) => Some (length opener + length body + length closer, body)
      | None => None
      end
    else None.

Definition or_empty (m : option jsstring) : jsstring :=
  match m with Some cap => cap | None => [] end.

Definition extractCDATA (xml tag : jsstring) : jsstring :=
  or_empty (first_match (re_cdata tag) xml).

Definition extractText (xml tag : jsstring) : jsstring :=
  or_empty (first_match (re_text tag) xml).

Definition extractMultiple (xml tag : jsstring) : list jsstring :=
  let matches := match_all (re_cdata tag) xml in
  if (0 <? length matches)%nat then matches
  else match_all (re_text tag) xml.

(** [&#(\d+);], replaced by the character of that code. *)
Definition re_decimal_entity : matcher :=
  fun s =>
    if starts_with (js "&#") s then
      match span is_digit (skipn 2 s) with
      | (d :: ds, 59%N :: _) => Some (2 + length (d :: ds) + 1, char_of_digits 10 (d :: ds))
      | _ => None
      end
    else None.

(** [&#x([0-9A-Fa-f]+);] *)
Definition re_hex_entity : matcher :=
  fun s =>
    if starts_with (js "&#x") s then
      match span is_hex_digit (skipn 3 s) with
      | (d :: ds, 59%N :: _) => Some (3 + length (d :: ds) + 1, char_of_digits 16 (d :: ds))
      | _ => None
      end
    else None.

(** The table of named entities, in the order of the object literal. *)
Definition entities : list (jsstring * jsstring) :=
  [ (js "&amp;", js "&"); (js "&lt;", js "<"); (js "&gt;", js ">");
    (js "&quot;", [34%N]); (js "&apos;", js "'"); (js "&nbsp;", js " ");
    (js "&eacute;", [233%N]); (js "&egrave;", [232%N]);
    (js "&ecirc;", [234%N]); (js "&euml;", [235%N]);
    (js "&agrave;", [224%N]); (js "&acirc;", [226%N]);
    (js "&auml;", [228%N]); (js "&ocirc;", [244%N]);
    (js "&ouml;", [246%N]); (js "&icirc;", [238%N]);
    (js "&iuml;", [239%N]); (js "&ccedil;", [231%N]);
    (js "&ntilde;", [241%N]); (js "&uuml;", [252%N]);
    (js "&ucirc;", [251%N]); (js "&ugrave;", [249%N]) ].

Definition decodeHTMLEntities (text : jsstring) : jsstring :=
  let text := replace_all re_decimal_entity text in
  let text := replace_all re_hex_entity text in
  fold_left (fun text e => replace_all (literal (fst e) (snd e)) text)
            entities text.

(** [\n\s*], replaced by one space. *)
Definition re_newline : matcher :=
  fun s =>
    match s with
    | 10%N :: rest => Some (1 + length (fst (span is_space rest)), js " ")
    | _ => None
    end.

Definition cleanText (text : jsstring) : jsstring :=
  decodeHTMLEntities (replace_all re_newline (trim text)).

Definition parseRSSItem (itemXml : jsstring) : Exc BlogPost.t :=
  let title := extractCDATA itemXml (js "title") in
  let link := extractText itemXml (js "link") in
  let guid := extractText itemXml (js "guid") in
  let pubDate := extractText itemXml (js "pubDate") in
  let description := extractCDATA itemXml (js "description") in
  let content := extractCDATA itemXml (js "content:encoded") in
  let categories := extractMultiple itemXml (js "category") in
  let authors := extractMultiple itemXml (js "dc:creator") in
  if negb (truthy title) || negb (truthy link) || negb (truthy guid) then
    Throw (mkError (js "Missing required fields in RSS item"))
  else
    Ok {| BlogPost.title := cleanText title;
          BlogPost.link := cleanText link;
          BlogPost.guid := cleanText guid;
          BlogPost.pubDate := cleanText pubDate;
          BlogPost.description := cleanText description;
          BlogPost.content := cleanText content;
          BlogPost.categories := map cleanText categories;
          BlogPost.authors := map cleanText authors |}.

(** The loop of [parseRSSFeed] over the item blocks: each block is parsed
    inside its own [try]; [posts] accumulates the results. *)
Fixpoint parse_items (items : list jsstring) (posts : list BlogPost.t)
  : Exc (list BlogPost.t) :=
  match items with
  | [] => Ok posts
  | itemXml :: rest =>
      match catch_pure
              (match parseRSSItem itemXml with
               | Ok post => Ok (posts ++ [post])
               | Throw e => Throw e
               end)
              (fun _ => Ok posts) with
      | Ok posts' => parse_items rest posts'
      | Throw e => Throw e
      end
  end.

Definition parseRSSFeed (xmlText : jsstring) : Exc (list BlogPost.t) :=
  parse_items (match_all re_item xmlText) [].

(** ** Fetching *)

(** A Number as the item cap can hold it: [parseInt] answers an integer
    or NaN.  (Above 2^53 the integer is rounded to a double; [slice]
    clamps it to the length of the array either way.) *)
Inductive JsNumber := NaN | Int (z : Z).

Definition number_truthy (n : JsNumber) : bool :=
  match n with NaN => false | Int z => negb (Z.eqb z 0) end.

(** [parseInt(text, 10)] *)
Definition parseInt10 (text : jsstring) : JsNumber :=
  let s := drop_while is_space text in
  let '(negative, s) :=
    match s with
    | 45%N :: r => (true, r)
    | 43%N :: r => (false, r)
    | _ => (false, s)
    end in
  match fst (span is_digit s) with
  | [] => NaN
  | ds => let v := Z.of_N (number_of 10 ds) in
          Int (if negative then (- v)%Z else v)
  end.

(** [posts.slice(0, end)] *)
Definition slice0 {A} (l : list A) (e : JsNumber) : list A :=
  match e with
  | NaN => []
  | Int z =>
      if (z <? 0)%Z then firstn (Z.to_nat (Z.max (Z.of_nat (length l) + z) 0)) l
      else firstn (Z.to_nat z) l
  end.

Record RSSParserOptions := mkOptions {
  feedUrl : jsstring;
  maxPosts : option JsNumber
}.

Definition feed_request (feedUrl : jsstring) : Request :=
  {| req_url := feedUrl;
     req_method := GET;
     req_headers := [(js "User-Agent", js "Cloudflare-Autoblog-Worker/1.0")];
     req_body := None |}.

Definition fetchBlogPosts (W : World) (options : RSSParserOptions)
  : M (list BlogPost.t) :=
  try_catch
    (do response <- fetch W (feed_request (feedUrl options));
     if negb (ok response) then
       throw (mkError (js "Failed to fetch RSS feed: " ++ decimal (status response)
                       ++ js " " ++ statusText response))
     else
       do xmlText <- lift (resp_text response);
       do posts <- lift (parseRSSFeed xmlText);
       ret (match maxPosts options with
            | Some n => if number_truthy n then slice0 posts n else posts
            | None => posts
            end))
    (fun error => throw error).

End RssParser.

Import RssParser.


(* ================================================================== *)
(** * kv-storage.ts *)

Module KvStorage.

(** The part of [ProcessedPostMetadata] that the caller supplies. *)
Record Metadata := mkMetadata {
  meta_title : jsstring;
  meta_slug : jsstring;
  meta_url : jsstring
}.

Definition getPostKey (guid : jsstring) : jsstring := js "post:" ++ guid.

Definition isPostProcessed (kv : KVNamespace) (guid : jsstring) : M bool :=
  try_catch
    (let key := getPostKey guid in
     do value <- call (fun h => kv_get kv h key) (EvKvGet key);
     ret (match value with Some _ => true | None => false end))
    (fun error =>
       (* Return false on error to allow processing (fail open) *)
       ret false).

(** [{ processed: true, timestamp, ...metadata }] *)
Definition ledger_value (timestamp : jsstring) (metadata : Metadata) : Json.object :=
  [ (js "processed", Json.Bool true);
    (js "timestamp", Json.Str timestamp);
    (js "title", Json.Str (meta_title metadata));
    (js "slug", Json.Str (meta_slug metadata));
    (js "url", Json.Str (meta_url metadata)) ].

(** [options.expirationTtl], set only for a truthy [ttl]. *)
Definition put_options (ttl : option N) : option N :=
  match ttl with
  | Some t => if (t =? 0)%N then None else Some t
  | None => None
  end.

Definition markPostProcessed (W : World) (kv : KVNamespace) (guid : jsstring)
    (metadata : Metadata) (ttl : option N) : M unit :=
  try_catch
    (let key := getPostKey guid in
     do timestamp <- now_iso W;
     let value := ledger_value timestamp metadata in
     let expirationTtl := put_options ttl in
     let text := Json.stringify false value in
     call (fun h => kv_put kv h key text expirationTtl)
          (EvKvPut key text expirationTtl))
    (fun error => throw error).

(** The [do ... while (cursor)] loop of [getProcessedPostCount].  The
    store decides when the listing is complete, so the loop is bounded
    by [fuel]; [None] means that the bound was reached. *)
Fixpoint count_pages (fuel : nat) (kv : KVNamespace) (count : N)
    (cursor : option jsstring) (h : History) : option (Exc N * History) :=
  match fuel with
  | O => None
  | S fuel' =>
      let opts := {| list_prefix := js "post:"; list_limit := 1000;
                     list_cursor := cursor |} in
      match call (fun h => kv_list kv h opts) (EvKvList opts) h with
      | (Throw e, h') => Some (Throw e, h')
      | (Ok result, h') =>
          let count := (count + N.of_nat (length (keys result)))%N in
          let cursor :=
            if list_complete result then None else Runtime.cursor result in
          match cursor with
          | Some (c :: cs) => count_pages fuel' kv count (Some (c :: cs)) h'
          | _ => Some (Ok count, h')
          end
      end
  end.

Definition getProcessedPostCount (fuel : nat) (kv : KVNamespace) (h : History)
  : option (Exc N * History) :=
  match count_pages fuel kv 0 None h with
  | Some (Ok count, h') => Some (Ok count, h')
  | Some (Throw error, h') => Some (Ok 0%N, h')
  | None => None
  end.

(** [key.name.replace(/^post:/, '')] *)
Definition strip_post_prefix (name : jsstring) : jsstring :=
  if starts_with (js "post:") name then skipn (length (js "post:")) name
  else name.

(** The [do ... while (cursor && guids.length < limit)] loop of
    [getProcessedPosts], for a [limit] that is a natural number: at the
    first page [guids] is empty, and a later page is requested only
    while [guids.length < limit], so [limit - guids.length] never goes
    below zero.  The store decides when the listing is complete, so the
    loop is bounded by [fuel]; [None] means that the bound was reached. *)
Fixpoint list_pages (fuel : nat) (kv : KVNamespace) (limit : N)
    (guids : list jsstring) (cursor : option jsstring) (h : History)
  : option (Exc (list jsstring) * History) :=
  match fuel with
  | O => None
  | S fuel' =>
      let opts := {| list_prefix := js "post:";
                     list_limit := N.min (limit - N.of_nat (length guids)) 1000;
                     list_cursor := cursor |} in
      match call (fun h => kv_list kv h opts) (EvKvList opts) h with
      | (Throw e, h') => Some (Throw e, h')
      | (Ok result, h') =>
          let pageGuids := map strip_post_prefix (keys result) in
          let guids := guids ++ pageGuids in
          let cursor :=
            if list_complete result then None else Runtime.cursor result in
          match cursor with
          | Some (c :: cs) =>
              if (N.of_nat (length guids) <? limit)%N
              then list_pages fuel' kv limit guids (Some (c :: cs)) h'
              else Some (Ok guids, h')
          | _ => Some (Ok guids, h')
          end
      end
  end.

Definition getProcessedPosts (fuel : nat) (kv : KVNamespace) (limit : N)
    (h : History) : option (Exc (list jsstring) * History) :=
  match list_pages fuel kv limit [] None h with
  | Some (Ok guids, h') => Some (Ok guids, h')
  | Some (Throw error, h') => Some (Ok [], h')
  | None => None
  end.

End KvStorage.

(* ================================================================== *)
(** * ai-summarizer.ts *)

Module AiSummarizer.

Definition AI_MODEL : jsstring := js "@cf/meta/llama-3.1-8b-instruct".
Definition MAX_RETRIES : N := 3.
Definition RETRY_DELAY_MS : N := 1000.

Record SummarizeOptions := mkSummarizeOptions {
  maxLength : option N;
  includeDisclaimer : option bool
}.

Definition no_options : SummarizeOptions :=
  {| maxLength := None; includeDisclaimer := None |}.

(** [<[^>]*>], replaced by one space. *)
Definition re_html_tag : matcher :=
  fun s =>
    match s with
    | 60%N :: rest =>
        match cut (js ">") rest with
        | Some (inside, _) => Some (1 + length inside + 1, js " ")
        | None => None
        end
    | _ => None
    end.

Definition stripHtml (html : jsstring) : jsstring :=
  let text := replace_all re_html_tag html in
  let text := replace_all (run_of is_space (js " ")) text in
  let text := replace_all (literal (js "&nbsp;") (js " ")) text in
  let text := replace_all (literal (js "&amp;") (js "&")) text in
  let text := replace_all (literal (js "&lt;") (js "<")) text in
  let text := replace_all (literal (js "&gt;") (js ">")) text in
  let text := replace_all (literal (js "&quot;") [34%N]) text in
  let text := replace_all (literal (js "&#39;") (js "'")) text in
  trim text.

(** [s.lastIndexOf(' ')]; [None] stands for -1. *)
Fixpoint lastIndexOf_space (s : jsstring) : option nat :=
  match s with
  | [] => None
  | c :: s' =>
      match lastIndexOf_space s' with
      | Some i => Some (S i)
      | None => if N.eqb c 32 then Some 0 else None
      end
  end.

Definition truncateText (text : jsstring) (maxChars : nat) : jsstring :=
  if (length text <=? maxChars)%nat then text
  else
    let truncated := firstn maxChars text in
    match lastIndexOf_space truncated with
    | Some (S i) => firstn (S i) truncated ++ js "..."
    | _ => truncated ++ js "..."
    end.

Definition getSystemPrompt : jsstring :=
  js "You are a technical content summarizer for a developer blog. Your task is to create concise, informative summaries of technical blog posts. Focus on:
- Key technical details and main announcements
- Practical implications for developers
- Important facts, figures, and timelines
- Clear, professional language

Write summaries in 2-3 paragraphs. Be objective and informative.".

Definition getUserPrompt (post : BlogPost.t) : jsstring :=
  let plainTextContent := stripHtml (BlogPost.content post) in
  let truncatedContent := truncateText plainTextContent 4000 in
  js "Summarize the following Cloudflare blog post in 2-3 concise paragraphs. Focus on the key technical details, main announcements, and practical implications for developers.

Title: " ++ BlogPost.title post ++ js "

Authors: " ++ join (js ", ") (BlogPost.authors post) ++ js "

Categories: " ++ join (js ", ") (BlogPost.categories post) ++ js "

Content:
" ++ truncatedContent ++ js "

Provide a clear, technical summary that developers would find useful.".

(** [String(value)] *)
Definition String_ (v : JsValue) : jsstring :=
  match v with
  | VUndefined => js "undefined"
  | VNull => js "null"
  | VBool true => js "true"
  | VBool false => js "false"
  | VString s => s
  | VObject => js "[object Object]"
  | VOther text => text
  end.

Definition disclaimer : jsstring :=
  js "**AI-Generated Summary**: This is an automated summary of a Cloudflare blog post created using AI. For the full details and context, please read the original post."
  ++ [10; 10]%N.

Definition inputs_for (post : BlogPost.t) : AiInputs :=
  {| messages := [ {| role := js "system"; content := getSystemPrompt |};
                   {| role := js "user"; content := getUserPrompt post |} ];
     max_tokens := 512;
     temperature := js "0.7" |}.

(** The text of a response, or the error for an unexpected shape. *)
Definition response_text (response : AiResponse) : Exc jsstring :=
  match response with
  | RespObject v => Ok (String_ v)
  | RespString s => Ok s
  | RespOther => Throw (mkError (js "Unexpected response format from AI"))
  end.

(** The checks on the trimmed text of one attempt. *)
Definition checked_summary (text : jsstring) : Exc jsstring :=
  let summary := trim text in
  if negb (truthy summary) || (length summary <? 50)%nat then
    Throw (mkError (js "Generated summary is too short or empty"))
  else Ok summary.

(** The body of the [try] of one attempt. *)
Definition attempt_summary (ai : Ai) (post : BlogPost.t) (withDisclaimer : bool)
  : M jsstring :=
  let inputs := inputs_for post in
  do response <- call (fun h => ai_run ai h AI_MODEL inputs) (EvAiRun AI_MODEL inputs);
  do text <- lift (response_text response);
  do summary <- lift (checked_summary text);
  ret (if withDisclaimer then disclaimer ++ summary else summary).

Definition exhausted (lastError : option JsError) : JsError :=
  mkError (js "Failed to generate summary after " ++ decimal MAX_RETRIES
           ++ js " attempts: "
           ++ match lastError with
              | Some e => message e
              | None => js "undefined"
              end).

(** The [for (attempt = 1; attempt <= MAX_RETRIES; attempt++)] loop,
    entered with [remaining] iterations left. *)
Fixpoint retry_loop (ai : Ai) (post : BlogPost.t) (withDisclaimer : bool)
    (remaining : nat) (attempt : N) (lastError : option JsError) : M jsstring :=
  match remaining with
  | O => throw (exhausted lastError)
  | S remaining' =>
      try_catch
        (attempt_summary ai post withDisclaimer)
        (fun error =>
           do _ <- (if (attempt <? MAX_RETRIES)%N
                    then sleep (RETRY_DELAY_MS * attempt)
                    else ret tt);
           retry_loop ai post withDisclaimer remaining' (attempt + 1)%N (Some error))
  end.

Definition generateSummary (ai : Ai) (post : BlogPost.t) (options : SummarizeOptions)
  : M jsstring :=
  let withDisclaimer :=
    match includeDisclaimer options with Some b => b | None => true end in
  retry_loop ai post withDisclaimer (N.to_nat MAX_RETRIES) 1%N None.

Definition fallback : jsstring :=
  js "**AI-Generated Summary**: Summary generation failed. Please read the original post for full details.".

Fixpoint summaries_loop (ai : Ai) (posts : list BlogPost.t)
    (options : SummarizeOptions) (summaries : list jsstring) : M (list jsstring) :=
  match posts with
  | [] => ret summaries
  | post :: rest =>
      do summaries' <-
        try_catch
          (do summary <- generateSummary ai post options;
           ret (summaries ++ [summary]))
          (fun error => ret (summaries ++ [fallback]));
      summaries_loop ai rest options summaries'
  end.

Definition generateSummaries (ai : Ai) (posts : list BlogPost.t)
    (options : SummarizeOptions) : M (list jsstring) :=
  summaries_loop ai posts options [].

Definition isAIAvailable (ai : option Ai) : bool :=
  match ai with Some _ => true | None => false end.

End AiSummarizer.

(* ================================================================== *)
(** * github-publisher.ts *)

Module GithubPublisher.

Import RssParser.

Record GitHubConfig := mkConfig {
  token : jsstring;
  owner : jsstring;
  repo : jsstring
}.

Definition generateSlugForPost (post : BlogPost.t) : jsstring :=
  let urlSlug := extractSlugFromUrl (BlogPost.link post) in
  if truthy urlSlug then urlSlug
  else
    strip_hyphens
      (replace_all (run_of (fun c => negb (is_slug_unit c)) (js "-"))
                   (toLowerCase (BlogPost.title post))).

Definition createBlogPostSummary (post : BlogPost.t) (summary : jsstring)
  : BlogPostSummary.t :=
  let slug := generateSlugForPost post in
  {| BlogPostSummary.slug := slug;
     BlogPostSummary.title := BlogPost.title post;
     BlogPostSummary.url := BlogPost.link post;
     BlogPostSummary.publishedAt := BlogPost.pubDate post;
     BlogPostSummary.summary := summary;
     BlogPostSummary.authors := BlogPost.authors post;
     BlogPostSummary.categories := BlogPost.categories post;
     BlogPostSummary.guid := BlogPost.guid post |}.

(** The properties of a [BlogPostSummary], in the order of the object
    literal that builds it. *)
Definition summary_object (p : BlogPostSummary.t) : Json.object :=
  [ (js "slug", Json.Str (BlogPostSummary.slug p));
    (js "title", Json.Str (BlogPostSummary.title p));
    (js "url", Json.Str (BlogPostSummary.url p));
    (js "publishedAt", Json.Str (BlogPostSummary.publishedAt p));
    (js "summary", Json.Str (BlogPostSummary.summary p));
    (js "authors", Json.Strings (BlogPostSummary.authors p));
    (js "categories", Json.Strings (BlogPostSummary.categories p));
    (js "guid", Json.Str (BlogPostSummary.guid p)) ].

Definition contents_url (config : GitHubConfig) (filePath : jsstring) : jsstring :=
  js "https://api.github.com/repos/" ++ owner config ++ js "/" ++ repo config
  ++ js "/contents/" ++ filePath.

Definition api_error (response : Response) : jsstring :=
  js "GitHub API error: " ++ decimal (status response) ++ js " "
  ++ statusText response.

Definition sha_request (config : GitHubConfig) (filePath : jsstring) : Request :=
  {| req_url := contents_url config filePath;
     req_method := GET;
     req_headers :=
       [ (js "Authorization", js "Bearer " ++ token config);
         (js "Accept", js "application/vnd.github.v3+json");
         (js "User-Agent", js "Cloudflare-Autoblog-Worker") ];
     req_body := None |}.

(** [data.sha] on the parsed body; reading a property of [null] throws. *)
Definition sha_of (data : JsonDoc) : Exc (option jsstring) :=
  match data with
  | DocNull => Throw (mkError (js "TypeError"))
  | DocValue sha => Ok sha
  end.

Definition getFileSha (W : World) (config : GitHubConfig) (filePath : jsstring)
  : M (option jsstring) :=
  try_catch
    (do response <- fetch W (sha_request config filePath);
     if (status response =? 404)%N then ret None  (* File doesn't exist *)
     else if negb (ok response) then throw (mkError (api_error response))
     else
       do data <- lift (resp_json response);
       lift (sha_of data))
    (fun error => ret None).

Definition filePath_of (postSummary : BlogPostSummary.t) : jsstring :=
  js "site/content/posts/" ++ BlogPostSummary.slug postSummary ++ js ".json".

Definition quoted (s : jsstring) : jsstring := [34%N] ++ s ++ [34%N].

Definition update_message (postSummary : BlogPostSummary.t) : jsstring :=
  js "chore: update summary for " ++ quoted (BlogPostSummary.title postSummary).

Definition add_message (postSummary : BlogPostSummary.t) : jsstring :=
  js "feat: add summary for " ++ quoted (BlogPostSummary.title postSummary).

(** The request body: [sha] is set only for a truthy [existingSha]. *)
Definition put_body (postSummary : BlogPostSummary.t) (base64Content : jsstring)
    (existingSha : option jsstring) : Json.object :=
  let present :=
    match existingSha with Some sha => truthy sha | None => false end in
  [ (js "message",
     Json.Str (if present then update_message postSummary
               else add_message postSummary));
    (js "content", Json.Str base64Content);
    (js "branch", Json.Str (js "main")) ]
  ++ match existingSha with
     | Some sha => if truthy sha then [(js "sha", Json.Str sha)] else []
     | None => []
     end.

Definition put_request (config : GitHubConfig) (filePath : jsstring)
    (body : Json.object) : Request :=
  {| req_url := contents_url config filePath;
     req_method := PUT;
     req_headers :=
       [ (js "Authorization", js "Bearer " ++ token config);
         (js "Accept", js "application/vnd.github.v3+json");
         (js "Content-Type", js "application/json");
         (js "User-Agent", js "Cloudflare-Autoblog-Worker") ];
     req_body := Some (Json.stringify false body) |}.

(** [result.content?.html_url] on the parsed body of the answer. *)
Definition html_url_of (result : JsonDoc) : Exc unit :=
  match result with
  | DocNull => Throw (mkError (js "TypeError"))
  | DocValue _ => Ok tt
  end.

Definition publishToGitHub (W : World) (config : GitHubConfig)
    (postSummary : BlogPostSummary.t) : M bool :=
  let filePath := filePath_of postSummary in
  try_catch
    (do existingSha <- getFileSha W config filePath;
     let content := Json.stringify true (summary_object postSummary) in
     do base64Content <- lift (Json.btoa content);
     let body := put_body postSummary base64Content existingSha in
     do response <- fetch W (put_request config filePath body);
     if negb (ok response) then
       do errorText <- lift (resp_text response);
       throw (mkError (api_error response ++ [10%N] ++ errorText))
     else
       do result <- lift (resp_json response);
       do _ <- lift (html_url_of result);
       ret true)
    (fun error => ret false).

Fixpoint publish_loop (W : World) (config : GitHubConfig)
    (postSummaries : list BlogPostSummary.t) (successCount : N) : M N :=
  match postSummaries with
  | [] => ret successCount
  | postSummary :: rest =>
      do success <- publishToGitHub W config postSummary;
      let successCount := if success then (successCount + 1)%N else successCount in
      do _ <- sleep 1000;
      publish_loop W config rest successCount
  end.

Definition publishMultipleToGitHub (W : World) (config : GitHubConfig)
    (postSummaries : list BlogPostSummary.t) : M N :=
  publish_loop W config postSummaries 0%N.

Definition validateGitHubConfig (config : GitHubConfig) : bool :=
  truthy (token config) && truthy (owner config) && truthy (repo config).

Definition createGitHubConfig (env : Env) : option GitHubConfig :=
  let config :=
    {| token := match GITHUB_TOKEN env with Some t => t | None => [] end;
       owner := match GITHUB_OWNER env with Some o => o | None => [] end;
       repo := match GITHUB_REPO env with Some r => r | None => [] end |} in
  if validateGitHubConfig config then Some config else None.

End GithubPublisher.

(* ================================================================== *)
(** * The worker entry point *)

Module Worker.

Import RssParser KvStorage AiSummarizer GithubPublisher.

(** What a run that returns has to report: either there was nothing new,
    or the two counters of its closing summary. *)
Inductive RunReport :=
| NothingNew
| Processed (successCount failureCount : N).

(** Step 2, the loop over the fetched posts. *)
Fixpoint filter_new (kv : KVNamespace) (posts newPosts : list BlogPost.t)
  : M (list BlogPost.t) :=
  match posts with
  | [] => ret newPosts
  | post :: rest =>
      do processed <- isPostProcessed kv (BlogPost.guid post);
      filter_new kv rest (if processed then newPosts else newPosts ++ [post])
  end.

(** Steps 3 to 5 for one post: the body of the inner [try]. *)
Definition process_post (W : World) (env : Env) (ai : Ai)
    (githubConfig : GitHubConfig) (post : BlogPost.t) : M unit :=
  do summary <- generateSummary ai post no_options;
  let postSummary := createBlogPostSummary post summary in
  do published <- publishToGitHub W githubConfig postSummary;
  if negb published then throw (mkError (js "Failed to publish to GitHub"))
  else
    match PROCESSED_POSTS env with
    | Some kv =>
        markPostProcessed W kv (BlogPost.guid post)
          {| meta_title := BlogPost.title post;
             meta_slug := BlogPostSummary.slug postSummary;
             meta_url := BlogPost.link post |}
          None
    | None => ret tt
    end.

(** The [for] loop over the new posts, with its two counters. *)
Fixpoint process_loop (W : World) (env : Env) (ai : Ai)
    (githubConfig : GitHubConfig) (newPosts : list BlogPost.t)
    (successCount failureCount : N) : M (N * N) :=
  match newPosts with
  | [] => ret (successCount, failureCount)
  | post :: rest =>
      do counts <-
        try_catch
          (do _ <- process_post W env ai githubConfig post;
           ret ((successCount + 1)%N, failureCount))
          (fun error =>
             (* Continue processing other posts even if one fails *)
             ret (successCount, (failureCount + 1)%N));
      process_loop W env ai githubConfig rest (fst counts) (snd counts)
  end.

(** The run after the fetch: filtering, then processing. *)
Definition after_fetch (fuel : nat) (W : World) (env : Env) (ai : Ai)
    (githubConfig : GitHubConfig) (posts : list BlogPost.t) (h : History)
  : option (Exc RunReport * History) :=
  let filtered : option (Exc (list BlogPost.t) * History) :=
    match PROCESSED_POSTS env with
    | Some kv =>
        match getProcessedPostCount fuel kv h with
        | Some (Ok processedCount, h1) => Some (filter_new kv posts [] h1)
        | Some (Throw e, h1) => Some (Throw e, h1)
        | None => None
        end
    | None => Some (Ok posts, h)
    end in
  match filtered with
  | Some (Ok newPosts, h2) =>
      match newPosts with
      | [] => Some (Ok NothingNew, h2)
      | _ =>
          match process_loop W env ai githubConfig newPosts 0 0 h2 with
          | (Ok (successCount, failureCount), h3) =>
              Some (Ok (Processed successCount failureCount), h3)
          | (Throw e, h3) => Some (Throw e, h3)
          end
      end
  | Some (Throw e, h2) => Some (Throw e, h2)
  | None => None
  end.

(** [scheduled]: the outer [catch] re-throws, so an error of the
    validation, of the fetch or of the filtering ends the run. *)
Definition scheduled (fuel : nat) (W : World) (env : Env) (h : History)
  : option (Exc RunReport * History) :=
  match AI env with
  | None => Some (Throw (mkError (js "Workers AI not configured")), h)
  | Some ai =>
      match createGitHubConfig env with
      | None =>
          Some (Throw (mkError
                  (js "GitHub configuration missing (GITHUB_TOKEN, GITHUB_OWNER, GITHUB_REPO)")), h)
      | Some githubConfig =>
          match fetchBlogPosts W
                  {| feedUrl := RSS_FEED_URL env;
                     maxPosts := Some (parseInt10 (POSTS_TO_FETCH env)) |} h with
          | (Ok posts, h1) => after_fetch fuel W env ai githubConfig posts h1
          | (Throw e, h1) => Some (Throw e, h1)
          end
      end
  end.

End Worker.

Import KvStorage AiSummarizer GithubPublisher Worker.

(* ================================================================== *)
(** * Vocabulary of the statements *)

Module Observe.

Import RssParser.

(** [needle] occurs somewhere in [s]. *)
Definition occurs (needle s : jsstring) : Prop :=
  exists before after, s = before ++ needle ++ after.

Fixpoint occursb (needle s : jsstring) : bool :=
  starts_with needle s
  || match s with
     | [] => false
     | _ :: s' => occursb needle s'
     end.

(** The item blocks of a feed document, in document order. *)
Definition item_blocks (xmlText : jsstring) : list jsstring :=
  match_all re_item xmlText.

(** A feed document written out: a head, then the item elements, each
    with its body and with the text that follows its closing tag. *)
Definition feed_of (head : jsstring) (items : list (jsstring * jsstring)) : jsstring :=
  head ++ flat_map (fun item => js "<item>" ++ fst item ++ js "</item>" ++ snd item)
                   items.

(** The tags of the items delimit them: no opening tag in the head or
    between two items, no closing tag inside a body. *)
Definition delimited (head : jsstring) (items : list (jsstring * jsstring)) : Prop :=
  ~ occurs (js "<item>") head
  /\ Forall (fun item => ~ occurs (js "</item>") (fst item)
                         /\ ~ occurs (js "<item>") (snd item)) items.

(** The three required fields are all found, and not empty. *)
Definition complete_item (itemXml : jsstring) : bool :=
  truthy (extractCDATA itemXml (js "title"))
  && truthy (extractText itemXml (js "link"))
  && truthy (extractText itemXml (js "guid")).

(** The records of the blocks that parse, in the order of the blocks. *)
Definition records_of (blocks : list jsstring) : list BlogPost.t :=
  flat_map (fun itemXml => match parseRSSItem itemXml with
                           | Ok post => [post]
                           | Throw _ => []
                           end) blocks.

(** What one attempt makes of the answer of [ai.run]: the checked
    summary, or the error that fails the attempt. *)
Definition attempt_outcome (res : Exc AiResponse) : Exc jsstring :=
  match res with
  | Ok response =>
      match AiSummarizer.response_text response with
      | Ok text => AiSummarizer.checked_summary text
      | Throw e => Throw e
      end
  | Throw e => Throw e
  end.

(** The text that [generateSummary] returns for a checked summary. *)
Definition returned_text (options : AiSummarizer.SummarizeOptions)
    (summary : jsstring) : jsstring :=
  match AiSummarizer.includeDisclaimer options with
  | Some false => summary
  | _ => AiSummarizer.disclaimer ++ summary
  end.

(** The events of consecutive attempts numbered from [attempt]: one call
    of the backend per answer and, between two calls, a pause of
    [attempt * 1000] milliseconds. *)
Fixpoint backoff_trace (post : BlogPost.t) (attempt : N)
    (answers : list (Exc AiResponse)) : list Event :=
  match answers with
  | [] => []
  | res :: more =>
      EvAiRun AiSummarizer.AI_MODEL (AiSummarizer.inputs_for post) res
      :: match more with
         | [] => []
         | _ :: _ => EvSleep (attempt * 1000) :: backoff_trace post (attempt + 1) more
         end
  end.

(** What [getFileSha] makes of the answer to its GET. *)
Definition revision_marker (res : Exc Response) : option jsstring :=
  match res with
  | Ok response =>
      if (status response =? 404)%N then None
      else if negb (ok response) then None
      else match resp_json response with
           | Ok (DocValue sha) => sha
           | _ => None
           end
  | Throw _ => None
  end.

(** The read of the revision marker failed, in one of the ways that end
    in the [catch] of [getFileSha]: the request threw, its answer has a
    status outside 200-299, the body of the answer does not parse
    ([response.json()] rejects), or the body is [null] (reading
    [data.sha] throws). *)
Definition read_failed (res : Exc Response) : Prop :=
  match res with
  | Ok response =>
      ok response = false
      \/ is_ok (resp_json response) = false
      \/ resp_json response = Ok DocNull
  | Throw _ => True
  end.

(** What [publishToGitHub] makes of the answer to its PUT. *)
Definition write_accepted (res : Exc Response) : bool :=
  match res with
  | Ok response =>
      ok response
      && match resp_json response with
         | Ok (DocValue _) => true
         | _ => false
         end
  | Throw _ => false
  end.

(** The serialised artifact, as handed to [btoa]. *)
Definition artifact_text (postSummary : BlogPostSummary.t) : jsstring :=
  Json.stringify true (GithubPublisher.summary_object postSummary).

(** The body of a write that creates the file. *)
Definition create_body (postSummary : BlogPostSummary.t) (base64Content : jsstring)
  : Json.object :=
  [ (js "message", Json.Str (GithubPublisher.add_message postSummary));
    (js "content", Json.Str base64Content);
    (js "branch", Json.Str (js "main")) ].

(** The body of a write that updates the file at revision [sha]. *)
Definition update_body (postSummary : BlogPostSummary.t) (base64Content sha : jsstring)
  : Json.object :=
  [ (js "message", Json.Str (GithubPublisher.update_message postSummary));
    (js "content", Json.Str base64Content);
    (js "branch", Json.Str (js "main"));
    (js "sha", Json.Str sha) ].

Definition is_put (e : Event) : bool :=
  match e with
  | EvFetch req _ => match req_method req with PUT => true | GET => false end
  | _ => false
  end.

Definition is_kv_put (e : Event) : bool :=
  match e with EvKvPut _ _ _ _ => true | _ => false end.

(** The metadata that the orchestrator records for a post. *)
Definition metadata_of (post : BlogPost.t) (summary : jsstring) : KvStorage.Metadata :=
  {| KvStorage.meta_title := BlogPost.title post;
     KvStorage.meta_slug :=
       BlogPostSummary.slug (GithubPublisher.createBlogPostSummary post summary);
     KvStorage.meta_url := BlogPost.link post |}.

(** The runs of the new posts, one after the other: each starts from
    the history that the one before it left, whether that one returned
    or threw. *)
Fixpoint post_runs (W : World) (env : Env) (ai : Ai)
    (githubConfig : GithubPublisher.GitHubConfig) (newPosts : list BlogPost.t)
    (h : History) : list (Exc unit * History) :=
  match newPosts with
  | [] => []
  | post :: rest =>
      let run := Worker.process_post W env ai githubConfig post h in
      run :: post_runs W env ai githubConfig rest (snd run)
  end.

Definition succeeded (runs : list (Exc unit * History)) : N :=
  N.of_nat (length (filter (fun run => is_ok (fst run)) runs)).

Definition failed (runs : list (Exc unit * History)) : N :=
  N.of_nat (length (filter (fun run => negb (is_ok (fst run))) runs)).

Fixpoint history_after (runs : list (Exc unit * History)) (h : History) : History :=
  match runs with
  | [] => h
  | run :: rest => history_after rest (snd run)
  end.

(** The listing of the ledger reports completion within [fuel] pages
    (or there is no ledger to list). *)
Definition listing_completes (fuel : nat) (env : Env) (h : History) : Prop :=
  match PROCESSED_POSTS env with
  | Some kv => KvStorage.count_pages fuel kv 0 None h <> None
  | None => True
  end.

(** Among [events], an accepted write of the artifact, and a ledger
    write for the guid. *)
Definition published_in (githubConfig : GithubPublisher.GitHubConfig)
    (postSummary : BlogPostSummary.t) (base64Content : jsstring)
    (events : list Event) : Prop :=
  exists marker answer,
    In (EvFetch
          (GithubPublisher.put_request githubConfig
             (GithubPublisher.filePath_of postSummary)
             (GithubPublisher.put_body postSummary base64Content marker))
          answer) events
    /\ write_accepted answer = true.

Definition marked_in (guid : jsstring) (events : list Event) : Prop :=
  exists value,
    In (EvKvPut (KvStorage.getPostKey guid) value None (Ok tt)) events.

(** The events that a computation added to the history [h]. *)
Definition added (h : History) (after : History) : list Event :=
  skipn (length h) after.

(** The run of [post] from [h] publishes an artifact of that post with
    some substituted summary text. *)
Definition publishes_substitute (W : World) (env : Env) (ai : Ai)
    (githubConfig : GithubPublisher.GitHubConfig) (post : BlogPost.t)
    (h : History) : Prop :=
  exists text base64Content,
    published_in githubConfig
      (GithubPublisher.createBlogPostSummary post text) base64Content
      (added h (snd (Worker.process_post W env ai githubConfig post h))).

End Observe.

Import Observe.

(* ================================================================== *)
(** * Sample worlds, used to exercise the statements below *)

Module Scenario.

Definition outage : JsError := mkError (js "service unavailable").

(** A key-value namespace in which every operation throws. *)
Definition failing_kv : KVNamespace :=
  {| kv_get := fun _ _ => Throw outage;
     kv_put := fun _ _ _ _ => Throw outage;
     kv_list := fun _ _ => Throw outage |}.

(** An empty namespace that accepts every write. *)
Definition empty_kv : KVNamespace :=
  {| kv_get := fun _ _ => Ok None;
     kv_put := fun _ _ _ _ => Ok tt;
     kv_list := fun _ _ =>
       Ok {| keys := []; list_complete := true; cursor := None |} |}.

Definition metadata : Metadata :=
  {| meta_title := js "Test Post";
     meta_slug := js "test-post";
     meta_url := js "https://blog.cloudflare.com/test-post" |}.

Definition feed_head : jsstring :=
  js "<rss><channel><title>Blog</title>
".

(** Three items; the title of the second one is not in a CDATA section. *)
Definition first_item : jsstring * jsstring :=
  (js "<title><![CDATA[First post]]></title><link>https://blog.cloudflare.com/first/</link><guid>g1</guid>",
   js "
").

Definition second_item : jsstring * jsstring :=
  (js "<title>Second post, title not in CDATA</title><link>https://blog.cloudflare.com/second/</link><guid>g2</guid>",
   js "
").

Definition third_item : jsstring * jsstring :=
  (js "<title><![CDATA[Third post]]></title><link>https://blog.cloudflare.com/third</link><guid>g3</guid>",
   js "
</channel></rss>").

Definition feed : jsstring :=
  feed_of feed_head [first_item; second_item; third_item].

Definition response (code : N) (text : jsstring) (json : JsonDoc) : Response :=
  {| status := code; statusText := js "status"; resp_text := Ok text;
     resp_json := Ok json |}.

(** A world whose every GET answers the feed document. *)
Definition feed_world : World :=
  {| world_fetch := fun _ _ => Ok (response 200 feed (DocValue None));
     world_now := fun _ => js "2026-01-01T00:00:00.000Z" |}.

Definition config : GitHubConfig :=
  {| token := js "t0ken"; owner := js "cf-vnkr"; repo := js "autoblog" |}.

(** A feed item whose title holds a typographic apostrophe, written as
    the entity of U+2019. *)
Definition curly_item : jsstring :=
  js "<title><![CDATA[It&#8217;s here]]></title><link>https://blog.cloudflare.com/its-here/</link><guid>g1</guid><pubDate>Mon, 01 Jan 2026 00:00:00 GMT</pubDate><dc:creator><![CDATA[Ann]]></dc:creator>".

(** The artifact of that item, with a summary in plain ASCII. *)
Definition curly_artifact : BlogPostSummary.t :=
  {| BlogPostSummary.slug := js "its-here";
     BlogPostSummary.title := js "It" ++ [8217%N] ++ js "s here";
     BlogPostSummary.url := js "https://blog.cloudflare.com/its-here/";
     BlogPostSummary.publishedAt := js "Mon, 01 Jan 2026 00:00:00 GMT";
     BlogPostSummary.summary := js "A summary.";
     BlogPostSummary.authors := [js "Ann"];
     BlogPostSummary.categories := [];
     BlogPostSummary.guid := js "g1" |}.

Definition plain_artifact : BlogPostSummary.t :=
  {| BlogPostSummary.slug := js "my-post";
     BlogPostSummary.title := js "My post";
     BlogPostSummary.url := js "https://blog.cloudflare.com/my-post/";
     BlogPostSummary.publishedAt := js "Mon, 01 Jan 2026 00:00:00 GMT";
     BlogPostSummary.summary := js "A summary.";
     BlogPostSummary.authors := [js "Ann"];
     BlogPostSummary.categories := [js "Workers"];
     BlogPostSummary.guid := js "g1" |}.

(** A world in which every request is answered with status 500. *)
Definition broken_world : World :=
  {| world_fetch := fun _ _ => Ok (response 500 (js "oops") (DocValue None));
     world_now := fun _ => js "2026-01-01T00:00:00.000Z" |}.

(** The revision of a file, as far as these worlds go: a write accepted
    earlier leaves the file at a fixed revision. *)
Definition written (path : jsstring) (e : Event) : bool :=
  match e with
  | EvFetch req (Ok answer) =>
      match req_method req with
      | PUT => JsString.eqb (req_url req) path && ok answer
      | GET => false
      end
  | _ => false
  end.

(** A contents store that starts empty: a GET answers 404 until a PUT
    to the same URL has been accepted, and the revision of the file
    afterwards; every PUT is accepted. *)
Definition store_world : World :=
  {| world_fetch := fun h req =>
       match req_method req with
       | GET =>
           if existsb (written (req_url req)) h
           then Ok (response 200 [] (DocValue (Some (js "3d21ec53a331a6f037a91c368710b99387d012c1"))))
           else Ok (response 404 (js "Not Found") (DocValue None))
       | PUT => Ok (response 201 [] (DocValue None))
       end;
     world_now := fun _ => js "2026-01-01T00:00:00.000Z" |}.

Definition attempts_made (h : History) : nat :=
  length (filter (fun e => match e with EvAiRun _ _ _ => true | _ => false end) h).

Definition long_text : jsstring :=
  js "Cloudflare now builds the summaries at the edge, and this sentence is long enough to pass the check.".

(** A backend that throws first, then answers a text that is too short,
    then answers well. *)
Definition flaky_ai : Ai :=
  {| ai_run := fun h _ _ =>
       match attempts_made h with
       | 0%nat => Throw outage
       | 1%nat => Ok (RespString (js "  too short  "))
       | _ => Ok (RespObject (VString long_text))
       end |}.

Definition post (slug : jsstring) (title : jsstring) (guid : jsstring) : BlogPost.t :=
  {| BlogPost.title := title;
     BlogPost.link := js "https://blog.cloudflare.com/" ++ slug ++ js "/";
     BlogPost.guid := guid;
     BlogPost.pubDate := js "Mon, 01 Jan 2026 00:00:00 GMT";
     BlogPost.description := js "About " ++ title;
     BlogPost.content := js "<p>All about <b>" ++ title ++ js "</b>.</p>";
     BlogPost.categories := [js "Workers"];
     BlogPost.authors := [js "Ann"; js "Bob"] |}.

(** The item block from which the parser reads [post slug title guid]. *)
Definition item (slug : jsstring) (title : jsstring) (guid : jsstring) : jsstring :=
  js "<item><title><![CDATA[" ++ title ++ js "]]></title><link>https://blog.cloudflare.com/"
  ++ slug ++ js "/</link><guid isPermaLink=" ++ [34%N] ++ js "false" ++ [34%N] ++ js ">"
  ++ guid ++ js "</guid><pubDate>Mon, 01 Jan 2026 00:00:00 GMT</pubDate><description><![CDATA[About "
  ++ title ++ js "]]></description><content:encoded><![CDATA[<p>All about <b>" ++ title
  ++ js "</b>.</p>]]></content:encoded><category><![CDATA[Workers]]></category><dc:creator><![CDATA[Ann]]></dc:creator><dc:creator><![CDATA[Bob]]></dc:creator></item>
".

Definition post1 : BlogPost.t := post (js "first") (js "First post") (js "g1").
Definition post2 : BlogPost.t := post (js "second") (js "Second post") (js "g2").
Definition post3 : BlogPost.t := post (js "third") (js "Third post") (js "g3").

(** A backend that answers well, except on the prompt of [post2], where
    it never answers in a usable shape. *)
Definition picky_ai : Ai :=
  {| ai_run := fun _ _ inputs =>
       if existsb (fun m => JsString.eqb (content m) (getUserPrompt post2))
                  (messages inputs)
       then Ok RespOther
       else Ok (RespObject (VString long_text)) |}.

Definition worker_env (ai : Ai) (kv : option KVNamespace) : Env :=
  {| PROCESSED_POSTS := kv;
     AI := Some ai;
     RSS_FEED_URL := js "https://blog.cloudflare.com/rss/";
     POSTS_TO_FETCH := js "10";
     GITHUB_TOKEN := Some (token config);
     GITHUB_OWNER := Some (owner config);
     GITHUB_REPO := Some (repo config) |}.

Definition feed_url : jsstring := js "https://blog.cloudflare.com/rss/".

Definition three_items : jsstring :=
  js "<rss><channel><title><![CDATA[The Blog]]></title><link>https://blog.cloudflare.com</link>
"
  ++ item (js "first") (js "First post") (js "g1")
  ++ item (js "second") (js "Second post") (js "g2")
  ++ item (js "third") (js "Third post") (js "g3")
  ++ js "</channel></rss>".

(** The feed at [feed_url], and the contents store everywhere else. *)
Definition pipeline_world : World :=
  {| world_fetch := fun h req =>
       match req_method req with
       | GET =>
           if JsString.eqb (req_url req) feed_url
           then Ok (response 200 three_items DocNull)
           else world_fetch store_world h req
       | PUT => world_fetch store_world h req
       end;
     world_now := fun _ => js "2026-01-01T00:00:00.000Z" |}.

(** A short name for an event. *)
Definition brief (e : Event) : jsstring :=
  match e with
  | EvFetch req _ =>
      match req_method req with GET => js "GET " | PUT => js "PUT " end ++ req_url req
  | EvAiRun _ _ _ => js "AI"
  | EvKvGet key _ => js "KV get " ++ key
  | EvKvPut key _ _ _ => js "KV put " ++ key
  | EvKvList _ _ => js "KV list"
  | EvSleep ms => js "sleep " ++ decimal ms
  | EvNow _ => js "now"
  end.

End Scenario.

(* ================================================================== *)
(** * Vocabulary of the further statements *)

Module Shape.

Import RssParser.

(** The units of a slug: [a]-[z], [0]-[9] and the hyphen. *)
Definition slug_unit_or_hyphen (c : N) : bool := is_slug_unit c || N.eqb c 45.

(** Every unit is a slug unit or a hyphen, and every hyphen is followed
    by a slug unit or by the end of the text. *)
Fixpoint separated (s : jsstring) : bool :=
  match s with
  | [] => true
  | c :: s' =>
      (if N.eqb c 45
       then match s' with [] => true | d :: _ => is_slug_unit d end
       else is_slug_unit c)
      && separated s'
  end.

(** A text made of slug units and single hyphens, with no hyphen at
    either end. *)
Definition slug_shaped (s : jsstring) : Prop :=
  forallb slug_unit_or_hyphen s = true
  /\ ~ occurs (js "--") s
  /\ (forall rest, s <> 45%N :: rest)
  /\ (forall init, s <> init ++ [45%N]).

(** Both ends of [s] stripped of the units that satisfy [p]: the shape
    of [trim] and of [strip_hyphens]. *)
Definition trim_by (p : N -> bool) (s : jsstring) : jsstring :=
  rev (drop_while p (rev (drop_while p s))).

Definition blog_host : jsstring := js "blog.cloudflare.com/".

(** ** Entities *)

(** Every name of the table begins with an ampersand. *)
Definition ampersand_names (table : list (jsstring * jsstring)) : bool :=
  forallb (fun e => match fst e with 38%N :: _ => true | _ => false end) table.

(** Two texts differ at a position that both have. *)
Fixpoint diverge (p x : jsstring) : bool :=
  match p, x with
  | a :: p', b :: x' => negb (N.eqb a b) || diverge p' x'
  | _, _ => false
  end.

(** The entry [e] of the table is decoded by its own pass alone: its
    name is an ampersand followed by units that are neither an ampersand
    nor, at first, a [#]; its character is no ampersand; and the name of
    every other entry differs from it at a position that both have. *)
Definition decodes_alone (table : list (jsstring * jsstring))
    (e : jsstring * jsstring) : bool :=
  match fst e with
  | 38%N :: p =>
      negb (existsb (N.eqb 38) p)
      && negb (existsb (N.eqb 38) (snd e))
      && match p with c :: _ => negb (N.eqb c 35) | [] => false end
      && forallb (fun e' =>
                    match fst e' with
                    | 38%N :: q =>
                        if eqb q p then eqb (snd e') (snd e) else diverge q p
                    | _ => false
                    end) table
  | _ => false
  end.

(** ** Artifacts *)

(** A code unit that does not fit in one byte. *)
Definition wide (c : N) : bool := (255 <? c)%N.

Definition narrow (s : jsstring) : bool := forallb (fun c => (c <=? 255)%N) s.

Definition is_surrogate (c : N) : bool :=
  Json.is_high_surrogate c || Json.is_low_surrogate c.

Definition narrow_value (v : Json.value) : bool :=
  match v with
  | Json.Str s => narrow s
  | Json.Bool _ => true
  | Json.Strings l => forallb narrow l
  end.

(** The texts of an artifact: its six string fields, its authors and
    its categories. *)
Definition texts_of (postSummary : BlogPostSummary.t) : list jsstring :=
  [ BlogPostSummary.slug postSummary;
    BlogPostSummary.title postSummary;
    BlogPostSummary.url postSummary;
    BlogPostSummary.publishedAt postSummary;
    BlogPostSummary.summary postSummary;
    BlogPostSummary.guid postSummary ]
  ++ BlogPostSummary.authors postSummary
  ++ BlogPostSummary.categories postSummary.

(** ** Events *)

Definition is_list (e : Event) : bool :=
  match e with EvKvList _ _ => true | _ => false end.

(** The number of keys on the page that a listing event answered. *)
Definition listed (e : Event) : N :=
  match e with
  | EvKvList _ (Ok result) => N.of_nat (length (keys result))
  | _ => 0%N
  end.

Definition list_failed (e : Event) : bool :=
  match e with EvKvList _ (Throw _) => true | _ => false end.

Definition total (counts : list N) : N := fold_right N.add 0%N counts.

(** An access to the ledger, of any kind. *)
Definition touches_ledger (e : Event) : bool :=
  match e with
  | EvKvGet _ _ | EvKvPut _ _ _ _ | EvKvList _ _ => true
  | _ => false
  end.

(** A write to the repository that was accepted. *)
Definition accepted_put (e : Event) : bool :=
  match e with
  | EvFetch req res => is_put e && write_accepted res
  | _ => false
  end.

Definition is_pause (ms : N) (e : Event) : bool :=
  match e with EvSleep d => N.eqb d ms | _ => false end.

Definition is_ai_run (e : Event) : bool :=
  match e with EvAiRun _ _ _ => true | _ => false end.

(** The feed cannot be read: the request threw, its answer has a status
    outside 200-299, or the body of the answer cannot be read. *)
Definition feed_unreadable (res : Exc Response) : Prop :=
  match res with
  | Ok response => ok response = false \/ is_ok (resp_text response) = false
  | Throw _ => True
  end.

(** ** Feeds *)

(** A feed of three items, the second with a title of three spaces. *)
Definition blank_feed : jsstring :=
  js "<rss><channel>"
  ++ Scenario.item (js "first") (js "First post") (js "g1")
  ++ Scenario.item (js "blank") (js "   ") (js "g2")
  ++ Scenario.item (js "third") (js "Third post") (js "g3")
  ++ js "</channel></rss>".

(** ** Worlds *)

(** A 2xx answer whose body is not JSON. *)
Definition garbled_answer : Response :=
  {| status := 200;
     statusText := js "OK";
     resp_text := Ok (js "<html>");
     resp_json := Throw (mkError (js "SyntaxError")) |}.

(** A world that answers every request with it. *)
Definition garbled_world : World :=
  {| world_fetch := fun _ _ => Ok garbled_answer;
     world_now := fun _ => js "2026-01-01T00:00:00.000Z" |}.

(** ** Stores *)

(** The store honours the limit of a listing request. *)
Definition honours_limit (kv : KVNamespace) : Prop :=
  forall h opts result,
    kv_list kv h opts = Ok result ->
    (N.of_nat (length (keys result)) <= list_limit opts)%N.

(** A page that was asked for at least one key and does not complete
    the listing carries at least one key. *)
Definition makes_progress (kv : KVNamespace) : Prop :=
  forall h opts result,
    kv_list kv h opts = Ok result ->
    list_limit opts <> 0%N ->
    list_complete result = false -> keys result <> [].

(** A ledger whose reads do not depend on the history. *)
Definition stable_reads (kv : KVNamespace)
    (store : jsstring -> Exc (option jsstring)) : Prop :=
  forall h key, kv_get kv h key = store key.

Definition recorded (store : jsstring -> Exc (option jsstring))
    (post : BlogPost.t) : bool :=
  match store (KvStorage.getPostKey (BlogPost.guid post)) with
  | Ok (Some _) => true
  | _ => false
  end.

(** The value that the accepted writes of a history left at a key: the
    last one wins. *)
Fixpoint stored_from (value : option jsstring) (h : History) (key : jsstring)
  : option jsstring :=
  match h with
  | [] => value
  | e :: h' =>
      stored_from
        (match e with
         | EvKvPut k v _ (Ok _) => if eqb k key then Some v else value
         | _ => value
         end) h' key
  end.

Definition stored (h : History) (key : jsstring) : option jsstring :=
  stored_from None h key.

(** A ledger that reads back what was written to it. *)
Definition remembers (kv : KVNamespace) : Prop :=
  forall h key, kv_get kv h key = Ok (stored h key).

(** A ledger kept in the history, which accepts every write. *)
Definition memory_kv : KVNamespace :=
  {| kv_get := fun h key => Ok (stored h key);
     kv_put := fun _ _ _ _ => Ok tt;
     kv_list := fun _ _ =>
       Ok {| keys := []; list_complete := true; cursor := None |} |}.

(** A store that lists the records of two guids on one page. *)
Definition single_page_kv : KVNamespace :=
  {| kv_get := fun _ _ => Ok None;
     kv_put := fun _ _ _ _ => Ok tt;
     kv_list := fun _ _ =>
       Ok {| keys := map KvStorage.getPostKey [js "g1"; js "post:g2"];
             list_complete := true;
             cursor := None |} |}.

(** A store of three records that lists them two to a page, fewer when
    the request asks for fewer. *)
Definition paged_kv : KVNamespace :=
  {| kv_get := fun _ key =>
       Ok (if existsb (eqb key) [js "post:a"; js "post:b"; js "post:c"]
           then Some (js "{}") else None);
     kv_put := fun _ _ _ _ => Ok tt;
     kv_list := fun _ opts =>
       let page :=
         match list_cursor opts with
         | None => [js "post:a"; js "post:b"]
         | Some _ => [js "post:c"]
         end in
       Ok {| keys := firstn (N.to_nat (list_limit opts)) page;
             list_complete :=
               match list_cursor opts with None => false | Some _ => true end;
             cursor :=
               match list_cursor opts with
               | None => Some (js "page-2")
               | Some _ => None
               end |} |}.

(** An environment whose GitHub owner is empty and whose repository is
    not set. *)
Definition unconfigured_env : Env :=
  {| PROCESSED_POSTS := None;
     AI := Some Scenario.picky_ai;
     RSS_FEED_URL := Scenario.feed_url;
     POSTS_TO_FETCH := js "10";
     GITHUB_TOKEN := Some (js "t0ken");
     GITHUB_OWNER := Some [];
     GITHUB_REPO := None |}.

End Shape.

Import Shape.

(* ================================================================== *)
(** * Properties: slugs *)

Section Slugs.

Example generateSlug_human_native :
  generateSlug (js "Human Native is joining Cloudflare")
  = js "human-native-is-joining-cloudflare".
Proof. vm_compute. reflexivity. Qed.

Example generateSlug_special_characters :
  generateSlug (js "What came first: the CNAME or the A record?")
  = js "what-came-first-the-cname-or-the-a-record".
Proof. vm_compute. reflexivity. Qed.

Example generateSlug_runs_and_edges :
  generateSlug (js "A   closer  look -- at BGP") = js "a-closer-look-at-bgp"
  /\ generateSlug (js "---Test Title---") = js "test-title".
Proof. vm_compute. split; reflexivity. Qed.

(** The cases of [rss-parser.test.ts] for [extractSlugFromUrl]. *)
Example extractSlug_repository_tests :
  extractSlugFromUrl (js "https://blog.cloudflare.com/human-native-joins-cloudflare/")
  = js "human-native-joins-cloudflare"
  /\ extractSlugFromUrl (js "https://blog.cloudflare.com/cname-a-record-order-dns-standards")
     = js "cname-a-record-order-dns-standards"
  /\ extractSlugFromUrl (js "https://example.com/some-post") = [].
Proof. vm_compute. repeat split; reflexivity. Qed.

(** The fallback branch of [generateSlugForPost] is the expression of
    [generateSlug] on the title. *)
Lemma generateSlugForPost_fallback (post : BlogPost.t) :
  extractSlugFromUrl (BlogPost.link post) = [] ->
  generateSlugForPost post = generateSlug (BlogPost.title post).
Proof.
  intros Hurl. unfold generateSlugForPost. rewrite Hurl. reflexivity.
Qed.

(** C7, as the specification words it, fails: the pattern names the host
    [blog.cloudflare.com], so a URL on [blog.example.com] yields the
    empty string, not [my-post]. *)
Lemma extractSlug_example_host_refuted :
  ~ (extractSlugFromUrl (js "https://blog.example.com/my-post/") = js "my-post"
     /\ extractSlugFromUrl (js "https://blog.example.com/my-post") = js "my-post"
     /\ extractSlugFromUrl (js "https://other.com/x") = []).
Proof.
  intros [H _]. vm_compute in H. discriminate H.
Qed.

End Slugs.

(* ================================================================== *)
(** * Properties: the ledger *)

(** Unfolds the plumbing of a computation. *)
Ltac run :=
  unfold fetch, sleep, now_iso, bind, try_catch, call, lift, ret, throw;
  cbn beta iota zeta.

Section Ledger.

Variable W : World.

Lemma isPostProcessed_run (kv : KVNamespace) (guid : jsstring) (h : History) :
  let res := kv_get kv h (getPostKey guid) in
  isPostProcessed kv guid h
  = (Ok (match res with Ok (Some _) => true | _ => false end),
     h ++ [EvKvGet (getPostKey guid) res]).
Proof.
  unfold isPostProcessed. run.
  destruct (kv_get kv h (getPostKey guid)) as [[v|]|e]; reflexivity.
Qed.

Lemma markPostProcessed_run (kv : KVNamespace) (guid : jsstring)
    (metadata : Metadata) (ttl : option N) (h : History) :
  let t := world_now W h in
  let text := Json.stringify false (ledger_value t metadata) in
  let res := kv_put kv (h ++ [EvNow t]) (getPostKey guid) text (put_options ttl) in
  markPostProcessed W kv guid metadata ttl h
  = (res, h ++ [EvNow t; EvKvPut (getPostKey guid) text (put_options ttl) res]).
Proof.
  unfold markPostProcessed. run.
  rewrite <- app_assoc. cbn [app].
  destruct (kv_put kv _ _ _ _) as [[]|e]; reflexivity.
Qed.

(** C3.  A read of the ledger that throws makes [isPostProcessed] answer
    [false]; a write of the ledger that throws makes [markPostProcessed]
    throw the same error to its caller. *)
Theorem ledger_failure_asymmetry
    (reads writes : KVNamespace) (guid : jsstring) (metadata : Metadata)
    (ttl : option N) (h : History) (e_read e_write : JsError) :
  let key := getPostKey guid in
  let t := world_now W h in
  let text := Json.stringify false (ledger_value t metadata) in
  kv_get reads h key = Throw e_read ->
  kv_put writes (h ++ [EvNow t]) key text (put_options ttl) = Throw e_write ->
  isPostProcessed reads guid h = (Ok false, h ++ [EvKvGet key (Throw e_read)])
  /\ markPostProcessed W writes guid metadata ttl h
     = (Throw e_write,
        h ++ [EvNow t; EvKvPut key text (put_options ttl) (Throw e_write)]).
Proof.
  intros key t text Hget Hput. split.
  - rewrite isPostProcessed_run. fold key. rewrite Hget. reflexivity.
  - rewrite markPostProcessed_run. fold t. fold text. fold key.
    rewrite Hput. reflexivity.
Qed.

End Ledger.

Lemma ledger_failure_asymmetry_witness :
  isPostProcessed Scenario.failing_kv (js "g1") []
  = (Ok false, [EvKvGet (js "post:g1") (Throw Scenario.outage)])
  /\ fst (markPostProcessed Scenario.feed_world Scenario.failing_kv (js "g1")
            Scenario.metadata None [])
     = Throw Scenario.outage.
Proof.
  destruct (ledger_failure_asymmetry Scenario.feed_world Scenario.failing_kv
              Scenario.failing_kv (js "g1") Scenario.metadata None []
              (e_read := Scenario.outage) (e_write := Scenario.outage)
              eq_refl eq_refl) as [Hread Hwrite].
  split.
  - exact Hread.
  - rewrite Hwrite. reflexivity.
Defined.

(* ================================================================== *)
(** * Properties: the feed parser *)

Section Parser.

Import RssParser.

Lemma starts_with_app (p s : jsstring) :
  starts_with p s = true -> exists rest, s = p ++ rest.
Proof.
  revert s. induction p as [|a p IH]; intros s H.
  - exists s. reflexivity.
  - destruct s as [|b s]; [discriminate H|].
    cbn in H. apply andb_true_iff in H. destruct H as [Hab Hps].
    apply N.eqb_eq in Hab. subst b.
    destruct (IH s Hps) as [rest ->]. exists rest. reflexivity.
Qed.

Lemma first_match_none (m : matcher) (s : jsstring) :
  (forall before after, s = before ++ after -> m after = None) ->
  first_match m s = None.
Proof.
  induction s as [|c s IH]; intros Hnone; cbn.
  - rewrite (Hnone [] [] eq_refl). reflexivity.
  - rewrite (Hnone [] (c :: s) eq_refl). apply IH.
    intros before after Heq. apply (Hnone (c :: before) after).
    rewrite Heq. reflexivity.
Qed.

(** A matcher that requires the text to start with [opener] finds
    nothing in a text where [opener] does not occur. *)
Lemma first_match_absent (m : matcher) (opener s : jsstring) :
  (forall t, starts_with opener t = false -> m t = None) ->
  ~ occurs opener s ->
  first_match m s = None.
Proof.
  intros Hm Habsent. apply first_match_none. intros before after Heq.
  apply Hm. destruct (starts_with opener after) eqn:Hstart; [|reflexivity].
  exfalso. apply Habsent. destruct (starts_with_app _ _ Hstart) as [rest ->].
  exists before, rest. exact Heq.
Qed.

Lemma extractText_absent (itemXml tag : jsstring) :
  ~ occurs (js "<" ++ tag) itemXml -> extractText itemXml tag = [].
Proof.
  intros Habsent. unfold extractText.
  rewrite (first_match_absent (re_text tag) (opener := js "<" ++ tag)); auto.
  intros t Ht. unfold re_text. rewrite Ht. reflexivity.
Qed.

Lemma extractCDATA_absent (itemXml tag : jsstring) :
  ~ occurs (js "<" ++ tag ++ js "><![CDATA[") itemXml ->
  extractCDATA itemXml tag = [].
Proof.
  intros Habsent. unfold extractCDATA.
  rewrite (first_match_absent (re_cdata tag)
             (opener := js "<" ++ tag ++ js "><![CDATA[")); auto.
  intros t Ht. unfold re_cdata. rewrite Ht. reflexivity.
Qed.

(** ** Item blocks of a written-out document *)

Lemma starts_with_refl (p rest : jsstring) : starts_with p (p ++ rest) = true.
Proof.
  induction p as [|a p IH]; [reflexivity|].
  cbn. rewrite N.eqb_refl. exact IH.
Qed.

Lemma occursb_false (needle s : jsstring) :
  occursb needle s = false -> ~ occurs needle s.
Proof.
  intros Hnone [before [after Heq]]. subst s.
  induction before as [|x before IH].
  - cbn [app] in Hnone. destruct (needle ++ after) eqn:E;
      cbn [occursb] in Hnone; rewrite <- E in Hnone;
      rewrite starts_with_refl in Hnone; discriminate Hnone.
  - cbn [app occursb] in Hnone. apply orb_false_iff in Hnone.
    apply IH. apply Hnone.
Qed.

Lemma starts_with_nth (p s : jsstring) (i : nat) (x : N) :
  starts_with p s = true -> nth_error p i = Some x -> nth_error s i = Some x.
Proof.
  revert s i. induction p as [|a p IH]; intros s i Hstart Hnth.
  - destruct i; discriminate Hnth.
  - destruct s as [|b s]; [discriminate Hstart|].
    cbn in Hstart. apply andb_true_iff in Hstart. destruct Hstart as [Hab Hps].
    apply N.eqb_eq in Hab. subst b.
    destruct i as [|i]; [exact Hnth|]. cbn in *. exact (IH s i Hps Hnth).
Qed.

Lemma starts_with_short (p b s : jsstring) :
  (length p <= length b)%nat -> starts_with p (b ++ s) = starts_with p b.
Proof.
  revert b. induction p as [|a p IH]; intros b Hlen; [reflexivity|].
  destruct b as [|x b]; [cbn in Hlen; lia|].
  cbn. rewrite IH by (cbn in Hlen; lia). reflexivity.
Qed.

(** A pattern whose first code unit does not come back in it cannot
    start inside [b] and run into its own next occurrence. *)
Lemma no_straddle (c : N) (rest b t : jsstring) :
  ~ In c rest -> b <> [] ->
  starts_with (c :: rest) (b ++ (c :: rest) ++ t) = true ->
  exists tail, b = (c :: rest) ++ tail.
Proof.
  intros Hfresh Hb Hstart.
  destruct (Nat.le_gt_cases (length (c :: rest)) (length b)) as [Hle | Hgt].
  - rewrite (@starts_with_short _ _ _ Hle) in Hstart.
    destruct (starts_with_app _ _ Hstart) as [tail Heq].
    exists tail. exact Heq.
  - exfalso. destruct b as [|b0 b]; [contradiction Hb; reflexivity|].
    cbn [length] in Hgt.
    destruct (nth_error rest (length b)) as [y|] eqn:Hy.
    + assert (Hsame : nth_error ((b0 :: b) ++ (c :: rest) ++ t) (S (length b)) = Some y).
      { apply (@starts_with_nth (c :: rest) _ (S (length b)) y Hstart). exact Hy. }
      change (S (length b)) with (length (b0 :: b)) in Hsame.
      rewrite nth_error_app2 in Hsame by lia.
      rewrite Nat.sub_diag in Hsame. cbn in Hsame. injection Hsame as ->.
      apply Hfresh. exact (nth_error_In _ _ Hy).
    + apply nth_error_None in Hy. lia.
Qed.

Lemma occurs_suffix (needle a b : jsstring) :
  ~ occurs needle (a ++ b) -> ~ occurs needle b.
Proof.
  intros Habsent [before [after Heq]]. apply Habsent.
  exists (a ++ before), after. rewrite Heq, <- app_assoc. reflexivity.
Qed.

Lemma starts_with_inside (c : N) (rest b t : jsstring) :
  ~ In c rest -> b <> [] -> ~ occurs (c :: rest) b ->
  starts_with (c :: rest) (b ++ (c :: rest) ++ t) = false.
Proof.
  intros Hfresh Hb Habsent.
  destruct (starts_with (c :: rest) (b ++ (c :: rest) ++ t)) eqn:Hstart;
    [|reflexivity].
  exfalso. destruct (@no_straddle c rest b t Hfresh Hb Hstart) as [tail Heq].
  apply Habsent. exists [], tail. exact Heq.
Qed.

Lemma cut_unfold (needle s : jsstring) :
  cut needle s
  = if starts_with needle s then Some ([], skipn (length needle) s)
    else match s with
         | [] => None
         | c :: s' =>
             match cut needle s' with
             | Some (before, after) => Some (c :: before, after)
             | None => None
             end
         end.
Proof. destruct s; reflexivity. Qed.

(** The first occurrence of such a pattern after a text without it. *)
Lemma cut_first (c : N) (rest body t : jsstring) :
  ~ In c rest -> ~ occurs (c :: rest) body ->
  cut (c :: rest) (body ++ (c :: rest) ++ t) = Some (body, t).
Proof.
  intros Hfresh. induction body as [|x body IH]; intros Habsent.
  - rewrite cut_unfold. change ([] ++ (c :: rest) ++ t) with ((c :: rest) ++ t).
    rewrite starts_with_refl.
    rewrite skipn_app, skipn_all, Nat.sub_diag. reflexivity.
  - rewrite cut_unfold.
    rewrite (@starts_with_inside c rest (x :: body) t Hfresh);
      [|discriminate|exact Habsent].
    change ((x :: body) ++ (c :: rest) ++ t) with (x :: (body ++ (c :: rest) ++ t)).
    cbv iota. rewrite IH; [reflexivity|].
    exact (@occurs_suffix _ [x] body Habsent).
Qed.

Lemma scan_matches_skip (m : matcher) (a s : jsstring) :
  scan_matches m (length a) (a ++ s) = scan_matches m 0 s.
Proof.
  induction a as [|x a IH]; [reflexivity|].
  cbn [length app scan_matches]. exact IH.
Qed.

(** The search for the next item skips a text in which no item opens. *)
Lemma scan_items_gap (gap t : jsstring) :
  ~ occurs (js "<item>") gap ->
  scan_matches re_item 0 (gap ++ js "<item>" ++ t)
  = scan_matches re_item 0 (js "<item>" ++ t).
Proof.
  induction gap as [|x gap IH]; intros Habsent; [reflexivity|].
  cbn [app scan_matches].
  assert (Hnone : re_item (x :: gap ++ js "<item>" ++ t) = None).
  { unfold re_item.
    change (x :: gap ++ js "<item>" ++ t) with ((x :: gap) ++ js "<item>" ++ t).
    change (js "<item>") with (60%N :: js "item>").
    rewrite starts_with_inside; [reflexivity| |discriminate|exact Habsent].
    vm_compute. intuition discriminate. }
  rewrite Hnone. apply IH. exact (@occurs_suffix _ [x] gap Habsent).
Qed.

Lemma scan_items_end (gap : jsstring) :
  ~ occurs (js "<item>") gap -> scan_matches re_item 0 gap = [].
Proof.
  induction gap as [|x gap IH]; intros Habsent; [reflexivity|].
  cbn [scan_matches].
  assert (Hnone : re_item (x :: gap) = None).
  { unfold re_item.
    destruct (starts_with (js "<item>") (x :: gap)) eqn:Hstart; [|reflexivity].
    exfalso. apply Habsent. destruct (starts_with_app _ _ Hstart) as [r Heq].
    exists [], r. exact Heq. }
  rewrite Hnone. apply IH. exact (@occurs_suffix _ [x] gap Habsent).
Qed.

(** One item element, found at the head of the text. *)
Lemma scan_items_element (body t : jsstring) :
  ~ occurs (js "</item>") body ->
  scan_matches re_item 0 (js "<item>" ++ body ++ js "</item>" ++ t)
  = body :: scan_matches re_item 0 t.
Proof.
  intros Habsent.
  assert (Hmatch : re_item (js "<item>" ++ body ++ js "</item>" ++ t)
                   = Some (length (js "<item>") + length body + length (js "</item>"),
                           body)%nat).
  { unfold re_item. rewrite starts_with_refl.
    rewrite skipn_app, skipn_all, Nat.sub_diag. cbn [app skipn].
    change (js "</item>") with (60%N :: js "/item>").
    rewrite cut_first; [reflexivity| |exact Habsent].
    vm_compute. intuition discriminate. }
  change (js "<item>" ++ body ++ js "</item>" ++ t)
    with (60%N :: (js "item>" ++ body ++ js "</item>" ++ t)) in *.
  cbn [scan_matches]. rewrite Hmatch. f_equal.
  replace (pred (length (js "<item>") + length body + length (js "</item>")))
    with (length (js "item>" ++ body ++ js "</item>"))
    by (rewrite !length_app; cbn; lia).
  replace (js "item>" ++ body ++ js "</item>" ++ t)
    with ((js "item>" ++ body ++ js "</item>") ++ t)
    by (rewrite <- !app_assoc; reflexivity).
  apply scan_matches_skip.
Qed.

Lemma item_blocks_elements (items : list (jsstring * jsstring)) :
  Forall (fun item => ~ occurs (js "</item>") (fst item)
                      /\ ~ occurs (js "<item>") (snd item)) items ->
  scan_matches re_item 0
    (flat_map (fun item => js "<item>" ++ fst item ++ js "</item>" ++ snd item) items)
  = map fst items.
Proof.
  induction items as [|[body gap] items IH]; intros Hitems; [reflexivity|].
  inversion Hitems as [|? ? [Hbody Hgap] Hrest]; subst.
  cbn [flat_map map fst snd] in *.
  rewrite <- !app_assoc.
  rewrite scan_items_element by exact Hbody. f_equal.
  destruct items as [|[body' gap'] items'].
  - cbn [flat_map]. rewrite app_nil_r. apply scan_items_end. exact Hgap.
  - rewrite <- (IH Hrest). cbn [flat_map fst snd].
    rewrite <- !app_assoc. apply scan_items_gap. exact Hgap.
Qed.

(** The blocks that the parser finds in a written-out document are the
    bodies of its items. *)
Lemma item_blocks_feed (head : jsstring) (items : list (jsstring * jsstring)) :
  delimited head items -> item_blocks (feed_of head items) = map fst items.
Proof.
  intros [Hhead Hitems]. unfold item_blocks, match_all, feed_of.
  rewrite <- (item_blocks_elements Hitems).
  destruct items as [|[body gap] items'].
  - cbn [flat_map]. rewrite app_nil_r. apply scan_items_end. exact Hhead.
  - cbn [flat_map fst snd]. rewrite <- !app_assoc.
    apply scan_items_gap. exact Hhead.
Qed.

(** [parseRSSItem] throws exactly on the blocks that lack a field. *)
Lemma parseRSSItem_complete (itemXml : jsstring) :
  complete_item itemXml = true ->
  exists post, parseRSSItem itemXml = Ok post
               /\ BlogPost.title post = cleanText (extractCDATA itemXml (js "title"))
               /\ BlogPost.link post = cleanText (extractText itemXml (js "link"))
               /\ BlogPost.guid post = cleanText (extractText itemXml (js "guid")).
Proof.
  unfold complete_item, parseRSSItem. intros H.
  apply andb_true_iff in H. destruct H as [H Hguid].
  apply andb_true_iff in H. destruct H as [Htitle Hlink].
  rewrite Htitle, Hlink, Hguid. cbn [negb orb].
  eexists. split; [reflexivity|]. cbn. auto.
Qed.

Lemma parseRSSItem_incomplete (itemXml : jsstring) :
  complete_item itemXml = false ->
  parseRSSItem itemXml = Throw (mkError (js "Missing required fields in RSS item")).
Proof.
  unfold complete_item, parseRSSItem. intros H.
  destruct (truthy (extractCDATA itemXml (js "title")));
    destruct (truthy (extractText itemXml (js "link")));
    destruct (truthy (extractText itemXml (js "guid")));
    try discriminate H; reflexivity.
Qed.

Lemma records_of_app (a b : list jsstring) :
  records_of (a ++ b) = records_of a ++ records_of b.
Proof. unfold records_of. apply flat_map_app. Qed.

Lemma records_of_complete (blocks : list jsstring) :
  forallb complete_item blocks = true ->
  Forall2 (fun itemXml post => parseRSSItem itemXml = Ok post)
          blocks (records_of blocks).
Proof.
  induction blocks as [|b blocks IH]; intros H; cbn.
  - constructor.
  - cbn in H. apply andb_true_iff in H. destruct H as [Hb Hrest].
    destruct (parseRSSItem_complete b Hb) as [post [Hpost _]].
    rewrite Hpost. cbn. constructor; auto.
Qed.

(** The loop keeps what it has and adds the records of the blocks that
    parse; no error leaves it. *)
Lemma parse_items_run (items : list jsstring) (posts : list BlogPost.t) :
  parse_items items posts = Ok (posts ++ records_of items).
Proof.
  revert posts. induction items as [|b items IH]; intros posts; cbn.
  - rewrite app_nil_r. reflexivity.
  - destruct (parseRSSItem b) as [post|e]; cbn.
    + rewrite IH, <- app_assoc. reflexivity.
    + rewrite IH. reflexivity.
Qed.

Lemma records_of_bodies (items : list (jsstring * jsstring))
    (posts : list BlogPost.t) :
  Forall2 (fun itemXml post => parseRSSItem itemXml = Ok post) (map fst items) posts ->
  Forall2 (fun item post => parseRSSItem (fst item) = Ok post) items posts.
Proof.
  revert posts. induction items as [|item items IH]; intros posts Hall;
    inversion Hall; subst; constructor; auto.
Qed.

(** One block that lacks a field, among blocks that lack none. *)
Lemma one_block_dropped (before : list jsstring) (malformed : jsstring)
    (after : list jsstring) :
  forallb complete_item (before ++ after) = true ->
  complete_item malformed = false ->
  records_of (before ++ malformed :: after) = records_of (before ++ after)
  /\ length (records_of (before ++ after))
     = (length (before ++ malformed :: after) - 1)%nat
  /\ Forall2 (fun itemXml post => parseRSSItem itemXml = Ok post)
             (before ++ after) (records_of (before ++ after)).
Proof.
  intros Hgood Hbad.
  pose proof (records_of_complete _ Hgood) as Hall.
  split; [|split; [|exact Hall]].
  - change (malformed :: after) with ([malformed] ++ after).
    rewrite !records_of_app.
    unfold records_of at 2. cbn [flat_map].
    rewrite (parseRSSItem_incomplete _ Hbad). reflexivity.
  - rewrite <- (Forall2_length Hall), !length_app. cbn [length]. lia.
Qed.

(** [parseRSSFeed] returns for every document, with the records of the
    item blocks in which the three required fields are found and not
    empty as extracted, in document order: a block in which the title,
    the link or the guid is not found is dropped, and one such block
    among the others costs exactly one record.  So does one such item
    in a document written out item by item. *)
Theorem parser_resilience (xmlText : jsstring) :
  parseRSSFeed xmlText = Ok (records_of (item_blocks xmlText))
  /\ (forall itemXml,
        ~ occurs (js "<title><![CDATA[") itemXml
        \/ ~ occurs (js "<link") itemXml
        \/ ~ occurs (js "<guid") itemXml ->
        complete_item itemXml = false)
  /\ (forall itemXml,
        complete_item itemXml = false -> records_of [itemXml] = [])
  /\ (forall before malformed after,
        item_blocks xmlText = before ++ malformed :: after ->
        forallb complete_item (before ++ after) = true ->
        complete_item malformed = false ->
        exists posts,
          parseRSSFeed xmlText = Ok posts
          /\ length posts = (length (item_blocks xmlText) - 1)%nat
          /\ Forall2 (fun itemXml post => parseRSSItem itemXml = Ok post)
                     (before ++ after) posts)
  /\ (forall head before malformed after,
        delimited head (before ++ malformed :: after) ->
        forallb complete_item (map fst (before ++ after)) = true ->
        complete_item (fst malformed) = false ->
        exists posts,
          parseRSSFeed (feed_of head (before ++ malformed :: after)) = Ok posts
          /\ length posts = (length (before ++ malformed :: after) - 1)%nat
          /\ Forall2 (fun item post => parseRSSItem (fst item) = Ok post)
                     (before ++ after) posts).
Proof.
  assert (Hrun : forall xml, parseRSSFeed xml = Ok (records_of (item_blocks xml))).
  { intros xml. unfold parseRSSFeed. rewrite parse_items_run. reflexivity. }
  split; [apply Hrun|]. split; [|split; [|split]].
  - intros itemXml Hmissing. unfold complete_item.
    destruct Hmissing as [Ht | [Hl | Hg]].
    + rewrite (@extractCDATA_absent itemXml (js "title") Ht). reflexivity.
    + rewrite (@extractText_absent itemXml (js "link") Hl).
      cbn [truthy]. rewrite andb_false_r. reflexivity.
    + rewrite (@extractText_absent itemXml (js "guid") Hg).
      cbn [truthy]. rewrite andb_false_r. reflexivity.
  - intros itemXml Hbad. unfold records_of. cbn [flat_map].
    rewrite (parseRSSItem_incomplete _ Hbad). reflexivity.
  - intros before malformed after Hblocks Hgood Hbad.
    destruct (one_block_dropped before malformed after Hgood Hbad)
      as [Hrec [Hlen Hall]].
    exists (records_of (before ++ after)).
    split; [rewrite Hrun, Hblocks, Hrec; reflexivity|].
    split; [rewrite Hblocks; exact Hlen|exact Hall].
  - intros head before malformed after Hdelimited Hgood Hbad.
    rewrite map_app in Hgood.
    destruct (one_block_dropped (map fst before) (fst malformed) (map fst after)
                Hgood Hbad) as [Hrec [Hlen Hall]].
    exists (records_of (map fst before ++ map fst after)).
    split.
    { rewrite Hrun, (item_blocks_feed Hdelimited), map_app. cbn [map].
      rewrite Hrec. reflexivity. }
    split.
    { rewrite Hlen, !length_app. cbn [length]. rewrite !length_map. reflexivity. }
    rewrite <- map_app in Hall |- *. apply records_of_bodies. exact Hall.
Qed.

End Parser.

Lemma parser_resilience_witness :
  exists posts,
    RssParser.parseRSSFeed Scenario.feed = Ok posts
    /\ length posts = 2%nat
    /\ map BlogPost.guid posts = [js "g1"; js "g3"].
Proof.
  destruct (parser_resilience Scenario.feed) as [_ [_ [_ [_ Hdocument]]]].
  destruct (Hdocument Scenario.feed_head [Scenario.first_item]
              Scenario.second_item [Scenario.third_item])
    as [posts [Hparse [Hlen Hall]]].
  - split; [apply occursb_false; reflexivity|].
    repeat constructor; apply occursb_false; reflexivity.
  - reflexivity.
  - reflexivity.
  - exists posts. split; [exact Hparse|]. split; [exact Hlen|].
    vm_compute in Hparse. injection Hparse as <-. reflexivity.
Defined.

(** The decoding cases that the specification lists. *)
Example decodeHTMLEntities_cases :
  RssParser.decodeHTMLEntities (js "&amp;") = js "&"
  /\ RssParser.decodeHTMLEntities (js "&#233;") = [233%N]
  /\ RssParser.decodeHTMLEntities (js "&#xE9;") = [233%N]
  /\ RssParser.decodeHTMLEntities (js "&eacute;") = [233%N].
Proof. vm_compute. repeat split; reflexivity. Qed.

(** [truncateText] cuts at the last space within the limit. *)
Example truncateText_word_boundary :
  truncateText (js "one two three four") 11 = js "one two...".
Proof. vm_compute. reflexivity. Qed.

(* ================================================================== *)
(** * Properties: the item cap *)

Section ItemCap.

Import RssParser.

Variable W : World.

(** A fetch that answers with a success status and a readable body. *)
Lemma fetchBlogPosts_run (options : RSSParserOptions) (h : History)
    (response : Response) (xmlText : jsstring) :
  world_fetch W h (feed_request (feedUrl options)) = Ok response ->
  ok response = true ->
  resp_text response = Ok xmlText ->
  fetchBlogPosts W options h
  = (Ok (match maxPosts options with
         | Some n => if number_truthy n
                     then slice0 (records_of (item_blocks xmlText)) n
                     else records_of (item_blocks xmlText)
         | None => records_of (item_blocks xmlText)
         end),
     h ++ [EvFetch (feed_request (feedUrl options)) (Ok response)]).
Proof.
  intros Hfetch Hok Htext. unfold fetchBlogPosts. run.
  rewrite Hfetch, Hok, Htext. cbn [negb].
  unfold parseRSSFeed. rewrite parse_items_run. reflexivity.
Qed.

Lemma parseInt10_no_digits (c : N) (rest : jsstring) :
  is_space c = false -> is_digit c = false -> c <> 45%N -> c <> 43%N ->
  parseInt10 (c :: rest) = NaN.
Proof.
  intros Hspace Hdigit Hminus Hplus. unfold parseInt10.
  cbn [drop_while]. rewrite Hspace.
  destruct c as [|p]; [cbn; reflexivity|].
  assert (Hsign : (let '(negative, s0) :=
                     match N.pos p :: rest with
                     | 45%N :: r => (true, r)
                     | 43%N :: r => (false, r)
                     | _ => (false, N.pos p :: rest)
                     end in
                   match fst (span is_digit s0) with
                   | [] => NaN
                   | d :: ds =>
                       Int (if negative
                            then (- Z.of_N (number_of 10 (d :: ds)))%Z
                            else Z.of_N (number_of 10 (d :: ds)))
                   end) = NaN).
  { destruct (N.eq_dec (N.pos p) 45) as [E|_]; [contradiction|].
    destruct (N.eq_dec (N.pos p) 43) as [E|_]; [contradiction|].
    assert (Hkeep : match N.pos p :: rest with
                    | 45%N :: r => (true, r)
                    | 43%N :: r => (false, r)
                    | _ => (false, N.pos p :: rest)
                    end = (false, N.pos p :: rest)).
    { repeat (destruct p as [p|p|]; try reflexivity; try contradiction). }
    rewrite Hkeep. cbn [span]. rewrite Hdigit. reflexivity. }
  exact Hsign.
Qed.

(** C10.  A cap of 0 or NaN is falsy, so [fetchBlogPosts] returns every
    parsed post, as it does without a cap, where [slice(0, 0)] would
    have kept none; and [parseInt] answers NaN on a text without
    digits. *)
Theorem zero_cap_keeps_every_post (feedUrl : jsstring) (cap : JsNumber)
    (h : History) (response : Response) (xmlText : jsstring) :
  world_fetch W h (feed_request feedUrl) = Ok response ->
  ok response = true ->
  resp_text response = Ok xmlText ->
  cap = Int 0 \/ cap = NaN ->
  fetchBlogPosts W {| feedUrl := feedUrl; maxPosts := Some cap |} h
  = (parseRSSFeed xmlText, h ++ [EvFetch (feed_request feedUrl) (Ok response)])
  /\ fetchBlogPosts W {| feedUrl := feedUrl; maxPosts := Some cap |} h
     = fetchBlogPosts W {| feedUrl := feedUrl; maxPosts := None |} h
  /\ slice0 (records_of (item_blocks xmlText)) cap = []
  /\ parseInt10 (js "0") = Int 0
  /\ parseInt10 [] = NaN
  /\ (forall c rest,
        is_space c = false -> is_digit c = false -> c <> 45%N -> c <> 43%N ->
        parseInt10 (c :: rest) = NaN).
Proof.
  intros Hfetch Hok Htext Hcap.
  assert (Hfalsy : number_truthy cap = false).
  { destruct Hcap as [-> | ->]; reflexivity. }
  rewrite (@fetchBlogPosts_run {| feedUrl := feedUrl; maxPosts := Some cap |}
             h response xmlText Hfetch Hok Htext).
  rewrite (@fetchBlogPosts_run {| feedUrl := feedUrl; maxPosts := None |}
             h response xmlText Hfetch Hok Htext).
  cbn [maxPosts RssParser.feedUrl]. rewrite Hfalsy.
  unfold parseRSSFeed. rewrite parse_items_run. cbn [app]. fold (item_blocks xmlText).
  split; [reflexivity|]. split; [reflexivity|].
  split; [destruct Hcap as [-> | ->]; reflexivity|].
  split; [vm_compute; reflexivity|]. split; [vm_compute; reflexivity|].
  exact parseInt10_no_digits.
Qed.

End ItemCap.

Lemma zero_cap_keeps_every_post_witness :
  fst (RssParser.fetchBlogPosts Scenario.feed_world
         {| RssParser.feedUrl := js "https://blog.cloudflare.com/rss/";
            RssParser.maxPosts := Some (RssParser.parseInt10 (js "all")) |} [])
  = RssParser.parseRSSFeed Scenario.feed.
Proof.
  destruct (@zero_cap_keeps_every_post Scenario.feed_world
              (js "https://blog.cloudflare.com/rss/")
              (RssParser.parseInt10 (js "all")) []
              (Scenario.response 200 Scenario.feed (DocValue None))
              Scenario.feed eq_refl eq_refl eq_refl (or_intror eq_refl))
    as [Hcap _].
  rewrite Hcap. reflexivity.
Defined.

(* ================================================================== *)
(** * Properties: the summarizer *)

Section Summarizer.

Lemma drop_while_length (p : N -> bool) (s : jsstring) :
  (length (drop_while p s) <= length s)%nat.
Proof.
  induction s as [|c s IH]; cbn; [lia|].
  destruct (p c); cbn; lia.
Qed.

Lemma trim_length (s : jsstring) : (length (trim s) <= length s)%nat.
Proof.
  unfold trim. rewrite length_rev.
  etransitivity; [apply drop_while_length|].
  rewrite length_rev. apply drop_while_length.
Qed.

Lemma checked_summary_short (text : jsstring) :
  (length text < 50)%nat ->
  checked_summary text
  = Throw (mkError (js "Generated summary is too short or empty")).
Proof.
  intros Hshort. unfold checked_summary.
  assert (Hlt : (length (trim text) <? 50)%nat = true).
  { apply Nat.ltb_lt. pose proof (trim_length text). lia. }
  rewrite Hlt, orb_true_r. reflexivity.
Qed.

Lemma checked_summary_valid (text summary : jsstring) :
  checked_summary text = Ok summary ->
  summary = trim text /\ (50 <= length summary)%nat.
Proof.
  unfold checked_summary.
  destruct (negb (truthy (trim text)) || (length (trim text) <? 50)%nat) eqn:Hc;
    [discriminate|].
  intros [= <-]. split; [reflexivity|].
  apply orb_false_iff in Hc. destruct Hc as [_ Hlen].
  apply Nat.ltb_ge in Hlen. exact Hlen.
Qed.

Variable ai : Ai.
Variable post : BlogPost.t.

Lemma attempt_summary_run (withDisclaimer : bool) (h : History) :
  let res := ai_run ai h AI_MODEL (inputs_for post) in
  attempt_summary ai post withDisclaimer h
  = (match attempt_outcome res with
     | Ok summary => Ok (if withDisclaimer then disclaimer ++ summary else summary)
     | Throw e => Throw e
     end,
     h ++ [EvAiRun AI_MODEL (inputs_for post) res]).
Proof.
  unfold attempt_summary, attempt_outcome. run.
  destruct (ai_run ai h AI_MODEL (inputs_for post)) as [response|e]; [|reflexivity].
  destruct (response_text response) as [text|e]; [|reflexivity].
  destruct (checked_summary text) as [summary|e]; reflexivity.
Qed.

(** One turn of the loop. *)
Lemma retry_loop_step (withDisclaimer : bool) (remaining : nat) (attempt : N)
    (lastError : option JsError) (h : History) :
  let res := ai_run ai h AI_MODEL (inputs_for post) in
  let h1 := h ++ [EvAiRun AI_MODEL (inputs_for post) res] in
  retry_loop ai post withDisclaimer (S remaining) attempt lastError h
  = match attempt_outcome res with
    | Ok summary =>
        (Ok (if withDisclaimer then disclaimer ++ summary else summary), h1)
    | Throw e =>
        retry_loop ai post withDisclaimer remaining (attempt + 1) (Some e)
          (if (attempt <? MAX_RETRIES)%N
           then h1 ++ [EvSleep (RETRY_DELAY_MS * attempt)]
           else h1)
    end.
Proof.
  cbn [retry_loop]. unfold try_catch. rewrite attempt_summary_run.
  cbn zeta. destruct (attempt_outcome _) as [summary|e]; [reflexivity|].
  unfold bind. destruct (attempt <? MAX_RETRIES)%N; reflexivity.
Qed.

Lemma generateSummary_disclaimer (options : SummarizeOptions) (summary : jsstring) :
  (if match includeDisclaimer options with Some b => b | None => true end
   then disclaimer ++ summary else summary)
  = returned_text options summary.
Proof.
  unfold returned_text. destruct (includeDisclaimer options) as [[|]|]; reflexivity.
Qed.

(** The attempts of one call: their answers, the trace they leave and
    the result. *)
Lemma generateSummary_attempts (options : SummarizeOptions) (h : History) :
  exists answers : list (Exc AiResponse),
    (1 <= length answers <= 3)%nat
    /\ hd_error answers = Some (ai_run ai h AI_MODEL (inputs_for post))
    /\ snd (generateSummary ai post options h) = h ++ backoff_trace post 1 answers
    /\ Forall (fun res => is_ok (attempt_outcome res) = false) (removelast answers)
    /\ match attempt_outcome (last answers (Ok RespOther)) with
       | Ok summary =>
           fst (generateSummary ai post options h)
           = Ok (returned_text options summary)
       | Throw e =>
           length answers = 3%nat
           /\ fst (generateSummary ai post options h)
              = Throw (exhausted (Some e))
       end.
Proof.
  unfold generateSummary.
  change (N.to_nat MAX_RETRIES) with 3%nat.
  rewrite retry_loop_step. cbn zeta.
  set (r1 := ai_run ai h AI_MODEL (inputs_for post)).
  set (h1 := h ++ [EvAiRun AI_MODEL (inputs_for post) r1]).
  destruct (attempt_outcome r1) as [s1|e1] eqn:H1.
  { exists [r1]. cbn [length removelast last backoff_trace fst snd].
    rewrite H1, generateSummary_disclaimer.
    split; [lia|]. split; [reflexivity|]. split; [reflexivity|].
    split; [constructor|reflexivity]. }
  change (1 <? MAX_RETRIES)%N with true. cbn iota.
  rewrite retry_loop_step. cbn zeta.
  set (h1s := h1 ++ [EvSleep (RETRY_DELAY_MS * 1)]).
  set (r2 := ai_run ai h1s AI_MODEL (inputs_for post)).
  set (h2 := h1s ++ [EvAiRun AI_MODEL (inputs_for post) r2]).
  destruct (attempt_outcome r2) as [s2|e2] eqn:H2.
  { exists [r1; r2]. cbn [length removelast last backoff_trace fst snd].
    rewrite H2, generateSummary_disclaimer.
    split; [lia|]. split; [reflexivity|]. split.
    { unfold h2, h1s, h1. rewrite <- !app_assoc. reflexivity. }
    split; [|reflexivity].
    constructor; [rewrite H1; reflexivity|constructor]. }
  change (1 + 1 <? MAX_RETRIES)%N with true. cbn iota.
  rewrite retry_loop_step. cbn zeta.
  set (h2s := h2 ++ [EvSleep (RETRY_DELAY_MS * (1 + 1))]).
  set (r3 := ai_run ai h2s AI_MODEL (inputs_for post)).
  set (h3 := h2s ++ [EvAiRun AI_MODEL (inputs_for post) r3]).
  exists [r1; r2; r3]. cbn [length removelast last backoff_trace].
  assert (Htrace : h3 = h ++ [EvAiRun AI_MODEL (inputs_for post) r1;
                              EvSleep (1 * 1000);
                              EvAiRun AI_MODEL (inputs_for post) r2;
                              EvSleep ((1 + 1) * 1000);
                              EvAiRun AI_MODEL (inputs_for post) r3]).
  { unfold h3, h2s, h2, h1s, h1. rewrite <- !app_assoc. reflexivity. }
  assert (Hfail : Forall (fun res => is_ok (attempt_outcome res) = false) [r1; r2]).
  { constructor; [rewrite H1; reflexivity|].
    constructor; [rewrite H2; reflexivity|constructor]. }
  destruct (attempt_outcome r3) as [s3|e3] eqn:H3.
  - cbn [fst snd]. rewrite generateSummary_disclaimer.
    split; [lia|]. split; [reflexivity|].
    split; [exact Htrace|]. split; [exact Hfail|reflexivity].
  - change (1 + 1 + 1 <? MAX_RETRIES)%N with false. cbn iota.
    cbn [retry_loop]. unfold throw. cbn [fst snd].
    split; [lia|]. split; [reflexivity|].
    split; [exact Htrace|]. split; [exact Hfail|].
    split; reflexivity.
Qed.

(** A first attempt that passes the checks ends the call. *)
Lemma generateSummary_first_try (options : SummarizeOptions) (h : History)
    (summary : jsstring) :
  attempt_outcome (ai_run ai h AI_MODEL (inputs_for post)) = Ok summary ->
  generateSummary ai post options h
  = (Ok (returned_text options summary),
     h ++ [EvAiRun AI_MODEL (inputs_for post)
             (ai_run ai h AI_MODEL (inputs_for post))]).
Proof.
  intros Hok. unfold generateSummary.
  change (N.to_nat MAX_RETRIES) with 3%nat.
  rewrite retry_loop_step. cbn zeta. rewrite Hok, generateSummary_disclaimer.
  reflexivity.
Qed.

(** A backend that never gives a usable answer for this post exhausts
    the three attempts. *)
Lemma generateSummary_exhausted (options : SummarizeOptions) (h : History) :
  (forall h', is_ok (attempt_outcome (ai_run ai h' AI_MODEL (inputs_for post))) = false) ->
  exists e answers,
    generateSummary ai post options h
    = (Throw e, h ++ backoff_trace post 1 answers)
    /\ length answers = 3%nat.
Proof.
  intros Hnever. unfold generateSummary.
  change (N.to_nat MAX_RETRIES) with 3%nat.
  rewrite retry_loop_step. cbn zeta.
  pose proof (Hnever h) as H1.
  destruct (attempt_outcome (ai_run ai h AI_MODEL (inputs_for post))) as [s1|e1];
    [discriminate H1|].
  change (1 <? MAX_RETRIES)%N with true. cbn iota.
  rewrite retry_loop_step. cbn zeta.
  match goal with
  | |- context [attempt_outcome (ai_run ai ?h2 AI_MODEL (inputs_for post))] =>
      pose proof (Hnever h2) as H2;
      destruct (attempt_outcome (ai_run ai h2 AI_MODEL (inputs_for post)))
        as [s2|e2]; [discriminate H2|]
  end.
  change (1 + 1 <? MAX_RETRIES)%N with true. cbn iota.
  rewrite retry_loop_step. cbn zeta.
  match goal with
  | |- context [attempt_outcome (ai_run ai ?h3 AI_MODEL (inputs_for post))] =>
      pose proof (Hnever h3) as H3;
      destruct (attempt_outcome (ai_run ai h3 AI_MODEL (inputs_for post)))
        as [s3|e3]; [discriminate H3|]
  end.
  change (1 + 1 + 1 <? MAX_RETRIES)%N with false. cbn iota.
  cbn [retry_loop]. unfold throw.
  exists (exhausted (Some e3)).
  eexists [_; _; _]. split; [|reflexivity].
  cbn [backoff_trace]. rewrite <- !app_assoc. reflexivity.
Qed.

Lemma checked_summary_trimmed_short (text : jsstring) :
  (length (trim text) < 50)%nat ->
  checked_summary text
  = Throw (mkError (js "Generated summary is too short or empty")).
Proof.
  intros Hshort. unfold checked_summary.
  destruct (Nat.ltb_spec (length (trim text)) 50) as [_ | Hlong]; [|lia].
  rewrite orb_true_r. reflexivity.
Qed.

Lemma checked_summary_accepts (text : jsstring) :
  (50 <= length (trim text))%nat -> checked_summary text = Ok (trim text).
Proof.
  intros Hlong. unfold checked_summary.
  destruct (Nat.ltb_spec (length (trim text)) 50) as [Hshort | _]; [lia|].
  destruct (trim text) as [|c rest]; [cbn [length] in Hlong; lia|].
  reflexivity.
Qed.

(** C4.  An answer that is thrown, of an unexpected shape, or whose text
    is empty or shorter than 50 characters once trimmed fails its
    attempt; an answer whose trimmed text has 50 characters or more is
    accepted, and that trimmed text is the summary.  [generateSummary]
    makes between one and three attempts, pauses [n * 1000] ms after the
    failed attempt [n], returns the first accepted summary (behind the
    disclaimer unless the option is false) and throws after three
    failures. *)
Theorem summarizer_retry_contract (options : SummarizeOptions) (h : History) :
  (forall e, attempt_outcome (Throw e) = Throw e)
  /\ attempt_outcome (Ok RespOther)
     = Throw (mkError (js "Unexpected response format from AI"))
  /\ (forall response text,
        response_text response = Ok text -> (length text < 50)%nat ->
        attempt_outcome (Ok response)
        = Throw (mkError (js "Generated summary is too short or empty")))
  /\ (includeDisclaimer options = Some true ->
      forall summary, returned_text options summary = disclaimer ++ summary)
  /\ (exists answers : list (Exc AiResponse),
       (1 <= length answers <= 3)%nat
       /\ hd_error answers = Some (ai_run ai h AI_MODEL (inputs_for post))
       /\ snd (generateSummary ai post options h) = h ++ backoff_trace post 1 answers
       /\ Forall (fun res => is_ok (attempt_outcome res) = false) (removelast answers)
       /\ match attempt_outcome (last answers (Ok RespOther)) with
          | Ok summary =>
              fst (generateSummary ai post options h)
              = Ok (returned_text options summary)
          | Throw e =>
              length answers = 3%nat
              /\ fst (generateSummary ai post options h)
                 = Throw (exhausted (Some e))
          end)
  /\ (forall res summary,
        attempt_outcome res = Ok summary
        <-> exists text,
              (res = Ok (RespString text)
               \/ exists v, res = Ok (RespObject v) /\ text = String_ v)
              /\ summary = trim text
              /\ (50 <= length (trim text))%nat)
  /\ (forall response text,
        response_text response = Ok text -> (length (trim text) < 50)%nat ->
        attempt_outcome (Ok response)
        = Throw (mkError (js "Generated summary is too short or empty")))
  /\ (includeDisclaimer options = None ->
      forall summary, returned_text options summary = disclaimer ++ summary)
  /\ (includeDisclaimer options = Some false ->
      forall summary, returned_text options summary = summary)
  /\ (forall text,
        (ai_run ai h AI_MODEL (inputs_for post) = Ok (RespString text)
         \/ exists v, ai_run ai h AI_MODEL (inputs_for post) = Ok (RespObject v)
                      /\ text = String_ v) ->
        (50 <= length (trim text))%nat ->
        generateSummary ai post options h
        = (Ok (match includeDisclaimer options with
               | Some false => trim text
               | _ => disclaimer ++ trim text
               end),
           h ++ [EvAiRun AI_MODEL (inputs_for post)
                   (ai_run ai h AI_MODEL (inputs_for post))])).
Proof.
  split; [reflexivity|]. split; [reflexivity|]. split.
  { intros response text Htext Hshort. unfold attempt_outcome.
    rewrite Htext. apply checked_summary_short. exact Hshort. }
  split.
  { intros Hset summary. unfold returned_text. rewrite Hset. reflexivity. }
  split; [apply generateSummary_attempts|].
  assert (Haccept : forall res text,
            (res = Ok (RespString text)
             \/ exists v, res = Ok (RespObject v) /\ text = String_ v) ->
            (50 <= length (trim text))%nat ->
            attempt_outcome res = Ok (trim text)).
  { intros res text [-> | [v [-> ->]]] Hlong; cbn [attempt_outcome response_text];
      exact (checked_summary_accepts _ Hlong). }
  split.
  { intros res summary. split.
    - intros Hout. destruct res as [response | e]; [|discriminate Hout].
      cbn [attempt_outcome] in Hout.
      destruct response as [v | text |]; cbn [response_text] in Hout;
        [| |discriminate Hout];
        destruct (checked_summary_valid _ Hout) as [Htrim Hlong];
        rewrite Htrim in Hlong.
      + exists (String_ v). split; [right; exists v; split; reflexivity|].
        split; [exact Htrim|exact Hlong].
      + exists text. split; [left; reflexivity|].
        split; [exact Htrim|exact Hlong].
    - intros [text [Hshape [-> Hlong]]]. exact (Haccept res text Hshape Hlong). }
  split.
  { intros response text Htext Hshort. unfold attempt_outcome.
    rewrite Htext. apply checked_summary_trimmed_short. exact Hshort. }
  split.
  { intros Hunset summary. unfold returned_text. rewrite Hunset. reflexivity. }
  split.
  { intros Hoff summary. unfold returned_text. rewrite Hoff. reflexivity. }
  intros text Hshape Hlong.
  rewrite (generateSummary_first_try options h (Haccept _ text Hshape Hlong)).
  reflexivity.
Qed.

End Summarizer.

Lemma summarizer_retry_contract_witness :
  attempt_outcome (Ok (RespString (js "too short")))
  = Throw (mkError (js "Generated summary is too short or empty"))
  /\ returned_text {| maxLength := None; includeDisclaimer := Some true |}
       Scenario.long_text
     = disclaimer ++ Scenario.long_text
  /\ attempt_outcome (Ok (RespObject (VString Scenario.long_text)))
     = Ok (trim Scenario.long_text)
  /\ generateSummary Scenario.picky_ai Scenario.post1
       {| maxLength := None; includeDisclaimer := Some true |} []
     = (Ok (disclaimer ++ trim Scenario.long_text),
        [] ++ [EvAiRun AI_MODEL (inputs_for Scenario.post1)
                 (ai_run Scenario.picky_ai [] AI_MODEL
                    (inputs_for Scenario.post1))]).
Proof.
  destruct (@summarizer_retry_contract Scenario.picky_ai Scenario.post1
              {| maxLength := None; includeDisclaimer := Some true |} [])
    as [_ [_ [Hshort [Hset [_ [Hvalid [_ [_ [_ Hfirst]]]]]]]]].
  split.
  - apply (Hshort (RespString (js "too short")) (js "too short") eq_refl).
    apply Nat.ltb_lt. reflexivity.
  - split; [apply (Hset eq_refl)|]. split.
    + apply (proj2 (Hvalid (Ok (RespObject (VString Scenario.long_text)))
                      (trim Scenario.long_text))).
      exists Scenario.long_text. split.
      * right. exists (VString Scenario.long_text). split; reflexivity.
      * split; [reflexivity|]. apply Nat.leb_le. vm_compute. reflexivity.
    + apply (Hfirst Scenario.long_text).
      * right. exists (VString Scenario.long_text).
        split; [vm_compute; reflexivity|reflexivity].
      * apply Nat.leb_le. vm_compute. reflexivity.
Defined.

(** Three attempts against a backend that fails twice: the pauses are of
    1000 ms and 2000 ms, and the third answer is returned behind the
    disclaimer. *)
Example generateSummary_third_attempt :
  generateSummary Scenario.flaky_ai Scenario.post1 no_options []
  = (Ok (disclaimer ++ Scenario.long_text),
     [ EvAiRun AI_MODEL (inputs_for Scenario.post1) (Throw Scenario.outage);
       EvSleep 1000;
       EvAiRun AI_MODEL (inputs_for Scenario.post1)
         (Ok (RespString (js "  too short  ")));
       EvSleep 2000;
       EvAiRun AI_MODEL (inputs_for Scenario.post1)
         (Ok (RespObject (VString Scenario.long_text))) ]).
Proof. vm_compute. reflexivity. Qed.

(* ================================================================== *)
(** * Properties: the publisher *)

Section Publisher.

Variable W : World.
Variable config : GitHubConfig.

Lemma getFileSha_run (filePath : jsstring) (h : History) :
  let res := world_fetch W h (sha_request config filePath) in
  getFileSha W config filePath h
  = (Ok (revision_marker res), h ++ [EvFetch (sha_request config filePath) res]).
Proof.
  unfold getFileSha, revision_marker. run.
  destruct (world_fetch W h (sha_request config filePath)) as [response|e];
    [|reflexivity].
  destruct (status response =? 404)%N; [reflexivity|].
  destruct (ok response); cbn [negb]; [|reflexivity].
  destruct (resp_json response) as [[|sha]|e]; reflexivity.
Qed.

Lemma publishToGitHub_run (postSummary : BlogPostSummary.t) (h : History) :
  let filePath := filePath_of postSummary in
  let read := world_fetch W h (sha_request config filePath) in
  let h1 := h ++ [EvFetch (sha_request config filePath) read] in
  publishToGitHub W config postSummary h
  = match Json.btoa (artifact_text postSummary) with
    | Ok base64Content =>
        let req := put_request config filePath
                     (put_body postSummary base64Content (revision_marker read)) in
        let answer := world_fetch W h1 req in
        (Ok (write_accepted answer), h1 ++ [EvFetch req answer])
    | Throw _ => (Ok false, h1)
    end.
Proof.
  cbn zeta. unfold publishToGitHub. unfold try_catch at 1. unfold bind at 1.
  rewrite getFileSha_run. cbn zeta. unfold artifact_text.
  destruct (Json.btoa _) as [base64Content|e]; run; [|reflexivity].
  unfold write_accepted.
  destruct (world_fetch W _ _) as [answer|e]; [|reflexivity].
  destruct (ok answer); cbn [negb andb].
  - destruct (resp_json answer) as [[|sha]|e]; reflexivity.
  - destruct (resp_text answer); reflexivity.
Qed.

Lemma put_body_create (postSummary : BlogPostSummary.t) (base64Content : jsstring) :
  put_body postSummary base64Content None = create_body postSummary base64Content.
Proof. reflexivity. Qed.

Lemma put_body_update (postSummary : BlogPostSummary.t)
    (base64Content : jsstring) (c : N) (sha : jsstring) :
  put_body postSummary base64Content (Some (c :: sha))
  = update_body postSummary base64Content (c :: sha).
Proof. reflexivity. Qed.

(** The conditional write, for an artifact that [btoa] accepts: the
    marker is read first; then one PUT carries the base64 of the
    pretty-printed artifact, with the marker and the update message when
    a marker was found, without it and with the add message otherwise. *)
Lemma publishToGitHub_conditional_write (postSummary : BlogPostSummary.t)
    (base64Content : jsstring) (h : History) :
  Json.btoa (artifact_text postSummary) = Ok base64Content ->
  let filePath := filePath_of postSummary in
  let read := world_fetch W h (sha_request config filePath) in
  let h1 := h ++ [EvFetch (sha_request config filePath) read] in
  let body :=
    match revision_marker read with
    | Some (c :: sha) => update_body postSummary base64Content (c :: sha)
    | _ => create_body postSummary base64Content
    end in
  let req := put_request config filePath body in
  publishToGitHub W config postSummary h
  = (Ok (write_accepted (world_fetch W h1 req)),
     h ++ [EvFetch (sha_request config filePath) read;
           EvFetch req (world_fetch W h1 req)]).
Proof.
  intros Hb64. cbn zeta. rewrite publishToGitHub_run, Hb64. cbn zeta.
  rewrite <- app_assoc. cbn [app].
  destruct (revision_marker _) as [[|c sha]|]; reflexivity.
Qed.

(** An artifact that [btoa] rejects is never written: the call reads the
    marker, then returns [false]. *)
Lemma publishToGitHub_rejected_text (postSummary : BlogPostSummary.t) (h : History) :
  forallb (fun c => (c <=? 255)%N) (artifact_text postSummary) = false ->
  let filePath := filePath_of postSummary in
  publishToGitHub W config postSummary h
  = (Ok false,
     h ++ [EvFetch (sha_request config filePath)
                   (world_fetch W h (sha_request config filePath))]).
Proof.
  intros Hwide. cbn zeta. rewrite publishToGitHub_run.
  unfold Json.btoa. rewrite Hwide. reflexivity.
Qed.

(** The parser hands such artifacts to the publisher: the item
    [Scenario.curly_item] yields a title with the code unit U+2019. *)
Example curly_artifact_from_feed :
  exists post,
    RssParser.parseRSSItem Scenario.curly_item = Ok post
    /\ createBlogPostSummary post (js "A summary.") = Scenario.curly_artifact
    /\ Json.btoa (artifact_text Scenario.curly_artifact)
       = Throw (mkError (js "InvalidCharacterError")).
Proof.
  eexists. split; [vm_compute; reflexivity|].
  split; vm_compute; reflexivity.
Qed.

(** C5, at an input on which the code departs from it.  The title of
    [Scenario.curly_artifact] holds U+2019: [btoa] throws on the
    serialised artifact, so the call reads the revision marker, issues
    no write at all and returns [false], whatever the store answers. *)
Theorem publish_wide_character_writes_nothing (h : History) :
  publishToGitHub W config Scenario.curly_artifact h
  = (Ok false,
     h ++ [EvFetch (sha_request config (js "site/content/posts/its-here.json"))
                   (world_fetch W h
                      (sha_request config (js "site/content/posts/its-here.json")))])
  /\ existsb is_put (snd (publishToGitHub W config Scenario.curly_artifact h))
     = existsb is_put h.
Proof.
  assert (Hrun := @publishToGitHub_rejected_text Scenario.curly_artifact h eq_refl).
  cbn zeta in Hrun.
  change (filePath_of Scenario.curly_artifact)
    with (js "site/content/posts/its-here.json") in Hrun.
  split; [exact Hrun|].
  rewrite Hrun. cbn [snd]. rewrite existsb_app. cbn. apply orb_false_r.
Qed.

(** C9.  When the read of the marker fails - the request throws, it is
    answered with a status outside 200-299, or the body of a 2xx answer
    does not parse or is [null] - [getFileSha] returns [null]; the write
    that [publishToGitHub] then issues has no [sha] and carries the add
    message, whatever the store holds at that path. *)
Theorem failed_read_means_create (postSummary : BlogPostSummary.t) (h : History) :
  let filePath := filePath_of postSummary in
  let read := world_fetch W h (sha_request config filePath) in
  let h1 := h ++ [EvFetch (sha_request config filePath) read] in
  read_failed read ->
  getFileSha W config filePath h = (Ok None, h1)
  /\ (forall base64Content,
        Json.btoa (artifact_text postSummary) = Ok base64Content ->
        let req := put_request config filePath (create_body postSummary base64Content) in
        snd (publishToGitHub W config postSummary h)
        = h1 ++ [EvFetch req (world_fetch W h1 req)])
  /\ (forall events req res,
        snd (publishToGitHub W config postSummary h) = h ++ events ->
        In (EvFetch req res) events ->
        req_method req = PUT ->
        exists base64Content,
          Json.btoa (artifact_text postSummary) = Ok base64Content
          /\ req = put_request config filePath (create_body postSummary base64Content)).
Proof.
  cbn zeta. intros Hfailed.
  assert (Hnone : revision_marker
                    (world_fetch W h (sha_request config (filePath_of postSummary)))
                  = None).
  { unfold revision_marker, read_failed in *.
    destruct (world_fetch W h _) as [response|e]; [|reflexivity].
    destruct (status response =? 404)%N; [reflexivity|].
    destruct Hfailed as [Hstatus | [Hbody | Hnull]].
    - rewrite Hstatus. reflexivity.
    - destruct (ok response); [|reflexivity]. cbn [negb].
      destruct (resp_json response) as [data|e]; [discriminate Hbody|].
      reflexivity.
    - destruct (ok response); [|reflexivity]. cbn [negb].
      rewrite Hnull. reflexivity. }
  split; [rewrite getFileSha_run; cbn zeta; rewrite Hnone; reflexivity|].
  split.
  - intros base64Content Hb64. rewrite publishToGitHub_run, Hb64. cbn zeta.
    rewrite Hnone. reflexivity.
  - intros events req res Hevents Hin Hput.
    rewrite publishToGitHub_run in Hevents. cbn zeta in Hevents.
    rewrite Hnone in Hevents.
    destruct (Json.btoa (artifact_text postSummary)) as [base64Content|e].
    + exists base64Content. split; [reflexivity|].
      cbn [snd] in Hevents. rewrite <- app_assoc in Hevents.
      apply app_inv_head in Hevents. subst events.
      cbn [app In] in Hin. destruct Hin as [Hread | [Hwrite | []]].
      * injection Hread as <- _. discriminate Hput.
      * injection Hwrite as <- _. reflexivity.
    + cbn [snd] in Hevents. apply app_inv_head in Hevents. subst events.
      cbn [In] in Hin. destruct Hin as [Hread | []].
      injection Hread as <- _. discriminate Hput.
Qed.

End Publisher.

Lemma failed_read_means_create_witness :
  snd (publishToGitHub Scenario.broken_world Scenario.config Scenario.plain_artifact [])
  = [ EvFetch (sha_request Scenario.config (js "site/content/posts/my-post.json"))
        (Ok (Scenario.response 500 (js "oops") (DocValue None)));
      EvFetch (put_request Scenario.config (js "site/content/posts/my-post.json")
                 (create_body Scenario.plain_artifact
                    (Json.base64 (artifact_text Scenario.plain_artifact))))
        (Ok (Scenario.response 500 (js "oops") (DocValue None))) ]
  /\ getFileSha garbled_world Scenario.config
       (js "site/content/posts/my-post.json") []
     = (Ok None,
        [ EvFetch (sha_request Scenario.config (js "site/content/posts/my-post.json"))
            (Ok garbled_answer) ])
  /\ snd (publishToGitHub garbled_world Scenario.config Scenario.plain_artifact [])
     = [ EvFetch (sha_request Scenario.config (js "site/content/posts/my-post.json"))
           (Ok garbled_answer);
         EvFetch (put_request Scenario.config (js "site/content/posts/my-post.json")
                    (create_body Scenario.plain_artifact
                       (Json.base64 (artifact_text Scenario.plain_artifact))))
           (Ok garbled_answer) ].
Proof.
  destruct (@failed_read_means_create Scenario.broken_world Scenario.config
              Scenario.plain_artifact [] (or_introl eq_refl)) as [_ [Hcreate _]].
  destruct (@failed_read_means_create garbled_world Scenario.config
              Scenario.plain_artifact [] (or_intror (or_introl eq_refl)))
    as [Hnull [Hcreate' _]].
  split;
    [exact (Hcreate (Json.base64 (artifact_text Scenario.plain_artifact)) eq_refl)|].
  split; [exact Hnull|].
  exact (Hcreate' (Json.base64 (artifact_text Scenario.plain_artifact)) eq_refl).
Defined.

(** Publishing the same artifact twice into a store that starts empty:
    the first call creates the file, the second one updates it at the
    revision the store reports. *)
Example publish_twice_updates :
  let first := publishToGitHub Scenario.store_world Scenario.config
                 Scenario.plain_artifact [] in
  let second := publishToGitHub Scenario.store_world Scenario.config
                  Scenario.plain_artifact (snd first) in
  let base64Content := Json.base64 (artifact_text Scenario.plain_artifact) in
  let path := js "site/content/posts/my-post.json" in
  fst first = Ok true
  /\ fst second = Ok true
  /\ map (fun e => match e with EvFetch req _ => Some req | _ => None end) (snd second)
     = [ Some (sha_request Scenario.config path);
         Some (put_request Scenario.config path
                 (create_body Scenario.plain_artifact base64Content));
         Some (sha_request Scenario.config path);
         Some (put_request Scenario.config path
                 (update_body Scenario.plain_artifact base64Content
                    (js "3d21ec53a331a6f037a91c368710b99387d012c1"))) ].
Proof. vm_compute. repeat split; reflexivity. Qed.

(* ================================================================== *)
(** * Properties: the orchestrator *)

Section Orchestrator.

Variable W : World.
Variable env : Env.
Variable ai : Ai.
Variable githubConfig : GitHubConfig.

(** ** The traces of the three stages *)

Lemma backoff_trace_quiet (post : BlogPost.t) (answers : list (Exc AiResponse))
    (attempt : N) :
  existsb is_kv_put (backoff_trace post attempt answers) = false
  /\ existsb is_put (backoff_trace post attempt answers) = false.
Proof.
  revert attempt. induction answers as [|res more IH]; intros attempt.
  - split; reflexivity.
  - destruct more as [|res' more'].
    + split; reflexivity.
    + destruct (IH (attempt + 1)%N) as [Hkv Hput].
      change (backoff_trace post attempt (res :: res' :: more'))
        with (EvAiRun AI_MODEL (inputs_for post) res
              :: EvSleep (attempt * 1000)
              :: backoff_trace post (attempt + 1) (res' :: more')).
      cbn [existsb is_kv_put is_put orb]. split; assumption.
Qed.

Lemma generateSummary_trace (post : BlogPost.t) (options : SummarizeOptions)
    (h : History) :
  exists res more,
    snd (generateSummary ai post options h)
    = h ++ backoff_trace post 1 (res :: more).
Proof.
  destruct (generateSummary_attempts ai post options h)
    as [answers [[Hlen _] [_ [Htrace _]]]].
  destruct answers as [|res more]; [cbn in Hlen; lia|].
  exists res, more. exact Htrace.
Qed.

Lemma publishToGitHub_trace (postSummary : BlogPostSummary.t) (h : History) :
  exists published fetches,
    publishToGitHub W githubConfig postSummary h = (Ok published, h ++ fetches)
    /\ existsb is_kv_put fetches = false
    /\ (published = true ->
        exists base64Content req answer,
          Json.btoa (artifact_text postSummary) = Ok base64Content
          /\ req = put_request githubConfig (filePath_of postSummary)
                     (put_body postSummary base64Content
                        (revision_marker
                           (world_fetch W h
                              (sha_request githubConfig (filePath_of postSummary)))))
          /\ write_accepted answer = true
          /\ In (EvFetch req answer) fetches).
Proof.
  rewrite publishToGitHub_run. cbn zeta.
  destruct (Json.btoa (artifact_text postSummary)) as [base64Content|e].
  - eexists. eexists. split.
    + rewrite <- app_assoc. reflexivity.
    + split; [reflexivity|]. intros Haccepted.
      exists base64Content. eexists. eexists.
      split; [reflexivity|]. split; [reflexivity|].
      split; [exact Haccepted|]. cbn [app In]. right. left. reflexivity.
  - exists false. eexists. split; [reflexivity|].
    split; [reflexivity|]. discriminate.
Qed.

(** ** One post *)

Lemma process_post_run (post : BlogPost.t) (h : History) :
  process_post W env ai githubConfig post h
  = let gen := generateSummary ai post no_options h in
    match fst gen with
    | Throw e => (Throw e, snd gen)
    | Ok summary =>
        let pub := publishToGitHub W githubConfig
                     (createBlogPostSummary post summary) (snd gen) in
        match fst pub with
        | Ok true =>
            match PROCESSED_POSTS env with
            | Some kv =>
                markPostProcessed W kv (BlogPost.guid post)
                  (metadata_of post summary) None (snd pub)
            | None => (Ok tt, snd pub)
            end
        | Ok false => (Throw (mkError (js "Failed to publish to GitHub")), snd pub)
        | Throw e => (Throw e, snd pub)
        end
    end.
Proof.
  unfold process_post, bind. cbn zeta.
  destruct (generateSummary ai post no_options h) as [[summary|e] h1];
    cbn [fst snd]; [|reflexivity].
  destruct (publishToGitHub W githubConfig (createBlogPostSummary post summary) h1)
    as [[[|]|e] h2]; cbn [fst snd negb]; try reflexivity.
  destruct (PROCESSED_POSTS env); reflexivity.
Qed.

(** The events of one post: a prefix without ledger write, then either
    nothing more, or the time stamp and the ledger write that follow a
    publication that returned [true]. *)
Lemma process_post_ledger (post : BlogPost.t) (h : History) :
  exists quiet,
    existsb is_kv_put quiet = false
    /\ (snd (process_post W env ai githubConfig post h) = h ++ quiet
        \/ exists summary h1 kv t value res,
             generateSummary ai post no_options h = (Ok summary, h1)
             /\ publishToGitHub W githubConfig
                  (createBlogPostSummary post summary) h1
                = (Ok true, h ++ quiet)
             /\ PROCESSED_POSTS env = Some kv
             /\ process_post W env ai githubConfig post h
                = (res, h ++ quiet
                          ++ [EvNow t;
                              EvKvPut (getPostKey (BlogPost.guid post)) value None res])).
Proof.
  rewrite process_post_run. cbn zeta.
  destruct (generateSummary_trace post no_options h) as [r [more Hgen]].
  destruct (backoff_trace_quiet post (r :: more) 1) as [Hquiet _].
  destruct (generateSummary ai post no_options h) as [[summary|e] h1] eqn:Egen;
    cbn [fst snd] in *.
  2:{ exists (backoff_trace post 1 (r :: more)). split; [exact Hquiet|].
      left. exact Hgen. }
  destruct (publishToGitHub_trace (createBlogPostSummary post summary) h1)
    as [published [fetches [Hpub [Hfetches _]]]].
  rewrite Hpub. cbn [fst snd]. subst h1.
  exists (backoff_trace post 1 (r :: more) ++ fetches).
  split; [rewrite existsb_app, Hquiet, Hfetches; reflexivity|].
  rewrite <- (app_assoc h) in *.
  destruct published; [|left; reflexivity].
  destruct (PROCESSED_POSTS env) as [kv|] eqn:Ekv; [|left; reflexivity].
  right. rewrite markPostProcessed_run. cbn zeta.
  exists summary. eexists. exists kv. eexists. eexists. eexists.
  split; [reflexivity|]. split; [exact Hpub|]. split; [reflexivity|].
  rewrite <- !app_assoc. reflexivity.
Qed.

(** A post whose summary or publication fails writes nothing to the
    ledger, and its run throws. *)
Lemma process_post_no_write (post : BlogPost.t) (h : History) :
  (is_ok (fst (generateSummary ai post no_options h)) = false
   \/ exists summary h1,
        generateSummary ai post no_options h = (Ok summary, h1)
        /\ fst (publishToGitHub W githubConfig
                  (createBlogPostSummary post summary) h1) <> Ok true) ->
  exists quiet,
    snd (process_post W env ai githubConfig post h) = h ++ quiet
    /\ existsb is_kv_put quiet = false
    /\ is_ok (fst (process_post W env ai githubConfig post h)) = false.
Proof.
  intros Hfail. rewrite process_post_run. cbn zeta.
  destruct (generateSummary_trace post no_options h) as [r [more Hgen]].
  destruct (backoff_trace_quiet post (r :: more) 1) as [Hquiet _].
  destruct (generateSummary ai post no_options h) as [[summary|e] h1] eqn:Egen;
    cbn [fst snd] in *.
  2:{ exists (backoff_trace post 1 (r :: more)).
      split; [exact Hgen|]. split; [exact Hquiet|reflexivity]. }
  destruct Hfail as [Hfail | [summary' [h1' [Heq Hpubfail]]]]; [discriminate Hfail|].
  injection Heq as <- <-.
  destruct (publishToGitHub_trace (createBlogPostSummary post summary) h1)
    as [published [fetches [Hpub [Hfetches _]]]].
  rewrite Hpub in *. cbn [fst snd] in *. subst h1.
  exists (backoff_trace post 1 (r :: more) ++ fetches).
  rewrite <- (app_assoc h).
  destruct published; [contradiction Hpubfail; reflexivity|].
  split; [reflexivity|]. split; [|reflexivity].
  rewrite existsb_app, Hquiet, Hfetches. reflexivity.
Qed.

(** ** The loop *)

Lemma counts_step (run : Exc unit * History) (runs : list (Exc unit * History)) :
  succeeded (run :: runs)
  = ((if is_ok (fst run) then 1 else 0) + succeeded runs)%N
  /\ failed (run :: runs)
     = ((if is_ok (fst run) then 0 else 1) + failed runs)%N.
Proof.
  unfold succeeded, failed. cbn [filter].
  destruct (is_ok (fst run)); cbn [negb length]; split; lia.
Qed.

Lemma process_loop_run (newPosts : list BlogPost.t) (successCount failureCount : N)
    (h : History) :
  let runs := post_runs W env ai githubConfig newPosts h in
  process_loop W env ai githubConfig newPosts successCount failureCount h
  = (Ok ((successCount + succeeded runs)%N, (failureCount + failed runs)%N),
     history_after runs h).
Proof.
  revert successCount failureCount h.
  induction newPosts as [|post rest IH]; intros s f h; cbn zeta.
  - cbn. rewrite !N.add_0_r. reflexivity.
  - cbn [process_loop post_runs history_after]. unfold bind, try_catch, ret.
    destruct (counts_step (process_post W env ai githubConfig post h)
                (post_runs W env ai githubConfig rest
                   (snd (process_post W env ai githubConfig post h))))
      as [Hs Hf].
    rewrite Hs, Hf.
    destruct (process_post W env ai githubConfig post h) as [[[]|e] h1];
      cbn [fst snd is_ok]; rewrite IH; cbn zeta;
      (apply f_equal2; [apply f_equal; apply f_equal2; lia | reflexivity]).
Qed.

Lemma post_runs_counts (newPosts : list BlogPost.t) (h : History) :
  let runs := post_runs W env ai githubConfig newPosts h in
  length runs = length newPosts
  /\ (succeeded runs + failed runs)%N = N.of_nat (length newPosts).
Proof.
  revert h. induction newPosts as [|post rest IH]; intros h; cbn zeta.
  - split; reflexivity.
  - cbn [post_runs length].
    destruct (IH (snd (process_post W env ai githubConfig post h))) as [Hlen Hsum].
    cbn zeta in Hlen, Hsum.
    destruct (counts_step (process_post W env ai githubConfig post h)
                (post_runs W env ai githubConfig rest
                   (snd (process_post W env ai githubConfig post h))))
      as [Hs Hf].
    rewrite Hs, Hf. split; [rewrite Hlen; reflexivity|].
    destruct (is_ok _); lia.
Qed.

Lemma process_post_extends (post : BlogPost.t) (h : History) :
  exists res events,
    snd (process_post W env ai githubConfig post h)
    = h ++ EvAiRun AI_MODEL (inputs_for post) res :: events.
Proof.
  rewrite process_post_run. cbn zeta.
  destruct (generateSummary_trace post no_options h) as [r [more Hgen]].
  assert (Hhead : exists tail,
            backoff_trace post 1 (r :: more)
            = EvAiRun AI_MODEL (inputs_for post) r :: tail).
  { cbn [backoff_trace]. eexists. reflexivity. }
  destruct Hhead as [tail Htail]. rewrite Htail in Hgen.
  destruct (generateSummary ai post no_options h) as [[summary|e] h1];
    cbn [fst snd] in *.
  2:{ exists r, tail. exact Hgen. }
  destruct (publishToGitHub_trace (createBlogPostSummary post summary) h1)
    as [published [fetches [Hpub _]]].
  rewrite Hpub. cbn [fst snd]. subst h1.
  destruct published.
  - destruct (PROCESSED_POSTS env) as [kv|].
    + rewrite markPostProcessed_run. cbn zeta. cbn [snd].
      exists r. eexists. rewrite <- !app_assoc. cbn [app]. reflexivity.
    + exists r. eexists. cbn [snd]. rewrite <- app_assoc. cbn [app]. reflexivity.
  - exists r. eexists. cbn [snd]. rewrite <- app_assoc. cbn [app]. reflexivity.
Qed.

(** Every post of the list is attempted: the loop leaves, after [h], a
    call of the backend on the prompt of each. *)
Lemma post_runs_attempt_all (newPosts : list BlogPost.t) (h : History) :
  exists events,
    history_after (post_runs W env ai githubConfig newPosts h) h = h ++ events
    /\ forall post, In post newPosts ->
         exists res, In (EvAiRun AI_MODEL (inputs_for post) res) events.
Proof.
  revert h. induction newPosts as [|post rest IH]; intros h.
  - exists []. split; [cbn; rewrite app_nil_r; reflexivity|]. intros p [].
  - cbn [post_runs history_after].
    destruct (process_post_extends post h) as [res [events Hpost]].
    destruct (IH (snd (process_post W env ai githubConfig post h)))
      as [more [Hafter Hall]].
    rewrite Hafter, Hpost, <- app_assoc.
    eexists. split; [reflexivity|].
    intros p [<- | Hin].
    + exists res. cbn [app In]. left. reflexivity.
    + destruct (Hall p Hin) as [res' Hres']. exists res'.
      cbn [app]. right. apply in_or_app. right. exact Hres'.
Qed.

End Orchestrator.

(* ================================================================== *)
(** * Properties: isolation of the posts of a run *)

Section Isolation.

Variable W : World.
Variable env : Env.
Variable ai : Ai.
Variable githubConfig : GitHubConfig.

Lemma filter_none (p : Event -> bool) (events : list Event) :
  existsb p events = false -> filter p events = [].
Proof.
  induction events as [|ev events IH]; intros H; [reflexivity|].
  cbn [existsb] in H. apply orb_false_iff in H. destruct H as [Hev Hevents].
  cbn [filter]. rewrite Hev. apply IH. exact Hevents.
Qed.

Lemma filter_new_run (kv : KVNamespace) (posts newPosts : list BlogPost.t)
    (h : History) :
  exists kept h',
    filter_new kv posts newPosts h = (Ok (newPosts ++ kept), h')
    /\ incl kept posts.
Proof.
  revert newPosts h. induction posts as [|post rest IH]; intros newPosts h.
  - exists [], h. cbn. rewrite app_nil_r. split; [reflexivity|]. intros p [].
  - cbn [filter_new]. unfold bind. rewrite isPostProcessed_run. cbn zeta.
    match goal with
    | |- context [filter_new kv rest (if ?b then _ else _) ?h1] =>
        destruct b;
        [ destruct (IH newPosts h1) as [kept [h' [Hrun Hincl]]]
        | destruct (IH (newPosts ++ [post]) h1) as [kept [h' [Hrun Hincl]]] ]
    end.
    + exists kept, h'. split; [exact Hrun|].
      intros p Hp. right. apply Hincl. exact Hp.
    + exists (post :: kept), h'. split.
      * rewrite Hrun, <- app_assoc. reflexivity.
      * intros p [<- | Hp]; [left; reflexivity|right; apply Hincl; exact Hp].
Qed.

(** After a fetch that returned, the run returns too, once the listing
    of the ledger is complete: nothing that happens to a post ends it. *)
Lemma after_fetch_run (fuel : nat) (posts : list BlogPost.t) (h1 : History) :
  listing_completes fuel env h1 ->
  exists newPosts h2,
    incl newPosts posts
    /\ (PROCESSED_POSTS env = None -> newPosts = posts /\ h2 = h1)
    /\ let runs := post_runs W env ai githubConfig newPosts h2 in
       after_fetch fuel W env ai githubConfig posts h1
       = Some (Ok (match newPosts with
                   | [] => NothingNew
                   | _ :: _ => Processed (succeeded runs) (failed runs)
                   end),
               history_after runs h2).
Proof.
  intros Hlisting. unfold after_fetch, listing_completes in *.
  destruct (PROCESSED_POSTS env) as [kv|] eqn:Ekv.
  - unfold getProcessedPostCount.
    destruct (count_pages fuel kv 0 None h1) as [[counted h1']|];
      [|contradiction Hlisting; reflexivity].
    assert (Hfilter : exists kept h2,
              filter_new kv posts [] h1' = (Ok kept, h2) /\ incl kept posts).
    { destruct (filter_new_run kv posts [] h1') as [kept [h2 [Hrun Hincl]]].
      exists kept, h2. split; [exact Hrun|exact Hincl]. }
    destruct Hfilter as [kept [h2 [Hrun Hincl]]].
    exists kept, h2. split; [exact Hincl|]. split; [discriminate|].
    cbn zeta. destruct counted as [n|e]; rewrite Hrun.
    + destruct kept as [|p kept']; [reflexivity|].
      rewrite process_loop_run. cbn zeta. reflexivity.
    + destruct kept as [|p kept']; [reflexivity|].
      rewrite process_loop_run. cbn zeta. reflexivity.
  - exists posts, h1. split; [apply incl_refl|]. split; [auto|].
    cbn zeta. destruct posts as [|p posts']; [reflexivity|].
    rewrite process_loop_run. cbn zeta. reflexivity.
Qed.

Lemma scheduled_run (fuel : nat) (posts : list BlogPost.t) (h0 h1 : History) :
  AI env = Some ai ->
  createGitHubConfig env = Some githubConfig ->
  RssParser.fetchBlogPosts W
    {| RssParser.feedUrl := RSS_FEED_URL env;
       RssParser.maxPosts := Some (RssParser.parseInt10 (POSTS_TO_FETCH env)) |} h0
  = (Ok posts, h1) ->
  scheduled fuel W env h0 = after_fetch fuel W env ai githubConfig posts h1.
Proof.
  intros Hai Hconfig Hfetch. unfold scheduled.
  rewrite Hai, Hconfig, Hfetch. reflexivity.
Qed.

(** ** A post that goes through, and a post whose summary fails *)

Lemma process_post_success (kv : KVNamespace) (post : BlogPost.t)
    (summary base64Content : jsstring) (h : History) :
  PROCESSED_POSTS env = Some kv ->
  attempt_outcome (ai_run ai h AI_MODEL (inputs_for post)) = Ok summary ->
  Json.btoa (artifact_text (createBlogPostSummary post (disclaimer ++ summary)))
  = Ok base64Content ->
  (forall h' req, req_method req = PUT -> write_accepted (world_fetch W h' req) = true) ->
  (forall h' key value ttl, kv_put kv h' key value ttl = Ok tt) ->
  exists marker answer value events,
    process_post W env ai githubConfig post h = (Ok tt, h ++ events)
    /\ In (EvFetch
             (put_request githubConfig
                (filePath_of (createBlogPostSummary post (disclaimer ++ summary)))
                (put_body (createBlogPostSummary post (disclaimer ++ summary))
                          base64Content marker))
             answer) events
    /\ write_accepted answer = true
    /\ In (EvKvPut (getPostKey (BlogPost.guid post)) value None (Ok tt)) events
    /\ length (filter is_put events) = 1%nat
    /\ length (filter is_kv_put events) = 1%nat.
Proof.
  intros Hkv Hsummary Hb64 Hput Hmark.
  rewrite process_post_run. cbn zeta.
  rewrite (generateSummary_first_try ai post no_options h Hsummary).
  cbn [fst snd]. change (returned_text no_options summary) with (disclaimer ++ summary).
  rewrite (@publishToGitHub_conditional_write W githubConfig _ _ _ Hb64).
  cbn zeta. cbn [fst snd]. rewrite Hput; [|reflexivity].
  rewrite Hkv, markPostProcessed_run. cbn zeta. rewrite Hmark.
  match goal with
  | |- context [put_request githubConfig _ ?body] =>
      match body with
      | match ?m with _ => _ end =>
          assert (Hbody : body
                          = put_body (createBlogPostSummary post (disclaimer ++ summary))
                                     base64Content m)
            by (destruct m as [[|c sha]|]; reflexivity);
          rewrite Hbody; exists m
      end
  end.
  eexists. eexists. eexists.
  split; [rewrite <- !app_assoc; reflexivity|].
  cbn [app]. split; [right; right; left; reflexivity|].
  split; [apply Hput; reflexivity|].
  split; [right; right; right; right; left; reflexivity|].
  split; reflexivity.
Qed.

Lemma process_post_exhausted (post : BlogPost.t) (h : History) :
  (forall h', is_ok (attempt_outcome (ai_run ai h' AI_MODEL (inputs_for post))) = false) ->
  exists e events,
    process_post W env ai githubConfig post h = (Throw e, h ++ events)
    /\ filter is_put events = []
    /\ filter is_kv_put events = [].
Proof.
  intros Hnever. rewrite process_post_run. cbn zeta.
  destruct (generateSummary_exhausted ai post no_options h Hnever)
    as [e [answers [Hgen _]]].
  rewrite Hgen. cbn [fst snd]. exists e, (backoff_trace post 1 answers).
  split; [reflexivity|].
  destruct (backoff_trace_quiet post answers 1) as [Hkv Hput].
  split; apply filter_none; assumption.
Qed.

End Isolation.

(** C1.  The loop over the new posts never throws: each post is run from
    the history its predecessor left, whether that one returned or threw
    at any stage; the counters are the numbers of runs that returned and
    that threw; and the backend is called for every post.  A run whose
    fetch returned therefore returns too.  For three new posts of which
    only the second cannot be summarised, the counters end at 2 and 1,
    and the first and the third post are published and marked in the
    ledger. *)
Theorem per_item_isolation :
  (forall W env ai githubConfig newPosts successCount failureCount h,
     let runs := post_runs W env ai githubConfig newPosts h in
     process_loop W env ai githubConfig newPosts successCount failureCount h
     = (Ok ((successCount + succeeded runs)%N, (failureCount + failed runs)%N),
        history_after runs h)
     /\ length runs = length newPosts
     /\ (succeeded runs + failed runs)%N = N.of_nat (length newPosts)
     /\ exists events,
          history_after runs h = h ++ events
          /\ forall post, In post newPosts ->
               exists res, In (EvAiRun AI_MODEL (inputs_for post) res) events)
  /\ (forall fuel W env ai githubConfig posts h0 h1,
        AI env = Some ai ->
        createGitHubConfig env = Some githubConfig ->
        RssParser.fetchBlogPosts W
          {| RssParser.feedUrl := RSS_FEED_URL env;
             RssParser.maxPosts :=
               Some (RssParser.parseInt10 (POSTS_TO_FETCH env)) |} h0
        = (Ok posts, h1) ->
        listing_completes fuel env h1 ->
        exists newPosts h2,
          incl newPosts posts
          /\ (PROCESSED_POSTS env = None -> newPosts = posts /\ h2 = h1)
          /\ let runs := post_runs W env ai githubConfig newPosts h2 in
             scheduled fuel W env h0
             = Some (Ok (match newPosts with
                         | [] => NothingNew
                         | _ :: _ => Processed (succeeded runs) (failed runs)
                         end),
                     history_after runs h2))
  /\ (forall W env ai githubConfig kv p1 p2 p3 s1 s3 b1 b3 h,
        PROCESSED_POSTS env = Some kv ->
        (forall h', attempt_outcome (ai_run ai h' AI_MODEL (inputs_for p1)) = Ok s1) ->
        (forall h', is_ok (attempt_outcome (ai_run ai h' AI_MODEL (inputs_for p2)))
                    = false) ->
        (forall h', attempt_outcome (ai_run ai h' AI_MODEL (inputs_for p3)) = Ok s3) ->
        Json.btoa (artifact_text (createBlogPostSummary p1 (disclaimer ++ s1))) = Ok b1 ->
        Json.btoa (artifact_text (createBlogPostSummary p3 (disclaimer ++ s3))) = Ok b3 ->
        (forall h' req, req_method req = PUT ->
                        write_accepted (world_fetch W h' req) = true) ->
        (forall h' key value ttl, kv_put kv h' key value ttl = Ok tt) ->
        exists events,
          process_loop W env ai githubConfig [p1; p2; p3] 0 0 h
          = (Ok (2%N, 1%N), h ++ events)
          /\ published_in githubConfig
               (createBlogPostSummary p1 (disclaimer ++ s1)) b1 events
          /\ published_in githubConfig
               (createBlogPostSummary p3 (disclaimer ++ s3)) b3 events
          /\ marked_in (BlogPost.guid p1) events
          /\ marked_in (BlogPost.guid p3) events
          /\ length (filter is_put events) = 2%nat
          /\ length (filter is_kv_put events) = 2%nat).
Proof.
  split; [|split].
  - intros W env ai githubConfig newPosts s f h. cbn zeta.
    split; [apply process_loop_run|].
    destruct (post_runs_counts W env ai githubConfig newPosts h) as [Hlen Hsum].
    split; [exact Hlen|]. split; [exact Hsum|].
    apply post_runs_attempt_all.
  - intros fuel W env ai githubConfig posts h0 h1 Hai Hconfig Hfetch Hlisting.
    rewrite (@scheduled_run W env ai githubConfig fuel posts h0 h1 Hai Hconfig Hfetch).
    apply after_fetch_run. exact Hlisting.
  - intros W env ai githubConfig kv p1 p2 p3 s1 s3 b1 b3 h
           Hkv H1 H2 H3 Hb1 Hb3 Hput Hmark.
    destruct (@process_post_success W env ai githubConfig kv p1 s1 b1 h
                Hkv (H1 h) Hb1 Hput Hmark)
      as [m1 [a1 [v1 [ev1 [Hrun1 [Hpub1 [Hacc1 [Hmark1 [Hputs1 Hkvs1]]]]]]]]].
    destruct (@process_post_exhausted W env ai githubConfig p2 (h ++ ev1) H2)
      as [e2 [ev2 [Hrun2 [Hputs2 Hkvs2]]]].
    destruct (@process_post_success W env ai githubConfig kv p3 s3 b3
                ((h ++ ev1) ++ ev2) Hkv (H3 _) Hb3 Hput Hmark)
      as [m3 [a3 [v3 [ev3 [Hrun3 [Hpub3 [Hacc3 [Hmark3 [Hputs3 Hkvs3]]]]]]]]].
    exists (ev1 ++ ev2 ++ ev3).
    split.
    { rewrite process_loop_run. cbn zeta. cbn [post_runs].
      rewrite Hrun1. cbn [snd]. rewrite Hrun2. cbn [snd]. rewrite Hrun3.
      cbn [snd history_after]. rewrite <- !app_assoc. reflexivity. }
    split.
    { exists m1, a1. split; [|exact Hacc1]. apply in_or_app. left. exact Hpub1. }
    split.
    { exists m3, a3. split; [|exact Hacc3].
      apply in_or_app. right. apply in_or_app. right. exact Hpub3. }
    split.
    { exists v1. apply in_or_app. left. exact Hmark1. }
    split.
    { exists v3. apply in_or_app. right. apply in_or_app. right. exact Hmark3. }
    rewrite !filter_app, !length_app, Hputs1, Hputs2, Hputs3, Hkvs1, Hkvs2, Hkvs3.
    split; reflexivity.
Qed.

Lemma per_item_isolation_witness :
  fst (process_loop Scenario.pipeline_world
         (Scenario.worker_env Scenario.picky_ai (Some Scenario.empty_kv))
         Scenario.picky_ai Scenario.config
         [Scenario.post1; Scenario.post2; Scenario.post3] 0 0 [])
  = Ok (2%N, 1%N).
Proof.
  destruct per_item_isolation as [_ [_ Hthree]].
  destruct (Hthree Scenario.pipeline_world
              (Scenario.worker_env Scenario.picky_ai (Some Scenario.empty_kv))
              Scenario.picky_ai Scenario.config Scenario.empty_kv
              Scenario.post1 Scenario.post2 Scenario.post3
              Scenario.long_text Scenario.long_text
              (Json.base64 (artifact_text
                 (createBlogPostSummary Scenario.post1
                    (disclaimer ++ Scenario.long_text))))
              (Json.base64 (artifact_text
                 (createBlogPostSummary Scenario.post3
                    (disclaimer ++ Scenario.long_text))))
              [])
    as [events [Hrun _]].
  - reflexivity.
  - intros h'. vm_compute. reflexivity.
  - intros h'. vm_compute. reflexivity.
  - intros h'. vm_compute. reflexivity.
  - vm_compute. reflexivity.
  - vm_compute. reflexivity.
  - intros h' req Hput. unfold Scenario.pipeline_world, Scenario.store_world.
    cbn [world_fetch]. rewrite Hput. reflexivity.
  - intros h' key value ttl. reflexivity.
  - rewrite Hrun. reflexivity.
Defined.

(** The three items of the sample feed are the three sample posts. *)
Example three_items_parse :
  RssParser.parseRSSFeed Scenario.three_items
  = Ok [Scenario.post1; Scenario.post2; Scenario.post3].
Proof. vm_compute. reflexivity. Qed.

(** A whole run over the sample feed, against an empty ledger and an
    empty store, with a backend that cannot summarise the second post:
    the run reports 2 and 1; the first and the third post are written
    and marked, the second is tried three times and then left alone. *)
Example scheduled_three_posts :
  let run := scheduled 1 Scenario.pipeline_world
               (Scenario.worker_env Scenario.picky_ai (Some Scenario.empty_kv)) [] in
  option_map fst run = Some (Ok (Processed 2 1))
  /\ option_map (fun r => map Scenario.brief (snd r)) run
     = Some [ js "GET https://blog.cloudflare.com/rss/";
              js "KV list";
              js "KV get post:g1"; js "KV get post:g2"; js "KV get post:g3";
              js "AI";
              js "GET https://api.github.com/repos/cf-vnkr/autoblog/contents/site/content/posts/first.json";
              js "PUT https://api.github.com/repos/cf-vnkr/autoblog/contents/site/content/posts/first.json";
              js "now"; js "KV put post:g1";
              js "AI"; js "sleep 1000"; js "AI"; js "sleep 2000"; js "AI";
              js "AI";
              js "GET https://api.github.com/repos/cf-vnkr/autoblog/contents/site/content/posts/third.json";
              js "PUT https://api.github.com/repos/cf-vnkr/autoblog/contents/site/content/posts/third.json";
              js "now"; js "KV put post:g3" ].
Proof. vm_compute. split; reflexivity. Qed.

(* ================================================================== *)
(** * Properties: the ledger follows the store *)

Section LedgerAfterPublish.

Variable W : World.
Variable env : Env.
Variable ai : Ai.
Variable githubConfig : GitHubConfig.

(** An event of a concatenation lies in one of its two parts. *)
Lemma locate (e : Event) (xs ys before after : list Event) :
  xs ++ ys = before ++ e :: after ->
  (exists after', xs = before ++ e :: after' /\ after = after' ++ ys)
  \/ (exists before', before = xs ++ before' /\ ys = before' ++ e :: after).
Proof.
  revert before. induction xs as [|x xs IH]; intros before Heq.
  - right. exists before. split; [reflexivity|exact Heq].
  - destruct before as [|b before].
    + left. cbn in Heq. injection Heq as -> <-. exists xs. split; reflexivity.
    + cbn in Heq. injection Heq as -> Heq.
      destruct (IH before Heq) as [[after' [-> ->]] | [before' [-> ->]]].
      * left. exists after'. split; reflexivity.
      * right. exists before'. split; reflexivity.
Qed.

(** The only ledger write of a list that ends with one, after a prefix
    without any, is its last event. *)
Lemma last_write (e e' : Event) (xs before after : list Event) :
  existsb is_kv_put xs = false ->
  is_kv_put e = true ->
  xs ++ [e'] = before ++ e :: after ->
  before = xs /\ e = e' /\ after = [].
Proof.
  revert before. induction xs as [|x xs IH]; intros before Hquiet He Heq.
  - destruct before as [|b before].
    + cbn in Heq. injection Heq as <- <-. auto.
    + cbn in Heq. injection Heq as _ Heq. destruct before; discriminate Heq.
  - cbn [existsb] in Hquiet. apply orb_false_iff in Hquiet.
    destruct Hquiet as [Hx Hxs].
    destruct before as [|b before].
    + cbn in Heq. injection Heq as -> _. rewrite He in Hx. discriminate Hx.
    + cbn in Heq. injection Heq as -> Heq.
      destruct (IH before Hxs He Heq) as [-> [-> ->]]. auto.
Qed.

Lemma quiet_has_no_write (e : Event) (quiet before after : list Event) :
  existsb is_kv_put quiet = false ->
  is_kv_put e = true ->
  quiet <> before ++ e :: after.
Proof.
  intros Hquiet He ->. rewrite existsb_app in Hquiet. cbn [existsb] in Hquiet.
  rewrite He, orb_true_r in Hquiet. discriminate Hquiet.
Qed.

(** Every ledger write of the loop comes right after the time stamp that
    follows a publication of the same post that returned [true]. *)
Lemma post_runs_ledger (newPosts : list BlogPost.t) (h : History)
    (before after : list Event) (key value : jsstring) (ttl : option N)
    (res : Exc unit) :
  history_after (post_runs W env ai githubConfig newPosts h) h
  = h ++ before ++ EvKvPut key value ttl res :: after ->
  exists post hp summary h1 h2 t,
    In post newPosts
    /\ key = getPostKey (BlogPost.guid post)
    /\ generateSummary ai post no_options hp = (Ok summary, h1)
    /\ publishToGitHub W githubConfig (createBlogPostSummary post summary) h1
       = (Ok true, h2)
    /\ h ++ before = h2 ++ [EvNow t].
Proof.
  revert h before. induction newPosts as [|post rest IH]; intros h before Hafter.
  - cbn in Hafter. rewrite <- (app_nil_r h) in Hafter at 1.
    apply app_inv_head in Hafter. destruct before; discriminate Hafter.
  - cbn [post_runs history_after] in Hafter.
    destruct (post_runs_attempt_all W env ai githubConfig rest
                (snd (process_post W env ai githubConfig post h)))
      as [more [Hmore _]].
    rewrite Hmore in Hafter.
    destruct (process_post_ledger W env ai githubConfig post h)
      as [quiet [Hquiet Hpost]].
    destruct Hpost as [Hsnd | [summary [h1 [kv [t [v [r [Hgen [Hpub [Hkv Hrun]]]]]]]]]].
    + rewrite Hsnd, <- app_assoc in Hafter. apply app_inv_head in Hafter.
      destruct (@locate _ _ _ _ _ Hafter)
        as [[after' [Hin _]] | [before' [-> Hrest]]].
      * exfalso. exact (@quiet_has_no_write (EvKvPut key value ttl res) _ _ _
                          Hquiet eq_refl Hin).
      * assert (Hrec : history_after
                         (post_runs W env ai githubConfig rest
                            (snd (process_post W env ai githubConfig post h)))
                         (snd (process_post W env ai githubConfig post h))
                       = snd (process_post W env ai githubConfig post h)
                         ++ before' ++ EvKvPut key value ttl res :: after).
        { rewrite Hmore, Hrest. reflexivity. }
        destruct (IH _ _ Hrec)
          as [p [hp [s' [h1' [h2' [t' [Hp [Hk [Hg [Hpb Hh]]]]]]]]]].
        exists p, hp, s', h1', h2', t'.
        split; [right; exact Hp|]. split; [exact Hk|].
        split; [exact Hg|]. split; [exact Hpb|].
        rewrite <- Hh, Hsnd, <- app_assoc. reflexivity.
    + assert (Hsnd : snd (process_post W env ai githubConfig post h)
                     = h ++ (quiet ++ [EvNow t])
                         ++ [EvKvPut (getPostKey (BlogPost.guid post)) v None r]).
      { rewrite Hrun. cbn [snd]. rewrite <- app_assoc. reflexivity. }
      rewrite Hsnd, <- app_assoc in Hafter. apply app_inv_head in Hafter.
      destruct (@locate _ _ _ _ _ Hafter)
        as [[after' [Hin _]] | [before' [-> Hrest]]].
      * assert (Hq : existsb is_kv_put (quiet ++ [EvNow t]) = false).
        { rewrite existsb_app, Hquiet. reflexivity. }
        destruct (@last_write (EvKvPut key value ttl res) _ _ _ _ Hq eq_refl Hin)
          as [-> [Hev _]].
        injection Hev as -> _ _ _.
        exists post, h, summary, h1, (h ++ quiet), t.
        split; [left; reflexivity|]. split; [reflexivity|].
        split; [exact Hgen|]. split; [exact Hpub|].
        rewrite <- app_assoc. reflexivity.
      * assert (Hrec : history_after
                         (post_runs W env ai githubConfig rest
                            (snd (process_post W env ai githubConfig post h)))
                         (snd (process_post W env ai githubConfig post h))
                       = snd (process_post W env ai githubConfig post h)
                         ++ before' ++ EvKvPut key value ttl res :: after).
        { rewrite Hmore, Hrest. reflexivity. }
        destruct (IH _ _ Hrec)
          as [p [hp [s' [h1' [h2' [t' [Hp [Hk [Hg [Hpb Hh]]]]]]]]]].
        exists p, hp, s', h1', h2', t'.
        split; [right; exact Hp|]. split; [exact Hk|].
        split; [exact Hg|]. split; [exact Hpb|].
        rewrite <- Hh, Hsnd, <- !app_assoc. reflexivity.
Qed.

(** C2.  A post whose summary throws, or whose publication does not
    return [true], leaves no ledger write and its run throws; and every
    ledger write that the loop issues is for the guid of one of its
    posts and follows, after the time stamp alone, a publication of that
    post's artifact that returned [true]. *)
Theorem no_ledger_mark_without_publish :
  (forall post h,
     (is_ok (fst (generateSummary ai post no_options h)) = false
      \/ exists summary h1,
           generateSummary ai post no_options h = (Ok summary, h1)
           /\ fst (publishToGitHub W githubConfig
                     (createBlogPostSummary post summary) h1) <> Ok true) ->
     exists quiet,
       snd (process_post W env ai githubConfig post h) = h ++ quiet
       /\ existsb is_kv_put quiet = false
       /\ is_ok (fst (process_post W env ai githubConfig post h)) = false)
  /\ (forall newPosts successCount failureCount h before key value ttl res after,
        snd (process_loop W env ai githubConfig newPosts successCount failureCount h)
        = h ++ before ++ EvKvPut key value ttl res :: after ->
        exists post hp summary h1 h2 t,
          In post newPosts
          /\ key = getPostKey (BlogPost.guid post)
          /\ generateSummary ai post no_options hp = (Ok summary, h1)
          /\ publishToGitHub W githubConfig (createBlogPostSummary post summary) h1
             = (Ok true, h2)
          /\ h ++ before = h2 ++ [EvNow t]).
Proof.
  split.
  - intros post h. apply process_post_no_write.
  - intros newPosts s f h before key value ttl res after Hloop.
    rewrite process_loop_run in Hloop. cbn zeta in Hloop. cbn [snd] in Hloop.
    exact (@post_runs_ledger _ _ _ _ _ _ _ _ Hloop).
Qed.

End LedgerAfterPublish.

Lemma no_ledger_mark_without_publish_witness :
  (exists quiet,
     snd (process_post Scenario.pipeline_world
            (Scenario.worker_env Scenario.picky_ai (Some Scenario.empty_kv))
            Scenario.picky_ai Scenario.config Scenario.post2 [])
     = [] ++ quiet
     /\ existsb is_kv_put quiet = false
     /\ is_ok (fst (process_post Scenario.pipeline_world
                      (Scenario.worker_env Scenario.picky_ai (Some Scenario.empty_kv))
                      Scenario.picky_ai Scenario.config Scenario.post2 []))
        = false)
  /\ (exists post hp summary h1 h2,
        In post [Scenario.post1; Scenario.post2; Scenario.post3]
        /\ js "post:g1" = getPostKey (BlogPost.guid post)
        /\ generateSummary Scenario.picky_ai post no_options hp = (Ok summary, h1)
        /\ publishToGitHub Scenario.pipeline_world Scenario.config
             (createBlogPostSummary post summary) h1
           = (Ok true, h2)).
Proof.
  destruct (no_ledger_mark_without_publish Scenario.pipeline_world
              (Scenario.worker_env Scenario.picky_ai (Some Scenario.empty_kv))
              Scenario.picky_ai Scenario.config) as [Hone Hrun].
  split.
  - apply Hone. left. vm_compute. reflexivity.
  - set (trace := snd (process_loop Scenario.pipeline_world
                         (Scenario.worker_env Scenario.picky_ai
                            (Some Scenario.empty_kv))
                         Scenario.picky_ai Scenario.config
                         [Scenario.post1; Scenario.post2; Scenario.post3] 0 0 [])).
    destruct (Hrun [Scenario.post1; Scenario.post2; Scenario.post3] 0%N 0%N []
                (firstn 4 trace) (js "post:g1")
                (match nth 4 trace (EvSleep 0) with
                 | EvKvPut _ value _ _ => value
                 | _ => []
                 end)
                None (Ok tt) (skipn 5 trace))
      as [post [hp [summary [h1 [h2 [t [Hin [Hkey [Hgen [Hpub _]]]]]]]]]].
    + vm_compute. reflexivity.
    + exists post, hp, summary, h1, h2. auto.
Defined.

(* ================================================================== *)
(** * Properties: no substitute summary in the orchestrator *)

Section Fallback.

Variable W : World.
Variable env : Env.
Variable ai : Ai.
Variable githubConfig : GitHubConfig.

Lemma generateSummaries_one (post : BlogPost.t) (options : SummarizeOptions)
    (h : History) :
  generateSummaries ai [post] options h
  = (Ok [match fst (generateSummary ai post options h) with
         | Ok summary => summary
         | Throw _ => fallback
         end],
     snd (generateSummary ai post options h)).
Proof.
  unfold generateSummaries. cbn [summaries_loop]. run.
  destruct (generateSummary ai post options h) as [[summary|e] h1]; reflexivity.
Qed.

(** C6, amended.  When the summary of a post throws, the orchestrator
    substitutes nothing: the run of the post throws the same error
    without any write to the store or to the ledger, and the loop counts
    one failure.  The fallback text is what [generateSummaries], which
    the orchestrator does not call, puts in place of the summary. *)
Theorem summary_failure_is_counted (post : BlogPost.t) (h : History) :
  is_ok (fst (generateSummary ai post no_options h)) = false ->
  exists e quiet,
    generateSummary ai post no_options h = (Throw e, h ++ quiet)
    /\ process_post W env ai githubConfig post h = (Throw e, h ++ quiet)
    /\ existsb is_put quiet = false
    /\ existsb is_kv_put quiet = false
    /\ (forall successCount failureCount,
          process_loop W env ai githubConfig [post] successCount failureCount h
          = (Ok (successCount, (failureCount + 1)%N), h ++ quiet))
    /\ generateSummaries ai [post] no_options h = (Ok [fallback], h ++ quiet).
Proof.
  intros Hfail.
  destruct (generateSummary_trace ai post no_options h) as [r [more Htrace]].
  destruct (backoff_trace_quiet post (r :: more) 1) as [Hkv Hput].
  pose proof (process_post_run W env ai githubConfig post h) as Hpost.
  pose proof (generateSummaries_one post no_options h) as Hbatch.
  cbn zeta in Hpost.
  destruct (generateSummary ai post no_options h) as [[summary|e] h1] eqn:Egen;
    cbn [fst snd is_ok] in *; [discriminate Hfail|].
  subst h1. exists e, (backoff_trace post 1 (r :: more)).
  split; [reflexivity|]. split; [exact Hpost|].
  split; [exact Hput|]. split; [exact Hkv|]. split; [|exact Hbatch].
  intros s f. cbn [process_loop]. unfold bind, try_catch, ret.
  rewrite Hpost. reflexivity.
Qed.

End Fallback.

(** C6, as the specification words it, fails: the second sample post
    cannot be summarised, and its run publishes no artifact with any
    substituted text. *)
Lemma orchestrator_fallback_refuted :
  ~ (is_ok (fst (generateSummary Scenario.picky_ai Scenario.post2 no_options []))
     = false ->
     publishes_substitute Scenario.pipeline_world
       (Scenario.worker_env Scenario.picky_ai (Some Scenario.empty_kv))
       Scenario.picky_ai Scenario.config Scenario.post2 []).
Proof.
  intros Hclaim.
  destruct (Hclaim eq_refl) as [text [base64Content [marker [answer [Hin _]]]]].
  assert (Hnone : existsb is_put
                    (added [] (snd (process_post Scenario.pipeline_world
                                      (Scenario.worker_env Scenario.picky_ai
                                         (Some Scenario.empty_kv))
                                      Scenario.picky_ai Scenario.config
                                      Scenario.post2 [])))
                  = false).
  { vm_compute. reflexivity. }
  assert (Hsome : existsb is_put
                    (added [] (snd (process_post Scenario.pipeline_world
                                      (Scenario.worker_env Scenario.picky_ai
                                         (Some Scenario.empty_kv))
                                      Scenario.picky_ai Scenario.config
                                      Scenario.post2 [])))
                  = true).
  { apply existsb_exists. eexists. split; [exact Hin|reflexivity]. }
  rewrite Hnone in Hsome. discriminate Hsome.
Qed.

Lemma summary_failure_is_counted_witness :
  process_loop Scenario.pipeline_world
    (Scenario.worker_env Scenario.picky_ai (Some Scenario.empty_kv))
    Scenario.picky_ai Scenario.config [Scenario.post2] 0 0 []
  = (Ok (0%N, 1%N),
     snd (generateSummary Scenario.picky_ai Scenario.post2 no_options []))
  /\ fst (generateSummaries Scenario.picky_ai [Scenario.post2] no_options [])
     = Ok [fallback].
Proof.
  destruct (@summary_failure_is_counted Scenario.pipeline_world
              (Scenario.worker_env Scenario.picky_ai (Some Scenario.empty_kv))
              Scenario.picky_ai Scenario.config Scenario.post2 [] eq_refl)
    as [e [quiet [Hgen [_ [_ [_ [Hloop Hbatch]]]]]]].
  split.
  - rewrite Hloop, Hgen. reflexivity.
  - rewrite Hbatch. reflexivity.
Defined.

(* ================================================================== *)
(** * Further properties: scanning and trimming *)

Lemma span_drop (p : N -> bool) (s : jsstring) :
  span p s = (fst (span p s), drop_while p s).
Proof.
  induction s as [|c s IH]; [reflexivity|].
  cbn [span drop_while]. destruct (p c); [|reflexivity].
  rewrite IH. reflexivity.
Qed.

Lemma span_app_eq (p : N -> bool) (s : jsstring) :
  fst (span p s) ++ drop_while p s = s.
Proof.
  induction s as [|c s IH]; [reflexivity|].
  cbn [span drop_while]. destruct (p c); [|reflexivity].
  rewrite (span_drop p s). cbn [fst app]. rewrite IH. reflexivity.
Qed.

Lemma span_all (p : N -> bool) (s : jsstring) :
  forallb p (fst (span p s)) = true.
Proof.
  induction s as [|c s IH]; [reflexivity|].
  cbn [span]. destruct (p c) eqn:Hc; [|reflexivity].
  rewrite (span_drop p s). cbn [fst forallb]. rewrite Hc, IH. reflexivity.
Qed.

Lemma drop_while_head (p : N -> bool) (s : jsstring) (c : N) (t : jsstring) :
  drop_while p s = c :: t -> p c = false.
Proof.
  induction s as [|x s IH]; [discriminate|].
  cbn [drop_while]. destruct (p x) eqn:Hx; [exact IH|].
  intros [= <- _]. exact Hx.
Qed.

Lemma drop_while_keep (p : N -> bool) (c : N) (s : jsstring) :
  p c = false -> drop_while p (c :: s) = c :: s.
Proof. intros Hc. cbn [drop_while]. rewrite Hc. reflexivity. Qed.

(** The longest prefix of units that satisfy [p], when what follows it
    does not begin with such a unit. *)
Lemma span_prefix (p : N -> bool) (a b : jsstring) :
  forallb p a = true ->
  (b = [] \/ exists c t, b = c :: t /\ p c = false) ->
  span p (a ++ b) = (a, b).
Proof.
  intros Ha Hb. induction a as [|x a IH].
  - cbn [app]. destruct Hb as [-> | [c [t [-> Hc]]]]; [reflexivity|].
    cbn [span]. rewrite Hc. reflexivity.
  - cbn [forallb] in Ha. apply andb_true_iff in Ha. destruct Ha as [Hx Ha].
    cbn [app span]. rewrite Hx, (IH Ha). reflexivity.
Qed.

Lemma replace_scan_skip (m : matcher) (a t : jsstring) :
  replace_scan m (length a) (a ++ t) = replace_scan m 0 t.
Proof.
  induction a as [|x a IH]; [reflexivity|].
  cbn [length app replace_scan]. exact IH.
Qed.

(** One step of the replacement of the runs of a character class. *)
Lemma replace_all_run_of (p : N -> bool) (r : jsstring) (c : N) (s : jsstring) :
  replace_all (run_of p r) (c :: s)
  = if p c then r ++ replace_all (run_of p r) (drop_while p s)
    else c :: replace_all (run_of p r) s.
Proof.
  unfold replace_all. cbn [replace_scan]. unfold run_of at 1. cbn [span].
  destruct (p c); [|reflexivity].
  rewrite (span_drop p s). cbn [fst length].
  rewrite <- (span_app_eq p s) at 2. rewrite replace_scan_skip. reflexivity.
Qed.

(** A matcher that needs a first unit [c0] leaves a text without [c0]
    as it is. *)
Lemma replace_all_untouched (m : matcher) (c0 : N) (s : jsstring) :
  (forall c t, c <> c0 -> m (c :: t) = None) ->
  ~ In c0 s ->
  replace_all m s = s.
Proof.
  intros Hm. unfold replace_all. induction s as [|c s IH]; intros Hfree;
    [reflexivity|].
  cbn [replace_scan]. rewrite Hm.
  - rewrite IH; [reflexivity|]. intros Hin. apply Hfree. right. exact Hin.
  - intros ->. apply Hfree. left. reflexivity.
Qed.

Lemma first_match_some (m : matcher) (s : jsstring) (cap : jsstring) :
  first_match m s = Some cap ->
  exists before after n, s = before ++ after /\ m after = Some (n, cap).
Proof.
  induction s as [|c s IH]; cbn [first_match].
  - destruct (m []) as [[n cap']|] eqn:Hm; [|discriminate].
    intros [= <-]. exists [], [], n. split; [reflexivity|exact Hm].
  - destruct (m (c :: s)) as [[n cap']|] eqn:Hm.
    + intros [= <-]. exists [], (c :: s), n. split; [reflexivity|exact Hm].
    + intros Hrest. destruct (IH Hrest) as [before [after [n [-> Hafter]]]].
      exists (c :: before), after, n. split; [reflexivity|exact Hafter].
Qed.

(** The leftmost match lies after a text in which the matcher finds
    nothing. *)
Lemma first_match_after (m : matcher) (before after : jsstring) :
  (forall a b, before = a ++ b -> b <> [] -> m (b ++ after) = None) ->
  first_match m (before ++ after) = first_match m after.
Proof.
  induction before as [|c before IH]; intros Hnone; [reflexivity|].
  cbn [app first_match].
  assert (Hhere : m (c :: before ++ after) = None).
  { apply (Hnone [] (c :: before) eq_refl). discriminate. }
  rewrite Hhere.
  apply IH. intros a b Heq Hb. apply (Hnone (c :: a) b); [|exact Hb].
  rewrite Heq. reflexivity.
Qed.

Lemma drop_while_split (p : N -> bool) (s : jsstring) :
  exists a, s = a ++ drop_while p s /\ forallb p a = true.
Proof.
  exists (fst (span p s)). split; [symmetry; apply span_app_eq|apply span_all].
Qed.

Lemma forallb_rev (p : N -> bool) (s : jsstring) :
  forallb p s = true -> forallb p (rev s) = true.
Proof.
  intros H. apply forallb_forall. intros x Hx. apply in_rev in Hx.
  exact (proj1 (forallb_forall p s) H x Hx).
Qed.

Lemma trim_by_infix (p : N -> bool) (s : jsstring) :
  exists a b, s = a ++ trim_by p s ++ b
              /\ forallb p a = true /\ forallb p b = true.
Proof.
  destruct (drop_while_split p s) as [a [Hs Ha]].
  destruct (drop_while_split p (rev (drop_while p s))) as [b [Hr Hb]].
  exists a, (rev b). split; [|split; [exact Ha|apply forallb_rev; exact Hb]].
  unfold trim_by. rewrite <- rev_app_distr, <- Hr, rev_involutive. exact Hs.
Qed.

Lemma trim_by_last (p : N -> bool) (s init : jsstring) (c : N) :
  trim_by p s = init ++ [c] -> p c = false.
Proof.
  unfold trim_by. intros H.
  apply (f_equal (@rev N)) in H. rewrite rev_involutive, rev_app_distr in H.
  cbn [rev app] in H. exact (drop_while_head _ _ H).
Qed.

Lemma trim_by_head (p : N -> bool) (s rest : jsstring) (c : N) :
  trim_by p s = c :: rest -> p c = false.
Proof.
  intros H.
  destruct (drop_while_split p (rev (drop_while p s))) as [b [Hr Hb]].
  apply (f_equal (@rev N)) in Hr. rewrite rev_involutive, rev_app_distr in Hr.
  fold (trim_by p s) in Hr. rewrite H in Hr. cbn [app] in Hr.
  exact (drop_while_head _ _ Hr).
Qed.

Lemma trim_by_fixed (p : N -> bool) (s : jsstring) :
  (forall c rest, s = c :: rest -> p c = false) ->
  (forall init c, s = init ++ [c] -> p c = false) ->
  trim_by p s = s.
Proof.
  intros Hhead Hlast. unfold trim_by.
  assert (Hfront : drop_while p s = s).
  { destruct s as [|c rest]; [reflexivity|].
    apply drop_while_keep. exact (Hhead c rest eq_refl). }
  rewrite Hfront.
  assert (Hback : drop_while p (rev s) = rev s).
  { destruct (rev s) as [|c rest] eqn:Hrev; [reflexivity|].
    apply drop_while_keep. apply (Hlast (rev rest) c).
    rewrite <- (rev_involutive s), Hrev. reflexivity. }
  rewrite Hback. apply rev_involutive.
Qed.

Lemma occurs_infix (needle a s b : jsstring) :
  occurs needle s -> occurs needle (a ++ s ++ b).
Proof.
  intros [before [after ->]]. exists (a ++ before), (after ++ b).
  rewrite <- !app_assoc. reflexivity.
Qed.

(* ================================================================== *)
(** * Further properties: the shape of a slug *)

Section SlugShape.

Let unsafe : N -> bool := fun c => negb (is_slug_unit c).
Let hyphenate : jsstring -> jsstring := replace_all (run_of unsafe (js "-")).

Lemma hyphenate_separated_upto (n : nat) :
  forall s, length s <= n -> separated (hyphenate s) = true.
Proof.
  induction n as [|n IH]; intros s Hlen.
  - destruct s; [reflexivity|cbn [length] in Hlen; lia].
  - destruct s as [|c s]; [reflexivity|].
    cbn [length] in Hlen. unfold hyphenate.
    rewrite replace_all_run_of. fold hyphenate.
    destruct (unsafe c) eqn:Hc.
    + change (js "-" ++ hyphenate (drop_while unsafe s))
        with (45%N :: hyphenate (drop_while unsafe s)).
      assert (Hshort : length (drop_while unsafe s) <= n).
      { pose proof (drop_while_length unsafe s). lia. }
      pose proof (IH _ Hshort) as Hrest.
      cbn [separated]. change (N.eqb 45 45) with true. cbv iota.
      rewrite Hrest, andb_true_r.
      destruct (drop_while unsafe s) as [|d t] eqn:Hdrop; [reflexivity|].
      pose proof (drop_while_head _ _ Hdrop) as Hd.
      unfold hyphenate. rewrite replace_all_run_of. rewrite Hd.
      unfold unsafe in Hd. apply negb_false_iff in Hd. exact Hd.
    + cbn [separated]. rewrite (IH s); [|lia].
      unfold unsafe in Hc. apply negb_false_iff in Hc.
      destruct (N.eqb_spec c 45) as [-> | _]; [discriminate Hc|].
      rewrite Hc. reflexivity.
Qed.

Lemma hyphenate_separated (s : jsstring) : separated (hyphenate s) = true.
Proof. exact (@hyphenate_separated_upto (length s) s (le_n _)). Qed.

Lemma hyphenate_fixed (s : jsstring) :
  separated s = true -> hyphenate s = s.
Proof.
  induction s as [|c s IH]; [reflexivity|].
  cbn [separated]. intros H. apply andb_true_iff in H. destruct H as [Hc Hs].
  unfold hyphenate. rewrite replace_all_run_of. fold hyphenate.
  destruct (N.eqb_spec c 45) as [-> | Hne].
  - change (unsafe 45) with true. cbv iota.
    change (js "-" ++ hyphenate (drop_while unsafe s))
      with (45%N :: hyphenate (drop_while unsafe s)).
    destruct s as [|d t]; [reflexivity|].
    rewrite drop_while_keep; [rewrite (IH Hs); reflexivity|].
    unfold unsafe. rewrite Hc. reflexivity.
  - unfold unsafe. rewrite Hc. cbn [negb]. rewrite (IH Hs). reflexivity.
Qed.

End SlugShape.

Lemma separated_units (s : jsstring) :
  separated s = true -> forallb slug_unit_or_hyphen s = true.
Proof.
  induction s as [|c s IH]; [reflexivity|].
  cbn [separated forallb]. intros H. apply andb_true_iff in H.
  destruct H as [Hc Hs]. rewrite (IH Hs), andb_true_r.
  unfold slug_unit_or_hyphen.
  destruct (N.eqb c 45); [apply orb_true_r|]. rewrite Hc. reflexivity.
Qed.

Lemma separated_suffix (a b : jsstring) :
  separated (a ++ b) = true -> separated b = true.
Proof.
  induction a as [|c a IH]; [exact (fun H => H)|].
  cbn [app separated]. intros H. apply andb_true_iff in H. apply IH, H.
Qed.

Lemma separated_single_hyphens (s : jsstring) :
  separated s = true -> ~ occurs (js "--") s.
Proof.
  intros H [before [after ->]]. apply separated_suffix in H.
  vm_compute in H. discriminate H.
Qed.

Lemma units_separated (s : jsstring) :
  forallb slug_unit_or_hyphen s = true -> ~ occurs (js "--") s ->
  separated s = true.
Proof.
  induction s as [|c s IH]; [reflexivity|].
  cbn [forallb]. intros H Hfree. apply andb_true_iff in H.
  destruct H as [Hc Hs].
  assert (Hfree' : ~ occurs (js "--") s).
  { intros [before [after ->]]. apply Hfree. exists (c :: before), after.
    reflexivity. }
  cbn [separated]. rewrite (IH Hs Hfree'), andb_true_r.
  unfold slug_unit_or_hyphen in Hc.
  destruct (N.eqb_spec c 45) as [-> | Hne].
  - destruct s as [|d t]; [reflexivity|].
    cbn [forallb] in Hs. apply andb_true_iff in Hs. destruct Hs as [Hd _].
    unfold slug_unit_or_hyphen in Hd.
    destruct (N.eqb_spec d 45) as [-> | Hd'].
    + exfalso. apply Hfree. exists [], t. reflexivity.
    + rewrite orb_false_r in Hd. exact Hd.
  - rewrite orb_false_r in Hc. exact Hc.
Qed.

Lemma forallb_infix (p : N -> bool) (a s b : jsstring) :
  forallb p (a ++ s ++ b) = true -> forallb p s = true.
Proof.
  rewrite !forallb_app. intros H. apply andb_true_iff in H.
  destruct H as [_ H]. apply andb_true_iff in H. apply H.
Qed.

Lemma toLowerCase_slug_units (s : jsstring) :
  forallb slug_unit_or_hyphen s = true -> toLowerCase s = s.
Proof.
  induction s as [|c s IH]; [reflexivity|].
  cbn [forallb]. intros H. apply andb_true_iff in H. destruct H as [Hc Hs].
  unfold toLowerCase. cbn [flat_map]. fold (toLowerCase s). rewrite (IH Hs).
  assert (Hunit : lower_unit c = [c]).
  { unfold slug_unit_or_hyphen, is_slug_unit, is_lower, is_digit, between in Hc.
    unfold lower_unit, is_upper, between.
    destruct (N.leb_spec 65 c), (N.leb_spec c 90), (N.eqb_spec c 304),
      (N.eqb_spec c 8490); cbn [andb]; try reflexivity; exfalso;
      repeat match goal with
      | H : context [N.leb ?a ?b] |- _ => destruct (N.leb_spec a b)
      | H : context [N.eqb ?a ?b] |- _ => destruct (N.eqb_spec a b)
      end; cbn in Hc; try discriminate Hc; lia. }
  rewrite Hunit. reflexivity.
Qed.

Lemma strip_hyphens_shape (hyphenated : jsstring) :
  separated hyphenated = true -> slug_shaped (strip_hyphens hyphenated).
Proof.
  intros Hsep.
  change (strip_hyphens hyphenated) with (trim_by (N.eqb 45) hyphenated).
  destruct (trim_by_infix (N.eqb 45) hyphenated) as [a [b [Heq [_ _]]]].
  repeat split.
  - apply separated_units in Hsep. rewrite Heq in Hsep.
    exact (forallb_infix _ _ _ _ Hsep).
  - intros Hocc. apply (separated_single_hyphens Hsep). rewrite Heq.
    apply occurs_infix. exact Hocc.
  - intros rest Hrest. apply trim_by_head in Hrest. discriminate Hrest.
  - intros init Hinit. apply trim_by_last in Hinit. discriminate Hinit.
Qed.

(** X1.  Whatever the title, the slug that [generateSlug] returns is made
    only of the units [a]-[z], [0]-[9] and the hyphen, never has two
    hyphens in a row and neither begins nor ends with a hyphen. *)
Theorem generateSlug_shape (title : jsstring) :
  slug_shaped (generateSlug title).
Proof.
  unfold generateSlug. apply strip_hyphens_shape, hyphenate_separated.
Qed.

(** X2.  The slugs are exactly the texts that [generateSlug] leaves
    unchanged: a text is returned as it is if and only if it is made of
    [a]-[z], [0]-[9] and single hyphens with none at either end. *)
Theorem generateSlug_fixed_points (s : jsstring) :
  generateSlug s = s <-> slug_shaped s.
Proof.
  split.
  - intros Hfix. rewrite <- Hfix. unfold generateSlug.
    apply strip_hyphens_shape, hyphenate_separated.
  - intros [Hunits [Hfree [Hhead Hlast]]]. unfold generateSlug.
    rewrite (@toLowerCase_slug_units s Hunits).
    rewrite (@hyphenate_fixed s (@units_separated s Hunits Hfree)).
    apply (trim_by_fixed (N.eqb 45)).
    + intros c rest ->. destruct (N.eqb_spec 45 c) as [<- | _]; [|reflexivity].
      exfalso. exact (Hhead rest eq_refl).
    + intros init c ->. destruct (N.eqb_spec 45 c) as [<- | _]; [|reflexivity].
      exfalso. exact (Hlast init eq_refl).
Qed.

(* ================================================================== *)
(** * Further properties: the slug of a URL *)

Lemma drop_final_slash_elements (s : jsstring) (c : N) :
  In c (drop_final_slash s) -> In c s.
Proof.
  unfold drop_final_slash. destruct (rev s) as [|d r] eqn:Hrev;
    [exact (fun H => H)|].
  assert (Hr : In c (rev r) -> In c s).
  { intros Hin. apply in_rev. rewrite Hrev. right. apply in_rev. exact Hin. }
  destruct d as [|p]; [exact (fun H => H)|].
  repeat (destruct p as [p|p|]; try exact (fun H => H)). exact Hr.
Qed.

Lemma drop_final_slash_free (s : jsstring) :
  ~ In 47%N s -> drop_final_slash s = s.
Proof.
  intros Hfree. unfold drop_final_slash.
  destruct (rev s) as [|d r] eqn:Hrev; [reflexivity|].
  destruct d as [|p]; [reflexivity|].
  repeat (destruct p as [p|p|]; try reflexivity).
  exfalso. apply Hfree. apply in_rev. rewrite Hrev. left. reflexivity.
Qed.

Lemma skipn_prefix (a b : jsstring) : skipn (length a) (a ++ b) = b.
Proof. induction a as [|x a IH]; [reflexivity|exact IH]. Qed.

Lemma re_blog_path_needs_host (t : jsstring) :
  starts_with blog_host t = false -> re_blog_path t = None.
Proof.
  intros H. unfold re_blog_path. fold blog_host. rewrite H. reflexivity.
Qed.

Lemma re_blog_path_capture (t : jsstring) (n : nat) (cap : jsstring) :
  re_blog_path t = Some (n, cap) ->
  cap <> [] /\ ~ In 47%N cap /\ exists after, t = blog_host ++ cap ++ after.
Proof.
  unfold re_blog_path. fold blog_host.
  destruct (starts_with blog_host t) eqn:Hhost; [|discriminate].
  destruct (starts_with_app _ _ Hhost) as [tail ->].
  rewrite skipn_prefix.
  pose proof (span_all (fun c => negb (N.eqb c 47)) tail) as Hall.
  pose proof (span_app_eq (fun c => negb (N.eqb c 47)) tail) as Heq.
  destruct (fst (span (fun c => negb (N.eqb c 47)) tail)) as [|c seg] eqn:Hseg;
    [discriminate|].
  intros [= _ <-]. split; [discriminate|]. split.
  - intros Hin. apply (proj1 (forallb_forall _ _) Hall) in Hin.
    discriminate Hin.
  - exists (drop_while (fun c => negb (N.eqb c 47)) tail).
    rewrite Heq. reflexivity.
Qed.

(** C7, amended: [https://blog.cloudflare.com/my-post/] and
    [https://blog.cloudflare.com/my-post] give [my-post]; every URL that
    does not contain the text [blog.cloudflare.com/], such as the two on
    [blog.example.com] and [https://other.com/x], gives the empty
    string, and [generateSlugForPost] then falls through to the slug of
    the title.  The pattern is not anchored at the host of the URL: a
    URL on another host that contains the text further on gives what
    follows it. *)
Theorem extractSlug_cloudflare_host :
  extractSlugFromUrl (js "https://blog.cloudflare.com/my-post/") = js "my-post"
  /\ extractSlugFromUrl (js "https://blog.cloudflare.com/my-post") = js "my-post"
  /\ (forall url,
        ~ occurs (js "blog.cloudflare.com/") url -> extractSlugFromUrl url = [])
  /\ extractSlugFromUrl (js "https://blog.example.com/my-post/") = []
  /\ extractSlugFromUrl (js "https://blog.example.com/my-post") = []
  /\ extractSlugFromUrl (js "https://other.com/x") = []
  /\ (forall post,
        ~ occurs (js "blog.cloudflare.com/") (BlogPost.link post) ->
        generateSlugForPost post = generateSlug (BlogPost.title post))
  /\ extractSlugFromUrl
       (js "https://mirror.example/x?u=blog.cloudflare.com/stolen#frag")
     = js "stolen#frag".
Proof.
  assert (Habsent : forall url,
            ~ occurs (js "blog.cloudflare.com/") url ->
            extractSlugFromUrl url = []).
  { intros url Hfree. unfold extractSlugFromUrl.
    destruct (first_match re_blog_path url) as [cap|] eqn:Hmatch;
      [|reflexivity].
    destruct (first_match_some _ _ Hmatch) as [before [after [n [-> Hcap]]]].
    destruct (re_blog_path_capture _ Hcap) as [_ [_ [tail ->]]].
    exfalso. apply Hfree. exists before, (cap ++ tail). reflexivity. }
  split; [vm_compute; reflexivity|].
  split; [vm_compute; reflexivity|].
  split; [exact Habsent|].
  split; [vm_compute; reflexivity|].
  split; [vm_compute; reflexivity|].
  split; [vm_compute; reflexivity|].
  split; [|vm_compute; reflexivity].
  intros post Hfree. apply generateSlugForPost_fallback.
  exact (Habsent _ Hfree).
Qed.

(** X3.  In a URL whose first occurrence of [blog.cloudflare.com/] is
    followed by a non-empty path segment, [extractSlugFromUrl] returns
    that segment: the units up to the next slash or the end of the URL,
    whatever precedes the host name and whatever follows the segment. *)
Theorem extractSlugFromUrl_first_segment (prefix seg rest : jsstring) :
  ~ occurs blog_host prefix ->
  seg <> [] ->
  ~ In 47%N seg ->
  (rest = [] \/ exists t, rest = 47%N :: t) ->
  extractSlugFromUrl (prefix ++ blog_host ++ seg ++ rest) = seg.
Proof.
  intros Hprefix Hseg Hfree Hrest. unfold extractSlugFromUrl.
  rewrite first_match_after.
  - assert (Hhere : re_blog_path (blog_host ++ seg ++ rest)
                    = Some (length blog_host + length seg, seg)).
    { unfold re_blog_path. fold blog_host. rewrite starts_with_refl.
      rewrite skipn_prefix. rewrite span_prefix.
      - cbn [fst]. destruct seg; [contradiction Hseg; reflexivity|reflexivity].
      - apply forallb_forall. intros c Hc.
        destruct (N.eqb_spec c 47) as [-> | _]; [contradiction|reflexivity].
      - destruct Hrest as [-> | [t ->]]; [left; reflexivity|].
        right. exists 47%N, t. split; reflexivity. }
    assert (Hfirst : first_match re_blog_path (blog_host ++ seg ++ rest)
                     = Some seg).
    { change (blog_host ++ seg ++ rest)
        with (98%N :: js "log.cloudflare.com/" ++ seg ++ rest) in *.
      cbn [first_match]. rewrite Hhere. reflexivity. }
    rewrite Hfirst. destruct seg as [|c seg]; [contradiction Hseg; reflexivity|].
    cbn [truthy]. apply drop_final_slash_free. exact Hfree.
  - intros a b -> Hb. apply re_blog_path_needs_host.
    apply (@starts_with_inside 98%N (js "log.cloudflare.com/")).
    + vm_compute. intuition discriminate.
    + exact Hb.
    + apply (@occurs_suffix blog_host a b). exact Hprefix.
Qed.

Lemma extractSlugFromUrl_first_segment_witness :
  extractSlugFromUrl (js "https://blog.cloudflare.com/workers-ai/?utm=rss")
  = js "workers-ai".
Proof.
  apply (@extractSlugFromUrl_first_segment
           (js "https://") (js "workers-ai") (js "/?utm=rss")).
  - apply occursb_false. vm_compute. reflexivity.
  - discriminate.
  - vm_compute. intuition discriminate.
  - right. exists (js "?utm=rss"). reflexivity.
Defined.

(** X4.  What [extractSlugFromUrl] returns is never invented: it is the
    empty string, or a text without any slash that stands in the URL
    right after an occurrence of [blog.cloudflare.com/]; a URL without
    that host name gives the empty string. *)
Theorem extractSlugFromUrl_sound (url : jsstring) :
  (extractSlugFromUrl url = []
   \/ exists before after,
        url = before ++ blog_host ++ extractSlugFromUrl url ++ after)
  /\ ~ In 47%N (extractSlugFromUrl url)
  /\ (~ occurs blog_host url -> extractSlugFromUrl url = []).
Proof.
  unfold extractSlugFromUrl.
  destruct (first_match re_blog_path url) as [cap|] eqn:Hmatch.
  - destruct (first_match_some _ _ Hmatch) as [before [after [n [-> Hcap]]]].
    destruct (re_blog_path_capture _ Hcap) as [Hne [Hfree [tail ->]]].
    destruct cap as [|c cap]; [contradiction Hne; reflexivity|].
    cbn [truthy]. rewrite (@drop_final_slash_free _ Hfree).
    split; [|split].
    + right. exists before, tail. reflexivity.
    + exact Hfree.
    + intros Habsent. exfalso. apply Habsent.
      exists before, ((c :: cap) ++ tail). reflexivity.
  - split; [left; reflexivity|]. split; [exact (fun H => H)|reflexivity].
Qed.



(* ================================================================== *)
(** * Further properties: truncation of the prompt text *)

Lemma lastIndexOf_space_none (s : jsstring) :
  lastIndexOf_space s = None -> ~ In 32%N s.
Proof.
  induction s as [|c s IH]; [intros _ []|].
  cbn [lastIndexOf_space].
  destruct (lastIndexOf_space s) as [i|]; [discriminate|].
  destruct (N.eqb_spec c 32) as [_ | Hc]; [discriminate|].
  intros _ [Hhead | Htail]; [exact (Hc Hhead)|exact (IH eq_refl Htail)].
Qed.

(** The index that [lastIndexOf] answers splits the text at its last
    space. *)
Lemma lastIndexOf_space_some (s : jsstring) (i : nat) :
  lastIndexOf_space s = Some i ->
  exists word, s = firstn i s ++ 32%N :: word /\ ~ In 32%N word
               /\ length (firstn i s) = i.
Proof.
  revert i. induction s as [|c s IH]; [discriminate|].
  intros i. cbn [lastIndexOf_space].
  destruct (lastIndexOf_space s) as [j|] eqn:Hlast.
  - intros [= <-]. destruct (IH j eq_refl) as [word [Heq [Hfree Hlen]]].
    exists word. cbn [firstn app length]. rewrite <- Heq, Hlen.
    split; [reflexivity|]. split; [exact Hfree|reflexivity].
  - destruct (N.eqb_spec c 32) as [-> | _]; [|discriminate].
    intros [= <-]. exists s. split; [reflexivity|].
    split; [exact (lastIndexOf_space_none _ Hlast)|reflexivity].
Qed.

(** X6.  A text longer than the limit is cut at the last space among its
    first [maxChars] units and ends in three dots; when there is no space
    there after the first unit, it is cut at the limit itself. *)
Theorem truncateText_cut (text : jsstring) (maxChars : nat) :
  maxChars < length text ->
  let truncated := firstn maxChars text in
  (exists kept word,
      truncated = kept ++ 32%N :: word /\ kept <> [] /\ ~ In 32%N word
      /\ truncateText text maxChars = kept ++ js "...")
  \/ (~ In 32%N (tl truncated)
      /\ truncateText text maxChars = truncated ++ js "...").
Proof.
  intros Hlong truncated. unfold truncateText.
  destruct (Nat.leb_spec (length text) maxChars) as [Hle | _]; [lia|].
  fold truncated.
  destruct (lastIndexOf_space truncated) as [[|i]|] eqn:Hlast.
  - right. destruct (lastIndexOf_space_some _ Hlast) as [word [Heq [Hfree _]]].
    split; [|reflexivity]. rewrite Heq. exact Hfree.
  - left. destruct (lastIndexOf_space_some _ Hlast) as [word [Heq [Hfree Hlen]]].
    exists (firstn (S i) truncated), word.
    split; [exact Heq|]. split; [|split; [exact Hfree|reflexivity]].
    intros Hnil. rewrite Hnil in Hlen. discriminate Hlen.
  - right. split; [|reflexivity].
    pose proof (lastIndexOf_space_none _ Hlast) as Hfree.
    intros Hin. apply Hfree. destruct truncated; [exact Hin|right; exact Hin].
Qed.

Lemma truncateText_cut_witness :
  (exists kept word,
      firstn 12 (js "Workers AI is here") = kept ++ 32%N :: word
      /\ kept <> [] /\ ~ In 32%N word
      /\ truncateText (js "Workers AI is here") 12 = kept ++ js "...")
  \/ (~ In 32%N (tl (firstn 12 (js "Workers AI is here")))
      /\ truncateText (js "Workers AI is here") 12
         = firstn 12 (js "Workers AI is here") ++ js "...").
Proof.
  apply (@truncateText_cut (js "Workers AI is here") 12).
  vm_compute. lia.
Defined.

(** X7.  [truncateText] returns the text itself or a prefix of it
    followed by three dots, and the result is never longer than
    [maxChars + 3]; a text within the limit is returned as it is. *)
Theorem truncateText_bound (text : jsstring) (maxChars : nat) :
  length (truncateText text maxChars) <= maxChars + 3
  /\ (truncateText text maxChars = text
      \/ exists kept tail,
           text = kept ++ tail /\ tail <> []
           /\ truncateText text maxChars = kept ++ js "...")
  /\ (length text <= maxChars -> truncateText text maxChars = text).
Proof.
  unfold truncateText.
  destruct (Nat.leb_spec (length text) maxChars) as [Hle | Hlong].
  - split; [lia|]. split; [left; reflexivity|reflexivity].
  - set (truncated := firstn maxChars text).
    assert (Hlen : length truncated = maxChars).
    { unfold truncated. rewrite length_firstn. lia. }
    assert (Htext : text = truncated ++ skipn maxChars text).
    { unfold truncated. symmetry. apply firstn_skipn. }
    assert (Htail : skipn maxChars text <> []).
    { intros Hnil. apply (f_equal (@length N)) in Hnil.
      rewrite length_skipn in Hnil. cbn [length] in Hnil. lia. }
    destruct (lastIndexOf_space truncated) as [[|i]|] eqn:Hlast.
    + split; [rewrite length_app, Hlen; cbn; lia|].
      split; [|intros; lia]. right.
      exists truncated, (skipn maxChars text).
      split; [exact Htext|]. split; [exact Htail|reflexivity].
    + destruct (lastIndexOf_space_some _ Hlast) as [word [Heq [_ Hkept]]].
      assert (Hshort : S i <= maxChars).
      { rewrite <- Hlen, <- Hkept at 1. rewrite length_firstn. lia. }
      split; [rewrite length_app, Hkept; cbn; lia|].
      split; [|intros; lia]. right.
      exists (firstn (S i) truncated), ((32%N :: word) ++ skipn maxChars text).
      split; [|split; [discriminate|reflexivity]].
      rewrite app_assoc, <- Heq. exact Htext.
    + split; [rewrite length_app, Hlen; cbn; lia|].
      split; [|intros; lia]. right.
      exists truncated, (skipn maxChars text).
      split; [exact Htext|]. split; [exact Htail|reflexivity].
Qed.

(* ================================================================== *)
(** * Further properties: listing the ledger *)

Section Listing.

Variable kv : KVNamespace.

Lemma count_pages_value (fuel : nat) :
  forall (count : N) (cursor : option jsstring) (h : History)
         (r : Exc N) (h' : History),
    count_pages fuel kv count cursor h = Some (r, h') ->
    exists pages,
      h' = h ++ pages
      /\ forallb is_list pages = true
      /\ match r with
         | Ok n => existsb list_failed pages = false
                   /\ n = (count + total (map listed pages))%N
         | Throw _ => existsb list_failed pages = true
         end.
Proof.
  induction fuel as [|fuel IH]; intros count cursor h r h'; [discriminate|].
  cbn [count_pages]. unfold call.
  set (opts := {| list_prefix := js "post:"; list_limit := 1000;
                  list_cursor := cursor |}).
  destruct (kv_list kv h opts) as [result | e] eqn:Hpage.
  - set (event := EvKvList opts (Ok result)).
    assert (Hstop : forall n, Some (@Ok N n, h ++ [event]) = Some (r, h') ->
              n = (count + N.of_nat (length (keys result)))%N ->
              exists pages,
                h' = h ++ pages /\ forallb is_list pages = true
                /\ match r with
                   | Ok n => existsb list_failed pages = false
                             /\ n = (count + total (map listed pages))%N
                   | Throw _ => existsb list_failed pages = true
                   end).
    { intros n [= <- <-] ->. exists [event].
      split; [reflexivity|]. split; [reflexivity|]. split; [reflexivity|].
      cbn [map total fold_right listed event]. lia. }
    destruct (if list_complete result then None else Runtime.cursor result)
      as [[|c cs]|]; try (intros H; exact (Hstop _ H eq_refl)).
    intros Hrest. destruct (IH _ _ _ _ _ Hrest) as [pages [-> [Hall Hval]]].
    exists (event :: pages). rewrite <- app_assoc.
    split; [reflexivity|]. split; [exact Hall|].
    destruct r as [n | e].
    + destruct Hval as [Hquiet ->]. split; [exact Hquiet|].
      cbn [map total fold_right listed event]. fold (total (map listed pages)).
      lia.
    + exact Hval.
  - intros [= <- <-]. exists [EvKvList opts (Throw e)].
    split; [reflexivity|]. split; reflexivity.
Qed.

(** X8.  A call of [getProcessedPostCount] that returns never reports an
    error and only lists the ledger: its result is the sum of the sizes
    of the pages it read, or 0 as soon as one read of a page threw,
    whatever had been counted before. *)
Theorem getProcessedPostCount_value (fuel : nat) (h : History)
    (r : Exc N) (h' : History) :
  getProcessedPostCount fuel kv h = Some (r, h') ->
  exists pages,
    h' = h ++ pages
    /\ forallb is_list pages = true
    /\ r = Ok (if existsb list_failed pages then 0%N
               else total (map listed pages)).
Proof.
  unfold getProcessedPostCount.
  destruct (count_pages fuel kv 0 None h) as [[[n | e] h1]|] eqn:Hcount;
    [| |discriminate]; intros [= <- <-];
    destruct (count_pages_value _ _ _ _ Hcount) as [pages [-> [Hall Hval]]];
    exists pages; (split; [reflexivity|]); (split; [exact Hall|]).
  - destruct Hval as [-> ->]. reflexivity.
  - rewrite Hval. reflexivity.
Qed.

Lemma list_pages_bound (Hlimit : honours_limit kv) (limit : N) (fuel : nat) :
  forall (guids : list jsstring) (cursor : option jsstring) (h : History)
         (out : list jsstring) (h' : History),
    (N.of_nat (length guids) <= limit)%N ->
    list_pages fuel kv limit guids cursor h = Some (Ok out, h') ->
    (N.of_nat (length out) <= limit)%N.
Proof.
  induction fuel as [|fuel IH]; intros guids cursor h out h' Hlen;
    [discriminate|].
  cbn [list_pages]. unfold call.
  set (opts := {| list_prefix := js "post:";
                  list_limit := N.min (limit - N.of_nat (length guids)) 1000;
                  list_cursor := cursor |}).
  destruct (kv_list kv h opts) as [result | e] eqn:Hpage; [|discriminate].
  pose proof (Hlimit _ _ _ Hpage) as Hkeys. cbn [list_limit opts] in Hkeys.
  set (guids' := guids ++ map strip_post_prefix (keys result)).
  assert (Hlen' : (N.of_nat (length guids') <= limit)%N).
  { unfold guids'. rewrite length_app, length_map. lia. }
  destruct (if list_complete result then None else Runtime.cursor result)
    as [[|c cs]|]; try (intros [= <- _]; exact Hlen').
  destruct (N.ltb_spec (N.of_nat (length guids')) limit) as [Hlt | _];
    [|intros [= <- _]; exact Hlen'].
  apply IH. exact Hlen'.
Qed.

Lemma list_pages_returns (Hprogress : makes_progress kv) (limit : N)
    (fuel : nat) :
  forall (guids : list jsstring) (cursor : option jsstring) (h : History),
    N.to_nat (limit - N.of_nat (length guids)) < fuel ->
    list_pages fuel kv limit guids cursor h <> None.
Proof.
  induction fuel as [|fuel IH]; intros guids cursor h Hfuel; [lia|].
  cbn [list_pages]. unfold call.
  set (opts := {| list_prefix := js "post:";
                  list_limit := N.min (limit - N.of_nat (length guids)) 1000;
                  list_cursor := cursor |}).
  destruct (kv_list kv h opts) as [result | e] eqn:Hpage; [|discriminate].
  pose proof (Hprogress _ _ _ Hpage) as Hkeys. cbn [list_limit opts] in Hkeys.
  set (guids' := guids ++ map strip_post_prefix (keys result)).
  destruct (list_complete result); [discriminate|].
  destruct (Runtime.cursor result) as [[|c cs]|]; try discriminate.
  destruct (N.ltb_spec (N.of_nat (length guids')) limit) as [Hlt | _];
    [|discriminate].
  apply IH.
  assert (Hmore : (N.of_nat (length guids) < N.of_nat (length guids'))%N).
  { assert (Hne : keys result <> []).
    { apply Hkeys; [|reflexivity].
      assert (Hle : (N.of_nat (length guids) <= N.of_nat (length guids'))%N).
      { unfold guids'. rewrite length_app. lia. }
      lia. }
    unfold guids'. rewrite length_app, length_map.
    destruct (keys result) as [|k ks]; [contradiction Hne; reflexivity|].
    cbn [length]. lia. }
  lia.
Qed.

(** X9.  With a store that honours the limit of a request and makes
    progress, [getProcessedPosts] returns after at most [limit + 1]
    pages, never with an error, and never with more than [limit]
    guids. *)
Theorem getProcessedPosts_bounded (limit : N) (h : History) :
  honours_limit kv -> makes_progress kv ->
  exists guids h',
    getProcessedPosts (S (N.to_nat limit)) kv limit h = Some (Ok guids, h')
    /\ (N.of_nat (length guids) <= limit)%N.
Proof.
  intros Hlimit Hprogress. unfold getProcessedPosts.
  pose proof (@list_pages_returns Hprogress limit (S (N.to_nat limit)) []
                None h) as Hreturns.
  destruct (list_pages (S (N.to_nat limit)) kv limit [] None h)
    as [[[guids | e] h1]|] eqn:Hpages.
  - exists guids, h1. split; [reflexivity|].
    apply (@list_pages_bound Hlimit limit (S (N.to_nat limit)) [] None h
             guids h1); [|exact Hpages].
    cbn [length]. lia.
  - exists [], h1. split; [reflexivity|]. cbn [length]. lia.
  - exfalso. apply Hreturns; [|reflexivity]. cbn [length]. lia.
Qed.

End Listing.

Lemma paged_kv_honours_limit : honours_limit paged_kv.
Proof.
  intros h opts result [= <-]. cbn [keys].
  rewrite length_firstn. lia.
Qed.

Lemma paged_kv_makes_progress : makes_progress paged_kv.
Proof.
  intros h opts result [= <-] Hlimit. cbn [keys list_complete].
  destruct (list_cursor opts); [discriminate|]. intros _.
  destruct (N.to_nat (list_limit opts)) eqn:Hn; [lia|discriminate].
Qed.

Lemma getProcessedPostCount_value_witness :
  match getProcessedPostCount 3 paged_kv [] with
  | Some (r, h') =>
      exists pages,
        h' = [] ++ pages
        /\ forallb is_list pages = true
        /\ r = Ok (if existsb list_failed pages then 0%N
                   else total (map listed pages))
  | None => False
  end.
Proof.
  destruct (getProcessedPostCount 3 paged_kv []) as [[r h']|] eqn:Hrun.
  - exact (@getProcessedPostCount_value paged_kv 3 [] r h' Hrun).
  - vm_compute in Hrun. discriminate Hrun.
Defined.

Lemma getProcessedPosts_bounded_witness :
  exists guids h',
    getProcessedPosts 3 paged_kv 2 [] = Some (Ok guids, h')
    /\ (N.of_nat (length guids) <= 2)%N.
Proof.
  apply (@getProcessedPosts_bounded paged_kv 2 []).
  - exact paged_kv_honours_limit.
  - exact paged_kv_makes_progress.
Defined.

(* ================================================================== *)
(** * Further properties: publishing *)

Section Publishing.

Variable W : World.
Variable config : GitHubConfig.

(** What one call of [publishToGitHub] adds to the history. *)
Lemma publishToGitHub_outcome (postSummary : BlogPostSummary.t) (h : History) :
  exists published events,
    publishToGitHub W config postSummary h = (Ok published, h ++ events)
    /\ length (filter accepted_put events) = (if published then 1 else 0)
    /\ filter (is_pause 1000) events = []
    /\ length events <= 2
    /\ hd_error events
       = Some (EvFetch (sha_request config (filePath_of postSummary))
                 (world_fetch W h
                    (sha_request config (filePath_of postSummary)))).
Proof.
  pose proof (@publishToGitHub_run W config postSummary h) as Hrun.
  cbn zeta in Hrun. rewrite Hrun. clear Hrun.
  destruct (Json.btoa (artifact_text postSummary)) as [base64Content | e].
  - eexists. eexists. split; [rewrite <- app_assoc; reflexivity|].
    cbn [app filter accepted_put is_put req_method sha_request put_request
         is_pause andb length hd_error].
    destruct (write_accepted _); repeat split; cbn [length]; lia.
  - exists false. eexists. split; [reflexivity|].
    cbn [filter accepted_put is_put req_method sha_request is_pause andb
         length hd_error].
    repeat split; lia.
Qed.

(** X10.  [publishToGitHub] never throws.  It issues at most two
    requests, the first one the GET of the path of the artifact, and it
    answers [true] exactly when one of them is a PUT that the store
    accepted. *)
Theorem publishToGitHub_total (postSummary : BlogPostSummary.t) (h : History) :
  exists published events,
    publishToGitHub W config postSummary h = (Ok published, h ++ events)
    /\ (published = true <-> existsb accepted_put events = true)
    /\ length events <= 2
    /\ hd_error events
       = Some (EvFetch (sha_request config (filePath_of postSummary))
                 (world_fetch W h
                    (sha_request config (filePath_of postSummary)))).
Proof.
  destruct (publishToGitHub_outcome postSummary h)
    as [published [events [Hrun [Hcount [_ [Hlen Hhead]]]]]].
  exists published, events. split; [exact Hrun|].
  split; [|split; [exact Hlen|exact Hhead]].
  destruct (existsb accepted_put events) eqn:Hex.
  - destruct published; [split; reflexivity|].
    apply existsb_exists in Hex. destruct Hex as [e [Hin He]].
    assert (Hfil : In e (filter accepted_put events)).
    { apply filter_In. split; assumption. }
    destruct (filter accepted_put events); [destruct Hfil|discriminate Hcount].
  - destruct published; [|split; discriminate].
    rewrite (filter_none _ _ Hex) in Hcount. discriminate Hcount.
Qed.

Lemma publish_loop_run (postSummaries : list BlogPostSummary.t) :
  forall (successCount : N) (h : History),
  exists events,
    publish_loop W config postSummaries successCount h
    = (Ok (successCount + N.of_nat (length (filter accepted_put events)))%N,
       h ++ events)
    /\ length (filter accepted_put events) <= length postSummaries
    /\ length (filter (is_pause 1000) events) = length postSummaries
    /\ forall postSummary, In postSummary postSummaries ->
         exists res,
           In (EvFetch (sha_request config (filePath_of postSummary)) res)
              events.
Proof.
  induction postSummaries as [|postSummary rest IH]; intros successCount h.
  - exists []. cbn [publish_loop]. unfold ret. rewrite app_nil_r, N.add_0_r.
    split; [reflexivity|]. split; [reflexivity|]. split; [reflexivity|].
    intros a [].
  - cbn [publish_loop]. unfold bind at 1.
    destruct (publishToGitHub_outcome postSummary h)
      as [published [events [Hrun [Hcount [Hquiet [_ Hhead]]]]]].
    rewrite Hrun. unfold bind at 1, sleep at 1.
    destruct (IH (if published then (successCount + 1)%N else successCount)
                 ((h ++ events) ++ [EvSleep 1000]))
      as [more [Hrest [Hle [Hpauses Hreads]]]].
    exists (events ++ [EvSleep 1000] ++ more).
    rewrite Hrest, <- !app_assoc. rewrite !filter_app, !length_app.
    rewrite Hquiet, Hcount, Hpauses.
    cbn [filter accepted_put is_pause N.eqb Pos.eqb length app].
    split; [apply f_equal2; [apply f_equal|reflexivity];
            destruct published; lia|].
    split; [destruct published; lia|]. split; [reflexivity|].
    intros a [<- | Hin].
    + eexists. apply in_or_app. left.
      destruct events as [|e events']; [discriminate Hhead|].
      cbn [hd_error] in Hhead. injection Hhead as ->. left. reflexivity.
    + destruct (Hreads a Hin) as [res Hres]. exists res.
      apply in_or_app. right. right. exact Hres.
Qed.

(** X11.  [publishMultipleToGitHub] never throws and gives up on no
    artifact: each one has its path read, failures before it or not;
    one pause of a second follows each artifact, and the count returned
    is the number of PUTs that the store accepted, at most one for each
    artifact. *)
Theorem publishMultipleToGitHub_counts (postSummaries : list BlogPostSummary.t)
    (h : History) :
  exists events,
    publishMultipleToGitHub W config postSummaries h
    = (Ok (N.of_nat (length (filter accepted_put events))), h ++ events)
    /\ length (filter accepted_put events) <= length postSummaries
    /\ length (filter (is_pause 1000) events) = length postSummaries
    /\ forall postSummary, In postSummary postSummaries ->
         exists res,
           In (EvFetch (sha_request config (filePath_of postSummary)) res)
              events.
Proof.
  unfold publishMultipleToGitHub.
  destruct (publish_loop_run postSummaries 0 h) as [events Hrun].
  exists events. exact Hrun.
Qed.

End Publishing.

(* ================================================================== *)
(** * Further properties: summaries *)

Lemma trim_by_idempotent (p : N -> bool) (s : jsstring) :
  trim_by p (trim_by p s) = trim_by p s.
Proof.
  apply trim_by_fixed.
  - intros c rest Heq. exact (@trim_by_head p s rest c Heq).
  - intros init c Heq. exact (@trim_by_last p s init c Heq).
Qed.

Lemma backoff_trace_calls (post : BlogPost.t) (answers : list (Exc AiResponse)) :
  forall attempt,
    length (filter is_ai_run (backoff_trace post attempt answers))
    = length answers
    /\ forall res, In res answers ->
         In (EvAiRun AI_MODEL (inputs_for post) res)
            (backoff_trace post attempt answers).
Proof.
  induction answers as [|res more IH]; intros attempt.
  - split; [reflexivity|intros res []].
  - cbn [backoff_trace filter is_ai_run length].
    destruct more as [|res' more'].
    + split; [reflexivity|]. intros r [<- | []]. left. reflexivity.
    + destruct (IH (attempt + 1)%N) as [Hcount Hin].
      cbn [filter is_ai_run]. rewrite Hcount. split; [reflexivity|].
      intros r [<- | Hr]; [left; reflexivity|].
      right. right. exact (Hin r Hr).
Qed.

Lemma last_in {A} (l : list A) (d : A) : l <> [] -> In (last l d) l.
Proof.
  induction l as [|x l IH]; [intros H; contradiction H; reflexivity|].
  intros _. destruct l as [|y l]; [left; reflexivity|].
  right. apply IH. discriminate.
Qed.

Section Summaries.

Variable ai : Ai.

(** What one call of [generateSummary] adds to the history, and what it
    returns. *)
Lemma generateSummary_outcome (post : BlogPost.t) (options : SummarizeOptions)
    (h : History) :
  exists events,
    snd (generateSummary ai post options h) = h ++ events
    /\ 1 <= length (filter is_ai_run events) <= 3
    /\ existsb is_put events = false
    /\ existsb is_kv_put events = false
    /\ forall text,
         fst (generateSummary ai post options h) = Ok text ->
         exists summary res,
           text = returned_text options summary
           /\ 50 <= length summary
           /\ trim summary = summary
           /\ attempt_outcome res = Ok summary
           /\ In (EvAiRun AI_MODEL (inputs_for post) res) events.
Proof.
  destruct (generateSummary_attempts ai post options h)
    as [answers [Hlen [_ [Hsnd [_ Hlast]]]]].
  destruct (backoff_trace_calls post answers 1) as [Hcalls Hin].
  destruct (backoff_trace_quiet post answers 1) as [Hkv Hput].
  exists (backoff_trace post 1 answers).
  split; [exact Hsnd|]. split; [rewrite Hcalls; exact Hlen|].
  split; [exact Hput|]. split; [exact Hkv|].
  intros text Htext.
  assert (Hne : answers <> []).
  { intros ->. cbn [length] in Hlen. lia. }
  pose proof (last_in (Ok RespOther) Hne) as Hmember.
  set (res := last answers (Ok RespOther)) in *.
  destruct (attempt_outcome res) as [summary | e] eqn:Hout.
  - rewrite Htext in Hlast. injection Hlast as ->.
    exists summary, res.
    assert (Hvalid : summary = trim summary /\ 50 <= length summary).
    { destruct res as [response | e]; [|discriminate Hout].
      cbn [attempt_outcome] in Hout.
      destruct (response_text response) as [raw | e]; [|discriminate Hout].
      destruct (checked_summary_valid _ Hout) as [-> Hlong].
      split; [|exact Hlong]. symmetry. exact (trim_by_idempotent is_space raw). }
    destruct Hvalid as [Htrim Hlong].
    split; [reflexivity|]. split; [exact Hlong|].
    split; [symmetry; exact Htrim|]. split; [exact Hout|].
    exact (Hin res Hmember).
  - destruct Hlast as [_ Hthrow]. rewrite Htext in Hthrow. discriminate Hthrow.
Qed.

(** X12.  A text that [generateSummary] returns is never made up: it is
    the disclaimer (unless switched off) followed by an answer of the
    backend to the prompt of this post, stripped of the white space at
    its ends and at least 50 units long; the call asks the backend
    between one and three times. *)
Theorem generateSummary_returns_checked (post : BlogPost.t)
    (options : SummarizeOptions) (h : History) (text : jsstring) :
  fst (generateSummary ai post options h) = Ok text ->
  exists summary res events,
    text = returned_text options summary
    /\ 50 <= length summary
    /\ trim summary = summary
    /\ attempt_outcome res = Ok summary
    /\ snd (generateSummary ai post options h) = h ++ events
    /\ In (EvAiRun AI_MODEL (inputs_for post) res) events
    /\ 1 <= length (filter is_ai_run events) <= 3.
Proof.
  intros Htext.
  destruct (generateSummary_outcome post options h)
    as [events [Hsnd [Hcalls [_ [_ Hok]]]]].
  destruct (Hok text Htext) as [summary [res [Heq [Hlong [Htrim [Hout Hin]]]]]].
  exists summary, res, events. repeat split; try assumption; apply Hcalls.
Qed.

Lemma summaries_loop_run (options : SummarizeOptions) (posts : list BlogPost.t) :
  forall (summaries : list jsstring) (h : History),
  exists texts events,
    summaries_loop ai posts options summaries h
    = (Ok (summaries ++ texts), h ++ events)
    /\ Forall2 (fun post text =>
                  text = fallback
                  \/ exists summary res,
                       text = returned_text options summary
                       /\ 50 <= length summary
                       /\ attempt_outcome res = Ok summary
                       /\ In (EvAiRun AI_MODEL (inputs_for post) res) events)
               posts texts
    /\ length (filter is_ai_run events) <= 3 * length posts
    /\ existsb is_put events = false
    /\ existsb is_kv_put events = false.
Proof.
  induction posts as [|post rest IH]; intros summaries h.
  - exists [], []. cbn [summaries_loop]. unfold ret. rewrite !app_nil_r.
    split; [reflexivity|]. split; [constructor|]. split; [cbn; lia|].
    split; reflexivity.
  - cbn [summaries_loop]. unfold bind at 1, try_catch, bind, ret.
    destruct (generateSummary_outcome post options h)
      as [events [Hsnd [Hcalls [Hput [Hkv Hok]]]]].
    destruct (generateSummary ai post options h) as [[text | e] h1] eqn:Hgen;
      cbn [fst snd] in Hsnd, Hok; subst h1.
    + destruct (IH (summaries ++ [text]) (h ++ events))
        as [texts [more [Hrest [Hall [Hmore [Hput' Hkv']]]]]].
      exists (text :: texts), (events ++ more).
      rewrite Hrest, <- !app_assoc. split; [reflexivity|].
      split; [|rewrite filter_app, length_app, !existsb_app, Hput, Hput', Hkv,
                 Hkv'; cbn [length]; repeat split; lia].
      constructor.
      * right. destruct (Hok text eq_refl)
          as [summary [res [Heq [Hlong [_ [Hout Hin]]]]]].
        exists summary, res. repeat split; try assumption.
        apply in_or_app. left. exact Hin.
      * eapply Forall2_impl; [|exact Hall].
        intros p t [Hfb | [summary [res [Heq [Hlong [Hout Hin]]]]]];
          [left; exact Hfb|right].
        exists summary, res. repeat split; try assumption.
        apply in_or_app. right. exact Hin.
    + destruct (IH (summaries ++ [fallback]) (h ++ events))
        as [texts [more [Hrest [Hall [Hmore [Hput' Hkv']]]]]].
      exists (fallback :: texts), (events ++ more).
      rewrite Hrest, <- !app_assoc. split; [reflexivity|].
      split; [|rewrite filter_app, length_app, !existsb_app, Hput, Hput', Hkv,
                 Hkv'; cbn [length]; repeat split; lia].
      constructor; [left; reflexivity|].
      eapply Forall2_impl; [|exact Hall].
      intros p t [Hfb | [summary [res [Heq [Hlong [Hout Hin]]]]]];
        [left; exact Hfb|right].
      exists summary, res. repeat split; try assumption.
      apply in_or_app. right. exact Hin.
Qed.

(** X13.  [generateSummaries] never throws and returns one text for each
    post, in the order of the posts: the checked answer of the backend
    to the prompt of that post, or the fallback text.  It asks the
    backend at most three times for each post and writes nothing. *)
Theorem generateSummaries_one_text_each (posts : list BlogPost.t)
    (options : SummarizeOptions) (h : History) :
  exists texts events,
    generateSummaries ai posts options h = (Ok texts, h ++ events)
    /\ Forall2 (fun post text =>
                  text = fallback
                  \/ exists summary res,
                       text = returned_text options summary
                       /\ 50 <= length summary
                       /\ attempt_outcome res = Ok summary
                       /\ In (EvAiRun AI_MODEL (inputs_for post) res) events)
               posts texts
    /\ length (filter is_ai_run events) <= 3 * length posts
    /\ existsb is_put events = false
    /\ existsb is_kv_put events = false.
Proof.
  unfold generateSummaries.
  destruct (summaries_loop_run options posts [] h) as [texts [events Hrun]].
  exists texts, events. exact Hrun.
Qed.

End Summaries.

Lemma generateSummary_returns_checked_witness :
  exists summary res events,
    disclaimer ++ Scenario.long_text = returned_text no_options summary
    /\ 50 <= length summary
    /\ trim summary = summary
    /\ attempt_outcome res = Ok summary
    /\ snd (generateSummary Scenario.picky_ai Scenario.post1 no_options [])
       = [] ++ events
    /\ In (EvAiRun AI_MODEL (inputs_for Scenario.post1) res) events
    /\ 1 <= length (filter is_ai_run events) <= 3.
Proof.
  apply (@generateSummary_returns_checked Scenario.picky_ai Scenario.post1
           no_options [] (disclaimer ++ Scenario.long_text)).
  vm_compute. reflexivity.
Defined.

(* ================================================================== *)
(** * Further properties: the start of a run *)

Lemma createGitHubConfig_inputs (env : Env) (config : GitHubConfig) :
  createGitHubConfig env = Some config ->
  GITHUB_TOKEN env = Some (token config)
  /\ GITHUB_OWNER env = Some (owner config)
  /\ GITHUB_REPO env = Some (repo config)
  /\ token config <> [] /\ owner config <> [] /\ repo config <> [].
Proof.
  unfold createGitHubConfig, validateGitHubConfig. cbn [token owner repo].
  destruct (GITHUB_TOKEN env) as [[|t ts]|]; cbn [truthy andb];
    try discriminate;
    destruct (GITHUB_OWNER env) as [[|o os]|]; cbn [truthy andb];
      try discriminate;
    destruct (GITHUB_REPO env) as [[|r rs]|]; cbn [truthy andb];
      try discriminate.
  intros [= <-]. cbn [token owner repo].
  repeat split; discriminate.
Qed.

(** X14.  [createGitHubConfig] answers a configuration exactly when the
    three secrets are all set and none of them is empty, and the
    configuration then holds the three secrets as they are. *)
Theorem createGitHubConfig_complete (env : Env) (config : GitHubConfig) :
  createGitHubConfig env = Some config
  <-> (GITHUB_TOKEN env = Some (token config)
       /\ GITHUB_OWNER env = Some (owner config)
       /\ GITHUB_REPO env = Some (repo config)
       /\ token config <> [] /\ owner config <> [] /\ repo config <> []).
Proof.
  split; [apply createGitHubConfig_inputs|].
  unfold createGitHubConfig, validateGitHubConfig. cbn [token owner repo].
  - destruct config as [t o r]. cbn [token owner repo].
    intros [-> [-> [-> [Ht [Ho Hr]]]]].
    destruct t; [contradiction Ht; reflexivity|].
    destruct o; [contradiction Ho; reflexivity|].
    destruct r; [contradiction Hr; reflexivity|].
    reflexivity.
Qed.

Section RunStart.

Variable W : World.

Lemma fetchBlogPosts_history (options : RSSParserOptions) (h : History) :
  snd (fetchBlogPosts W options h)
  = h ++ [EvFetch (feed_request (feedUrl options))
            (world_fetch W h (feed_request (feedUrl options)))].
Proof.
  unfold fetchBlogPosts. run.
  destruct (world_fetch W h (feed_request (feedUrl options)))
    as [response | e]; [|reflexivity].
  destruct (ok response); cbn [negb]; [|reflexivity].
  destruct (resp_text response) as [xmlText | e]; [|reflexivity].
  destruct (parseRSSFeed xmlText); reflexivity.
Qed.

Lemma fetchBlogPosts_unreadable (options : RSSParserOptions) (h : History) :
  feed_unreadable (world_fetch W h (feed_request (feedUrl options))) ->
  is_ok (fst (fetchBlogPosts W options h)) = false.
Proof.
  unfold fetchBlogPosts, feed_unreadable. run.
  destruct (world_fetch W h (feed_request (feedUrl options)))
    as [response | e]; [|reflexivity].
  intros [Hstatus | Hbody].
  - rewrite Hstatus. reflexivity.
  - destruct (ok response); cbn [negb]; [|reflexivity].
    destruct (resp_text response) as [xmlText | e]; [discriminate Hbody|].
    reflexivity.
Qed.

(** X15.  A run without the summariser binding, or with one of the three
    GitHub secrets missing or empty, throws before it does anything: no
    request, no call of the backend, no access to the ledger. *)
Theorem scheduled_unconfigured (fuel : nat) (env : Env) (h : History) :
  AI env = None
  \/ (forall t, GITHUB_TOKEN env = Some t -> t = [])
  \/ (forall o, GITHUB_OWNER env = Some o -> o = [])
  \/ (forall r, GITHUB_REPO env = Some r -> r = []) ->
  exists e, scheduled fuel W env h = Some (Throw e, h).
Proof.
  intros Hmissing. unfold scheduled.
  destruct (AI env) as [ai|]; [|eexists; reflexivity].
  assert (Hconfig : createGitHubConfig env = None).
  { destruct (createGitHubConfig env) as [config|] eqn:Hcfg; [|reflexivity].
    apply createGitHubConfig_inputs in Hcfg.
    destruct Hcfg as [Ht [Ho [Hr [Hnt [Hno Hnr]]]]].
    destruct Hmissing as [Hai | [Hm | [Hm | Hm]]];
      [discriminate Hai|exfalso..].
    - exact (Hnt (Hm _ Ht)).
    - exact (Hno (Hm _ Ho)).
    - exact (Hnr (Hm _ Hr)). }
  rewrite Hconfig. eexists. reflexivity.
Qed.

(** X16.  When the feed cannot be read, the run throws after that one
    request, whatever the other bindings would have answered: it calls
    no backend, reads and writes no ledger, and writes nothing to the
    repository. *)
Theorem scheduled_feed_failure (fuel : nat) (env : Env) (h : History)
    (ai : Ai) (config : GitHubConfig) :
  AI env = Some ai ->
  createGitHubConfig env = Some config ->
  feed_unreadable (world_fetch W h (feed_request (RSS_FEED_URL env))) ->
  exists e,
    scheduled fuel W env h
    = Some (Throw e,
            h ++ [EvFetch (feed_request (RSS_FEED_URL env))
                    (world_fetch W h (feed_request (RSS_FEED_URL env)))]).
Proof.
  intros Hai Hconfig Hfeed. unfold scheduled. rewrite Hai, Hconfig.
  set (options := {| feedUrl := RSS_FEED_URL env;
                     maxPosts := Some (parseInt10 (POSTS_TO_FETCH env)) |}).
  pose proof (fetchBlogPosts_history options h) as Hhistory.
  pose proof (fetchBlogPosts_unreadable options h Hfeed) as Hthrows.
  destruct (fetchBlogPosts W options h) as [[posts | e] h1];
    cbn [fst snd is_ok] in *; [discriminate Hthrows|].
  exists e. rewrite Hhistory. reflexivity.
Qed.

End RunStart.

Lemma scheduled_unconfigured_witness :
  exists e, scheduled 0 Scenario.broken_world unconfigured_env [] = Some (Throw e, []).
Proof.
  apply (@scheduled_unconfigured Scenario.broken_world 0 unconfigured_env []).
  right. right. left. intros o Ho. vm_compute in Ho.
  injection Ho as <-. reflexivity.
Defined.

Lemma scheduled_feed_failure_witness :
  exists e,
    scheduled 0 Scenario.broken_world
      (Scenario.worker_env Scenario.picky_ai None) []
    = Some (Throw e,
            [] ++ [EvFetch (feed_request Scenario.feed_url)
                     (world_fetch Scenario.broken_world []
                        (feed_request Scenario.feed_url))]).
Proof.
  apply (@scheduled_feed_failure Scenario.broken_world 0
           (Scenario.worker_env Scenario.picky_ai None) []
           Scenario.picky_ai Scenario.config).
  - reflexivity.
  - vm_compute. reflexivity.
  - left. vm_compute. reflexivity.
Defined.

(* ================================================================== *)
(** * Further properties: the ledger in a run *)

Lemma filter_new_reads (kv : KVNamespace)
    (store : jsstring -> Exc (option jsstring)) (posts : list BlogPost.t) :
  stable_reads kv store ->
  forall (newPosts : list BlogPost.t) (h : History),
    filter_new kv posts newPosts h
    = (Ok (newPosts ++ filter (fun post => negb (recorded store post)) posts),
       h ++ map (fun post =>
                   EvKvGet (getPostKey (BlogPost.guid post))
                     (store (getPostKey (BlogPost.guid post)))) posts).
Proof.
  intros Hstable. induction posts as [|post rest IH]; intros newPosts h.
  - cbn [filter_new filter map]. unfold ret. rewrite !app_nil_r. reflexivity.
  - cbn [filter_new]. unfold bind at 1. rewrite isPostProcessed_run.
    cbn zeta. rewrite Hstable, IH. cbn [filter map]. unfold recorded at 2.
    rewrite <- !app_assoc.
    destruct (store (getPostKey (BlogPost.guid post))) as [[value|]|e];
      cbn [negb app]; rewrite <- ?app_assoc; reflexivity.
Qed.

(** X17.  With a ledger whose reads do not change during the run, the
    filtering keeps, in the order of the feed, exactly the posts whose
    key [post:<guid>] has no record, and those whose read throws; it
    reads each key once, in that order, and does nothing else. *)
Theorem filter_new_keeps_unrecorded (kv : KVNamespace)
    (store : jsstring -> Exc (option jsstring)) (posts : list BlogPost.t)
    (h : History) :
  stable_reads kv store ->
  filter_new kv posts [] h
  = (Ok (filter (fun post => negb (recorded store post)) posts),
     h ++ map (fun post =>
                 EvKvGet (getPostKey (BlogPost.guid post))
                   (store (getPostKey (BlogPost.guid post)))) posts).
Proof.
  intros Hstable. exact (@filter_new_reads kv store posts Hstable [] h).
Qed.

Lemma filter_new_keeps_unrecorded_witness :
  filter_new paged_kv [Scenario.post1; Scenario.post2] [] []
  = (Ok (filter (fun post => negb (recorded (kv_get paged_kv []) post))
                [Scenario.post1; Scenario.post2]),
     [] ++ map (fun post =>
                  EvKvGet (getPostKey (BlogPost.guid post))
                    (kv_get paged_kv [] (getPostKey (BlogPost.guid post))))
               [Scenario.post1; Scenario.post2]).
Proof.
  apply (@filter_new_keeps_unrecorded paged_kv (kv_get paged_kv [])).
  intros h key. reflexivity.
Defined.

Lemma backoff_trace_off_ledger (post : BlogPost.t)
    (answers : list (Exc AiResponse)) :
  forall attempt,
    existsb touches_ledger (backoff_trace post attempt answers) = false.
Proof.
  induction answers as [|res more IH]; intros attempt; [reflexivity|].
  cbn [backoff_trace existsb touches_ledger orb].
  destruct more as [|res' more']; [reflexivity|].
  cbn [existsb touches_ledger orb]. apply IH.
Qed.

Section Unbound.

Variable W : World.
Variable env : Env.
Variable ai : Ai.
Variable githubConfig : GitHubConfig.
Hypothesis Hunbound : PROCESSED_POSTS env = None.

Lemma process_post_off_ledger (post : BlogPost.t) (h : History) :
  exists events,
    snd (process_post W env ai githubConfig post h) = h ++ events
    /\ existsb touches_ledger events = false.
Proof.
  rewrite process_post_run. cbn zeta.
  destruct (generateSummary_trace ai post no_options h) as [res [more Hgen]].
  pose proof (backoff_trace_off_ledger post (res :: more) 1) as Hquiet.
  destruct (generateSummary ai post no_options h) as [[summary | e] h1];
    cbn [fst snd] in *; subst h1.
  - destruct (publishToGitHub_outcome W githubConfig
                (createBlogPostSummary post summary)
                (h ++ backoff_trace post 1 (res :: more)))
      as [published [events [Hrun [_ [_ [Hlen Hhead]]]]]].
    assert (Hfetches : existsb touches_ledger events = false).
    { pose proof (@publishToGitHub_run W githubConfig
                    (createBlogPostSummary post summary)
                    (h ++ backoff_trace post 1 (res :: more))) as Hpub.
      cbn zeta in Hpub. rewrite Hpub in Hrun.
      destruct (Json.btoa _) in Hrun; injection Hrun as _ Hh;
        rewrite <- ?app_assoc in Hh; apply app_inv_head in Hh;
        apply app_inv_head in Hh; subst events; reflexivity. }
    rewrite Hrun. cbn [fst snd]. rewrite Hunbound.
    exists (backoff_trace post 1 (res :: more) ++ events).
    rewrite existsb_app, Hquiet, Hfetches.
    destruct published; cbn [snd]; rewrite <- app_assoc; split; reflexivity.
  - exists (backoff_trace post 1 (res :: more)). split; [reflexivity|exact Hquiet].
Qed.

Lemma post_runs_off_ledger (newPosts : list BlogPost.t) :
  forall h,
  exists events,
    history_after (post_runs W env ai githubConfig newPosts h) h = h ++ events
    /\ existsb touches_ledger events = false.
Proof.
  induction newPosts as [|post rest IH]; intros h.
  - exists []. cbn [post_runs history_after]. rewrite app_nil_r.
    split; reflexivity.
  - cbn [post_runs history_after].
    destruct (process_post_off_ledger post h) as [events [Hrun Hquiet]].
    rewrite Hrun. destruct (IH (h ++ events)) as [more [Hrest Hquiet']].
    exists (events ++ more). rewrite Hrest, <- app_assoc, existsb_app, Hquiet,
      Hquiet'. split; reflexivity.
Qed.

End Unbound.

(** X18.  Without the ledger binding a run ends, by a return or by a
    throw, whatever the bound on the listing, and none of the events it
    adds is an access to a ledger: no read, no write, no listing. *)
Theorem scheduled_without_ledger (fuel : nat) (W : World) (env : Env)
    (h : History) :
  PROCESSED_POSTS env = None ->
  exists r events,
    scheduled fuel W env h = Some (r, h ++ events)
    /\ existsb touches_ledger events = false.
Proof.
  intros Hunbound. unfold scheduled.
  destruct (AI env) as [ai|];
    [|eexists; exists []; rewrite app_nil_r; split; reflexivity].
  destruct (createGitHubConfig env) as [githubConfig|];
    [|eexists; exists []; rewrite app_nil_r; split; reflexivity].
  set (options := {| feedUrl := RSS_FEED_URL env;
                     maxPosts := Some (parseInt10 (POSTS_TO_FETCH env)) |}).
  pose proof (fetchBlogPosts_history W options h) as Hfetch.
  destruct (fetchBlogPosts W options h) as [[posts | e] h1];
    cbn [snd] in Hfetch; subst h1;
    [|eexists; eexists; split; reflexivity].
  unfold after_fetch. rewrite Hunbound.
  destruct posts as [|post rest];
    [eexists; eexists; split; reflexivity|].
  rewrite process_loop_run. cbn zeta.
  destruct (@post_runs_off_ledger W env ai githubConfig Hunbound (post :: rest)
              (h ++ [EvFetch (feed_request (feedUrl options))
                       (world_fetch W h (feed_request (feedUrl options)))]))
    as [events [Hruns Hquiet]].
  rewrite Hruns. eexists. eexists.
  split; [rewrite <- app_assoc; reflexivity|].
  cbn [app existsb touches_ledger orb]. exact Hquiet.
Qed.

Lemma scheduled_without_ledger_witness :
  exists r events,
    scheduled 0 Scenario.pipeline_world
      (Scenario.worker_env Scenario.picky_ai None) []
    = Some (r, [] ++ events)
    /\ existsb touches_ledger events = false.
Proof.
  apply (@scheduled_without_ledger 0 Scenario.pipeline_world
           (Scenario.worker_env Scenario.picky_ai None) []).
  reflexivity.
Defined.

(* ================================================================== *)
(** * Further properties: entities *)

Lemma replace_scan_prefix (m : matcher) (c0 : N) (a s : jsstring) :
  (forall c t, c <> c0 -> m (c :: t) = None) ->
  ~ In c0 a ->
  replace_scan m 0 (a ++ s) = a ++ replace_scan m 0 s.
Proof.
  intros Hm. induction a as [|c a IH]; intros Hfree; [reflexivity|].
  cbn [app replace_scan]. rewrite Hm.
  - rewrite IH; [reflexivity|]. intros Hin. apply Hfree. right. exact Hin.
  - intros ->. apply Hfree. left. reflexivity.
Qed.

(** A pattern that fails at the only [c0] of a text leaves the text as
    it is. *)
Lemma replace_all_miss (m : matcher) (c0 : N) (a t : jsstring) :
  (forall c t', c <> c0 -> m (c :: t') = None) ->
  ~ In c0 a -> ~ In c0 t ->
  m (c0 :: t) = None ->
  replace_all m (a ++ c0 :: t) = a ++ c0 :: t.
Proof.
  intros Hm Ha Ht Hmiss. unfold replace_all.
  rewrite (@replace_scan_prefix m c0 a (c0 :: t) Hm Ha).
  cbn [replace_scan]. rewrite Hmiss.
  fold (replace_all m t). rewrite (@replace_all_untouched m c0 t Hm Ht). reflexivity.
Qed.

(** A pattern that matches [n] units at the only [c0] of a text puts its
    replacement there. *)
Lemma replace_all_hit (m : matcher) (c0 : N) (a lexeme b repl : jsstring) :
  (forall c t', c <> c0 -> m (c :: t') = None) ->
  ~ In c0 a -> ~ In c0 b ->
  m (c0 :: lexeme ++ b) = Some (S (length lexeme), repl) ->
  replace_all m (a ++ (c0 :: lexeme) ++ b) = a ++ repl ++ b.
Proof.
  intros Hm Ha Hb Hhit. unfold replace_all.
  rewrite (@replace_scan_prefix m c0 a ((c0 :: lexeme) ++ b) Hm Ha).
  cbn [app replace_scan]. rewrite Hhit. rewrite replace_scan_skip.
  fold (replace_all m b). rewrite (@replace_all_untouched m c0 b Hm Hb). reflexivity.
Qed.

Lemma starts_with_head (c0 : N) (p : jsstring) (c : N) (t : jsstring) :
  c <> c0 -> starts_with (c0 :: p) (c :: t) = false.
Proof.
  intros Hc. cbn [starts_with].
  destruct (N.eqb_spec c0 c) as [Heq | _]; [|reflexivity].
  contradiction Hc. symmetry. exact Heq.
Qed.

Lemma re_decimal_entity_head (c : N) (t : jsstring) :
  c <> 38%N -> re_decimal_entity (c :: t) = None.
Proof.
  intros Hc. unfold re_decimal_entity.
  change (js "&#") with [38%N; 35%N]. rewrite (@starts_with_head 38%N _ c t Hc).
  reflexivity.
Qed.

Lemma re_hex_entity_head (c : N) (t : jsstring) :
  c <> 38%N -> re_hex_entity (c :: t) = None.
Proof.
  intros Hc. unfold re_hex_entity.
  change (js "&#x") with [38%N; 35%N; 120%N]. rewrite (@starts_with_head 38%N _ c t Hc).
  reflexivity.
Qed.

Lemma literal_head (p repl : jsstring) (c : N) (t : jsstring) :
  c <> 38%N -> literal (38%N :: p) repl (c :: t) = None.
Proof.
  intros Hc. unfold literal. rewrite (@starts_with_head 38%N _ c t Hc). reflexivity.
Qed.

Lemma re_newline_head (c : N) (t : jsstring) :
  c <> 10%N -> re_newline (c :: t) = None.
Proof.
  intros Hc. unfold re_newline.
  destruct c as [|p]; [reflexivity|].
  repeat (destruct p as [p|p|]; try reflexivity). contradiction Hc. reflexivity.
Qed.

Lemma named_pass_free (table : list (jsstring * jsstring)) :
  ampersand_names table = true ->
  forall text, ~ In 38%N text ->
  fold_left (fun text e => replace_all (literal (fst e) (snd e)) text)
            table text = text.
Proof.
  induction table as [|[name char] table IH]; intros Hnames text Hfree;
    [reflexivity|].
  cbn [ampersand_names forallb fst] in Hnames.
  apply andb_true_iff in Hnames. destruct Hnames as [Hname Hrest].
  cbn [fold_left fst snd].
  destruct name as [|c p]; [discriminate Hname|].
  assert (Hc : c = 38%N).
  { destruct c as [|q]; [discriminate Hname|].
    repeat (destruct q as [q|q|]; try discriminate Hname). reflexivity. }
  subst c.
  rewrite (@replace_all_untouched (literal (38%N :: p) char) 38%N text
             (@literal_head p char) Hfree).
  exact (IH Hrest text Hfree).
Qed.

Lemma decodeHTMLEntities_plain (text : jsstring) :
  ~ In 38%N text -> decodeHTMLEntities text = text.
Proof.
  intros Hfree. unfold decodeHTMLEntities.
  rewrite (@replace_all_untouched re_decimal_entity 38%N text
             re_decimal_entity_head Hfree).
  rewrite (@replace_all_untouched re_hex_entity 38%N text
             re_hex_entity_head Hfree).
  apply named_pass_free; [vm_compute; reflexivity|exact Hfree].
Qed.

(** X19.  A text without ampersand and without line feed, with no white
    space at its ends, goes through [cleanText] and through
    [decodeHTMLEntities] unchanged. *)
Theorem cleanText_plain (text : jsstring) :
  ~ In 38%N text -> ~ In 10%N text -> trim text = text ->
  cleanText text = text /\ decodeHTMLEntities text = text.
Proof.
  intros Hfree Hline Htrim.
  split; [|exact (@decodeHTMLEntities_plain text Hfree)].
  unfold cleanText. rewrite Htrim.
  rewrite (@replace_all_untouched re_newline 10%N text re_newline_head Hline).
  exact (@decodeHTMLEntities_plain text Hfree).
Qed.

Lemma cleanText_plain_witness :
  cleanText (js "Workers AI: what is new") = js "Workers AI: what is new"
  /\ decodeHTMLEntities (js "Workers AI: what is new")
     = js "Workers AI: what is new".
Proof.
  apply (@cleanText_plain (js "Workers AI: what is new")).
  - vm_compute. intuition discriminate.
  - vm_compute. intuition discriminate.
  - vm_compute. reflexivity.
Defined.

(* ================================================================== *)
(** * Further properties: character references *)

Lemma js_cons (c : ascii) (s : string) :
  js (String c s) = N_of_ascii c :: js s.
Proof. reflexivity. Qed.

Lemma digits_of_uint_all (d : Decimal.uint) :
  forallb is_digit (js (NilEmpty.string_of_uint d)) = true.
Proof.
  induction d; cbn [NilEmpty.string_of_uint]; [reflexivity|..];
    rewrite js_cons; cbn [forallb]; rewrite IHd; reflexivity.
Qed.

Lemma digits_of_uint_acc (d : Decimal.uint) :
  forall acc : positive,
    fold_left (fun acc c => acc * 10 + digit_value c)%N
              (js (NilEmpty.string_of_uint d)) (N.pos acc)
    = N.pos (Pos.of_uint_acc d acc).
Proof.
  induction d; intros acc; cbn [NilEmpty.string_of_uint Pos.of_uint_acc];
    [reflexivity|..]; rewrite js_cons; cbn [fold_left];
    rewrite <- IHd; apply f_equal;
    match goal with
    | |- context [digit_value ?c] =>
        let v := eval vm_compute in (digit_value c) in
        change (digit_value c) with v
    end; lia.
Qed.

Lemma digits_of_uint_value (d : Decimal.uint) :
  fold_left (fun acc c => acc * 10 + digit_value c)%N
            (js (NilEmpty.string_of_uint d)) 0%N
  = Pos.of_uint d.
Proof.
  induction d; cbn [NilEmpty.string_of_uint Pos.of_uint];
    [reflexivity|..]; rewrite js_cons; cbn [fold_left];
    [exact IHd|..]; rewrite <- digits_of_uint_acc; reflexivity.
Qed.

Lemma decimal_of_uint (n : N) :
  decimal n = js (NilEmpty.string_of_uint (N.to_uint n))
  /\ decimal n <> [].
Proof.
  unfold decimal, NilZero.string_of_uint.
  destruct n as [|p]; [split; [reflexivity|discriminate]|].
  cbn [N.to_uint].
  pose proof (DecimalPos.Unsigned.to_uint_nonnil p) as Hnil.
  destruct (Pos.to_uint p); [contradiction Hnil; reflexivity|..];
    split; try reflexivity; cbn [NilEmpty.string_of_uint]; rewrite js_cons;
    discriminate.
Qed.

(** [parseInt] reads back the number that a decimal text prints. *)
Lemma number_of_decimal (n : N) : number_of 10 (decimal n) = n.
Proof.
  destruct (decimal_of_uint n) as [-> _]. unfold number_of.
  rewrite digits_of_uint_value. exact (DecimalN.Unsigned.of_to n).
Qed.

Lemma decimal_digits (n : N) : forallb is_digit (decimal n) = true.
Proof.
  destruct (decimal_of_uint n) as [-> _]. apply digits_of_uint_all.
Qed.

Lemma round_double_exact (n : N) :
  (n < 2 ^ 53)%N -> round_double n = Some n.
Proof.
  intros Hn. unfold round_double.
  destruct (N.leb_spec (N.size n) 53) as [_ | Hbig]; [reflexivity|].
  exfalso. pose proof (N.size_le n) as Hsize.
  assert (Hpow : (2 ^ 54 <= 2 ^ N.size n)%N).
  { apply N.pow_le_mono_r; lia. }
  change (2 ^ 54)%N with (2 * 2 ^ 53)%N in Hpow.
  rewrite N.succ_double_spec in Hsize. lia.
Qed.

(** X20.  A decimal character reference [&#n;] in a text that has no
    other ampersand, for an [n] below 2^53 whose code unit
    [n mod 65536] is not 38, the ampersand, is replaced by that one code
    unit: the character itself below 65536, and a different character
    above, where [String.fromCharCode] keeps the low 16 bits of the
    code.  (A reference to the ampersand itself is left out: the later
    passes can decode what it then begins, as in [&#38;lt;].) *)
Theorem decodeHTMLEntities_decimal_reference (a b : jsstring) (n : N) :
  ~ In 38%N a -> ~ In 38%N b ->
  (n < 2 ^ 53)%N -> (n mod 65536 <> 38)%N ->
  decodeHTMLEntities (a ++ js "&#" ++ decimal n ++ js ";" ++ b)
  = a ++ [n mod 65536]%N ++ b.
Proof.
  intros Ha Hb Hn Hamp. unfold decodeHTMLEntities.
  assert (Hpass :
    replace_all re_decimal_entity (a ++ js "&#" ++ decimal n ++ js ";" ++ b)
    = a ++ [n mod 65536]%N ++ b).
  { assert (Hshape : 38%N :: (35%N :: decimal n ++ js ";" ++ b)
                     = (38%N :: (35%N :: decimal n ++ [59%N])) ++ b).
    { cbn [app]. rewrite <- app_assoc. reflexivity. }
    change (js "&#" ++ decimal n ++ js ";" ++ b)
      with (38%N :: (35%N :: decimal n ++ js ";" ++ b)).
    rewrite Hshape.
    apply (@replace_all_hit re_decimal_entity 38%N a
             (35%N :: decimal n ++ [59%N]) b [n mod 65536]%N
             re_decimal_entity_head Ha Hb).
    unfold re_decimal_entity. change (js "&#") with [38%N; 35%N].
    cbn [app starts_with N.eqb Pos.eqb andb skipn]. rewrite <- app_assoc.
    rewrite (@span_prefix is_digit (decimal n) ([59%N] ++ b)
               (decimal_digits n)
               (or_intror (ex_intro _ 59%N (ex_intro _ b (conj eq_refl eq_refl))))).
    destruct (decimal_of_uint n) as [_ Hne].
    pose proof (number_of_decimal n) as Hvalue.
    destruct (decimal n) as [|d ds] eqn:Hdec; [contradiction Hne; reflexivity|].
    cbn [app]. unfold char_of_digits. rewrite Hvalue.
    rewrite (round_double_exact Hn).
    apply f_equal. apply f_equal2; [|reflexivity].
    cbn [length]. rewrite length_app. cbn [length]. lia. }
  rewrite Hpass.
  assert (Hfree : ~ In 38%N (a ++ [n mod 65536]%N ++ b)).
  { intros Hin. apply in_app_or in Hin. destruct Hin as [Hin | [Hin | Hin]].
    - exact (Ha Hin).
    - exact (Hamp Hin).
    - exact (Hb Hin). }
  rewrite (@replace_all_untouched re_hex_entity 38%N _ re_hex_entity_head Hfree).
  apply named_pass_free; [vm_compute; reflexivity|exact Hfree].
Qed.

Lemma decodeHTMLEntities_decimal_reference_witness :
  decodeHTMLEntities (js "It" ++ js "&#" ++ decimal 8217 ++ js ";" ++ js "s here")
  = js "It" ++ [8217 mod 65536]%N ++ js "s here".
Proof.
  apply (@decodeHTMLEntities_decimal_reference (js "It") (js "s here") 8217).
  - vm_compute. intuition discriminate.
  - vm_compute. intuition discriminate.
  - vm_compute. reflexivity.
  - vm_compute. discriminate.
Defined.

(* ================================================================== *)
(** * Further properties: named entities *)

Lemma eqb_true (a b : jsstring) : eqb a b = true -> a = b.
Proof.
  revert b. induction a as [|x a IH]; intros [|y b] H;
    try reflexivity; try discriminate H.
  cbn [eqb] in H. apply andb_true_iff in H. destruct H as [Hxy Hab].
  apply N.eqb_eq in Hxy. rewrite Hxy, (IH b Hab). reflexivity.
Qed.

Lemma not_among (c : N) (s : jsstring) :
  existsb (N.eqb c) s = false -> ~ In c s.
Proof.
  intros Hex Hin. assert (Htrue : existsb (N.eqb c) s = true).
  { apply existsb_exists. exists c. split; [exact Hin|apply N.eqb_refl]. }
  rewrite Hex in Htrue. discriminate Htrue.
Qed.

Lemma diverge_apart (q p : jsstring) :
  diverge q p = true -> forall b, starts_with q (p ++ b) = false.
Proof.
  revert p. induction q as [|x q IH]; intros [|y p] H b;
    try discriminate H.
  cbn [diverge] in H. cbn [app starts_with].
  destruct (N.eqb x y); cbn [negb orb andb] in *; [|reflexivity].
  exact (IH p H b).
Qed.

Lemma not_in_app (c : N) (x y : jsstring) :
  ~ In c x -> ~ In c y -> ~ In c (x ++ y).
Proof.
  intros Hx Hy Hin. apply in_app_or in Hin. destruct Hin; contradiction.
Qed.

(** The passes over a table of names, on a text whose only ampersand
    opens the name of one entry. *)
Lemma named_pass_in (p char a b : jsstring) (table : list (jsstring * jsstring)) :
  ~ In 38%N p -> ~ In 38%N char -> ~ In 38%N a -> ~ In 38%N b ->
  forallb (fun e' =>
             match fst e' with
             | 38%N :: q => if eqb q p then eqb (snd e') char else diverge q p
             | _ => false
             end) table = true ->
  In (38%N :: p, char) table ->
  fold_left (fun text e => replace_all (literal (fst e) (snd e)) text)
            table (a ++ (38%N :: p) ++ b)
  = a ++ char ++ b.
Proof.
  intros Hp Hchar Ha Hb. induction table as [|[name r] table IH];
    intros Hcheck Hin; [destruct Hin|].
  cbn [forallb fst snd] in Hcheck. apply andb_true_iff in Hcheck.
  destruct Hcheck as [Hentry Hrest]. cbn [fold_left fst snd].
  destruct name as [|c q]; [discriminate Hentry|].
  assert (Hc : c = 38%N).
  { destruct c as [|u]; [discriminate Hentry|].
    repeat (destruct u as [u|u|]; try discriminate Hentry). reflexivity. }
  subst c. destruct (eqb q p) eqn:Hqp.
  - apply eqb_true in Hqp. apply eqb_true in Hentry. subst q r.
    rewrite (@replace_all_hit (literal (38%N :: p) char) 38%N a p b char
               (@literal_head p char) Ha Hb).
    + apply named_pass_free.
      * unfold ampersand_names. apply forallb_forall. intros e He.
        pose proof (proj1 (forallb_forall _ _) Hrest e He) as Hname.
        cbv beta in Hname. destruct (fst e) as [|c q]; [discriminate Hname|].
        destruct c as [|u]; [discriminate Hname|].
        repeat (destruct u as [u|u|]; try discriminate Hname). reflexivity.
      * apply not_in_app; [exact Ha|apply not_in_app; assumption].
    + unfold literal.
      change (38%N :: p ++ b) with ((38%N :: p) ++ b).
      rewrite starts_with_refl. reflexivity.
  - change (a ++ (38%N :: p) ++ b) with (a ++ 38%N :: (p ++ b)).
    rewrite (@replace_all_miss (literal (38%N :: q) r) 38%N a (p ++ b)
               (@literal_head q r) Ha (@not_in_app 38%N _ _ Hp Hb)).
    + apply IH; [exact Hrest|].
      destruct Hin as [Heq | Hin]; [|exact Hin].
      injection Heq as Hq _. subst q.
      assert (Hsame : eqb p p = true).
      { clear. induction p as [|x p IH]; [reflexivity|].
        cbn [eqb]. rewrite N.eqb_refl. exact IH. }
      rewrite Hsame in Hqp. discriminate Hqp.
    + unfold literal. cbn [starts_with]. rewrite N.eqb_refl. cbn [andb].
      rewrite (diverge_apart _ _ Hentry b). reflexivity.
Qed.

Lemma numeric_passes_miss (p a b : jsstring) :
  match p with c :: _ => negb (N.eqb c 35) | [] => false end = true ->
  ~ In 38%N p -> ~ In 38%N a -> ~ In 38%N b ->
  replace_all re_hex_entity
    (replace_all re_decimal_entity (a ++ (38%N :: p) ++ b))
  = a ++ (38%N :: p) ++ b.
Proof.
  intros Hhash Hp Ha Hb.
  destruct p as [|c p']; [discriminate Hhash|].
  apply negb_true_iff in Hhash.
  change (a ++ (38%N :: c :: p') ++ b) with (a ++ 38%N :: ((c :: p') ++ b)).
  rewrite (@replace_all_miss re_decimal_entity 38%N a ((c :: p') ++ b)
             re_decimal_entity_head Ha (@not_in_app 38%N _ _ Hp Hb)).
  - apply (@replace_all_miss re_hex_entity 38%N a ((c :: p') ++ b)
             re_hex_entity_head Ha (@not_in_app 38%N _ _ Hp Hb)).
    unfold re_hex_entity. change (js "&#x") with [38%N; 35%N; 120%N].
    cbn [app starts_with]. rewrite N.eqb_sym in Hhash.
    rewrite N.eqb_refl, Hhash. reflexivity.
  - unfold re_decimal_entity. change (js "&#") with [38%N; 35%N].
    cbn [app starts_with]. rewrite N.eqb_sym in Hhash.
    rewrite N.eqb_refl, Hhash. reflexivity.
Qed.

Lemma entities_decode_alone :
  forallb (fun e => eqb (fst e) (js "&amp;") || decodes_alone entities e)
          entities = true.
Proof. vm_compute. reflexivity. Qed.

Lemma entity_decodes_alone (name char : jsstring) :
  In (name, char) entities -> name <> js "&amp;" ->
  exists p,
    name = 38%N :: p
    /\ ~ In 38%N p /\ ~ In 38%N char
    /\ match p with c :: _ => negb (N.eqb c 35) | [] => false end = true
    /\ forallb (fun e' =>
                  match fst e' with
                  | 38%N :: q => if eqb q p then eqb (snd e') char
                                 else diverge q p
                  | _ => false
                  end) entities = true.
Proof.
  intros Hin Hname.
  pose proof (proj1 (forallb_forall _ _) entities_decode_alone _ Hin) as Hcheck.
  cbn [fst snd] in Hcheck. apply orb_true_iff in Hcheck.
  destruct Hcheck as [Hamp | Halone];
    [contradiction Hname; exact (eqb_true _ _ Hamp)|].
  unfold decodes_alone in Halone. cbn [fst snd] in Halone.
  destruct name as [|c p]; [discriminate Halone|].
  assert (Hc : c = 38%N).
  { destruct c as [|u]; [discriminate Halone|].
    repeat (destruct u as [u|u|]; try discriminate Halone). reflexivity. }
  subst c. exists p.
  apply andb_true_iff in Halone. destruct Halone as [Halone Htable].
  apply andb_true_iff in Halone. destruct Halone as [Halone Hhash].
  apply andb_true_iff in Halone. destruct Halone as [Hp Hchar].
  apply negb_true_iff in Hp, Hchar.
  split; [reflexivity|]. split; [exact (not_among _ _ Hp)|].
  split; [exact (not_among _ _ Hchar)|]. split; [exact Hhash|exact Htable].
Qed.

(** X21.  A named entity of the table other than [&amp;], in a text
    that has no other ampersand, is replaced by its character, and the
    rest of the text is kept. *)
Theorem decodeHTMLEntities_named (name char a b : jsstring) :
  In (name, char) entities -> name <> js "&amp;" ->
  ~ In 38%N a -> ~ In 38%N b ->
  decodeHTMLEntities (a ++ name ++ b) = a ++ char ++ b.
Proof.
  intros Hin Hname Ha Hb.
  destruct (entity_decodes_alone Hin Hname)
    as [p [-> [Hp [Hchar [Hhash Htable]]]]].
  unfold decodeHTMLEntities.
  rewrite (numeric_passes_miss p a b Hhash Hp Ha Hb).
  exact (@named_pass_in p char a b entities Hp Hchar Ha Hb Htable Hin).
Qed.

Lemma decodeHTMLEntities_named_witness :
  decodeHTMLEntities (js "caf" ++ js "&eacute;" ++ js " au lait")
  = js "caf" ++ [233%N] ++ js " au lait".
Proof.
  apply (@decodeHTMLEntities_named (js "&eacute;") [233%N] (js "caf")
           (js " au lait")).
  - vm_compute. intuition.
  - discriminate.
  - vm_compute. intuition discriminate.
  - vm_compute. intuition discriminate.
Defined.

(** X22.  An escaped ampersand is decoded twice: [&amp;] followed by the
    rest of the name of another entity of the table, as in [&amp;lt;],
    comes out as the character of that entity, not as the text of the
    entity. *)
Theorem decodeHTMLEntities_decodes_twice (name char a b : jsstring) :
  In (name, char) entities -> name <> js "&amp;" ->
  ~ In 38%N a -> ~ In 38%N b ->
  decodeHTMLEntities (a ++ js "&amp;" ++ tl name ++ b) = a ++ char ++ b.
Proof.
  intros Hin Hname Ha Hb.
  destruct (entity_decodes_alone Hin Hname)
    as [p [-> [Hp [Hchar [Hhash Htable]]]]].
  cbn [tl]. unfold decodeHTMLEntities.
  change (a ++ js "&amp;" ++ p ++ b)
    with (a ++ (38%N :: js "amp;") ++ (p ++ b)).
  assert (Hfree : ~ In 38%N (p ++ b)) by exact (@not_in_app 38%N _ _ Hp Hb).
  assert (Hword : ~ In 38%N (js "amp;")).
  { vm_compute. intuition discriminate. }
  rewrite (numeric_passes_miss (js "amp;") a (p ++ b) eq_refl Hword Ha Hfree).
  change entities with ((js "&amp;", js "&") :: tl entities).
  cbn [fold_left fst snd].
  change (js "&amp;") with (38%N :: js "amp;").
  rewrite (@replace_all_hit (literal (38%N :: js "amp;") (js "&")) 38%N a
             (js "amp;") (p ++ b) (js "&")
             (@literal_head (js "amp;") (js "&")) Ha Hfree).
  - change (a ++ js "&" ++ p ++ b) with (a ++ (38%N :: p) ++ b).
    apply (@named_pass_in p char a b (tl entities) Hp Hchar Ha Hb).
    + change entities with ((js "&amp;", js "&") :: tl entities) in Htable.
      cbn [forallb] in Htable. apply andb_true_iff in Htable. apply Htable.
    + change entities with ((js "&amp;", js "&") :: tl entities) in Hin.
      destruct Hin as [Heq | Hin]; [|exact Hin].
      injection Heq as Heq _. contradiction Hname. rewrite <- Heq. reflexivity.
  - unfold literal.
    change (38%N :: js "amp;" ++ p ++ b) with ((38%N :: js "amp;") ++ p ++ b).
    rewrite starts_with_refl. reflexivity.
Qed.

Lemma decodeHTMLEntities_decodes_twice_witness :
  decodeHTMLEntities (js "a " ++ js "&amp;" ++ tl (js "&lt;") ++ js " b")
  = js "a " ++ js "<" ++ js " b".
Proof.
  apply (@decodeHTMLEntities_decodes_twice (js "&lt;") (js "<") (js "a ")
           (js " b")).
  - vm_compute. intuition.
  - discriminate.
  - vm_compute. intuition discriminate.
  - vm_compute. intuition discriminate.
Defined.

(* ================================================================== *)
(** * Further properties: a ledger that remembers *)

Lemma eqb_same (s : jsstring) : eqb s s = true.
Proof.
  induction s as [|x s IH]; [reflexivity|].
  cbn [eqb]. rewrite N.eqb_refl. exact IH.
Qed.

Lemma eqb_differ (a b : jsstring) : a <> b -> eqb a b = false.
Proof.
  intros Hne. destruct (eqb a b) eqn:Heq; [|reflexivity].
  contradiction Hne. exact (eqb_true _ _ Heq).
Qed.

Lemma getPostKey_injective (a b : jsstring) :
  getPostKey a = getPostKey b -> a = b.
Proof. unfold getPostKey. apply app_inv_head. Qed.

Lemma stored_from_app (h1 h2 : History) (key : jsstring) :
  forall value,
    stored_from value (h1 ++ h2) key
    = stored_from (stored_from value h1 key) h2 key.
Proof.
  induction h1 as [|e h1 IH]; intros value; [reflexivity|].
  cbn [app stored_from]. apply IH.
Qed.

Lemma stored_from_kept (h : History) (key : jsstring) :
  forall v, exists v', stored_from (Some v) h key = Some v'.
Proof.
  induction h as [|e h IH]; intros v; [exists v; reflexivity|].
  cbn [stored_from].
  destruct e as [| | |k w ttl [[]|err]| | |]; try apply IH.
  destruct (eqb k key); apply IH.
Qed.

Section Memory.

Variable W : World.
Variable kv : KVNamespace.
Hypothesis Hremembers : remembers kv.

Lemma isPostProcessed_stored (guid : jsstring) (h : History) :
  fst (isPostProcessed kv guid h)
  = Ok (match stored h (getPostKey guid) with Some _ => true | None => false end).
Proof.
  rewrite isPostProcessed_run. cbn zeta. rewrite Hremembers. reflexivity.
Qed.

(** X23.  With a ledger that reads back what was written to it, a post
    that [markPostProcessed] recorded is processed for
    [isPostProcessed] from then on, whatever is recorded later, and the
    answer for every other guid is what it was. *)
Theorem mark_then_check (guid : jsstring) (metadata : Metadata)
    (ttl : option N) (h : History) :
  fst (markPostProcessed W kv guid metadata ttl h) = Ok tt ->
  let h1 := snd (markPostProcessed W kv guid metadata ttl h) in
  (forall later, fst (isPostProcessed kv guid (h1 ++ later)) = Ok true)
  /\ (forall other, other <> guid ->
        fst (isPostProcessed kv other h1) = fst (isPostProcessed kv other h)).
Proof.
  rewrite markPostProcessed_run. cbn zeta. cbn [fst snd].
  intros Hput. rewrite Hput. split.
  - intros later. rewrite isPostProcessed_stored. unfold stored.
    rewrite !stored_from_app. cbn [stored_from]. rewrite eqb_same.
    destruct (stored_from_kept later (getPostKey guid)
                (Json.stringify false (ledger_value (world_now W h) metadata)))
      as [v' ->]. reflexivity.
  - intros other Hother. rewrite !isPostProcessed_stored. unfold stored.
    rewrite stored_from_app. cbn [stored_from].
    rewrite eqb_differ; [reflexivity|].
    intros Hkey. apply Hother. symmetry. exact (@getPostKey_injective _ _ Hkey).
Qed.

Variable env : Env.
Variable ai : Ai.
Variable githubConfig : GitHubConfig.
Hypothesis Hbound : PROCESSED_POSTS env = Some kv.

(** X24.  With a ledger that reads back what was written to it, a post
    whose run returned is never new again: the filtering of every later
    run drops it. *)
Theorem processed_post_is_skipped (post : BlogPost.t) (h : History) :
  fst (process_post W env ai githubConfig post h) = Ok tt ->
  forall later,
    fst (filter_new kv [post] []
           (snd (process_post W env ai githubConfig post h) ++ later))
    = Ok [].
Proof.
  rewrite process_post_run. cbn zeta.
  destruct (generateSummary ai post no_options h) as [[summary | e] h1];
    cbn [fst snd]; [|discriminate].
  destruct (publishToGitHub W githubConfig (createBlogPostSummary post summary) h1)
    as [[[|] | e] h2]; cbn [fst snd]; try discriminate.
  rewrite Hbound. rewrite markPostProcessed_run. cbn zeta. cbn [fst snd].
  intros Hput later. rewrite Hput.
  cbn [filter_new]. unfold bind, ret.
  pose proof (isPostProcessed_stored (BlogPost.guid post)
                ((h2 ++ [EvNow (world_now W h2);
                         EvKvPut (getPostKey (BlogPost.guid post))
                           (Json.stringify false
                              (ledger_value (world_now W h2)
                                 (metadata_of post summary)))
                           (put_options None) (Ok tt)]) ++ later)) as Hread.
  unfold stored in Hread. rewrite !stored_from_app in Hread.
  cbn [stored_from] in Hread. rewrite eqb_same in Hread.
  destruct (stored_from_kept later (getPostKey (BlogPost.guid post))
              (Json.stringify false
                 (ledger_value (world_now W h2) (metadata_of post summary))))
    as [v' Hv].
  rewrite Hv in Hread.
  destruct (isPostProcessed kv (BlogPost.guid post) _) as [[processed | e] h3];
    cbn [fst] in Hread; [|discriminate Hread].
  injection Hread as ->. reflexivity.
Qed.

End Memory.

Lemma memory_kv_remembers : remembers memory_kv.
Proof. intros h key. reflexivity. Qed.

Lemma mark_then_check_witness :
  (forall later,
     fst (isPostProcessed memory_kv (js "g1")
            (snd (markPostProcessed Scenario.feed_world memory_kv (js "g1")
                    Scenario.metadata None []) ++ later)) = Ok true)
  /\ (forall other, other <> js "g1" ->
        fst (isPostProcessed memory_kv other
               (snd (markPostProcessed Scenario.feed_world memory_kv (js "g1")
                       Scenario.metadata None [])))
        = fst (isPostProcessed memory_kv other [])).
Proof.
  apply (@mark_then_check Scenario.feed_world memory_kv memory_kv_remembers
           (js "g1") Scenario.metadata None []).
  reflexivity.
Defined.

Lemma processed_post_is_skipped_witness :
  fst (filter_new memory_kv [Scenario.post1] []
         (snd (process_post Scenario.store_world
                 (Scenario.worker_env Scenario.picky_ai (Some memory_kv))
                 Scenario.picky_ai Scenario.config Scenario.post1 []) ++ []))
  = Ok [].
Proof.
  apply (@processed_post_is_skipped Scenario.store_world memory_kv
           memory_kv_remembers
           (Scenario.worker_env Scenario.picky_ai (Some memory_kv))
           Scenario.picky_ai Scenario.config eq_refl Scenario.post1 []).
  vm_compute. reflexivity.
Defined.

(* ================================================================== *)
(** * Further properties: the item cap, updates, and a ledger that fails *)

(** X25.  A positive cap keeps the first posts of the feed, as many as
    the cap says; a negative cap, which [slice] counts from the end,
    drops that many of the last posts. *)
Theorem fetchBlogPosts_cap (W : World) (feedUrl : jsstring) (z : Z)
    (h : History) (response : Response) (xmlText : jsstring) :
  world_fetch W h (feed_request feedUrl) = Ok response ->
  ok response = true ->
  resp_text response = Ok xmlText ->
  z <> 0%Z ->
  fst (fetchBlogPosts W {| feedUrl := feedUrl; maxPosts := Some (Int z) |} h)
  = Ok (if (0 <? z)%Z
        then firstn (Z.to_nat z) (records_of (item_blocks xmlText))
        else firstn (length (records_of (item_blocks xmlText)) - Z.to_nat (- z))
                    (records_of (item_blocks xmlText))).
Proof.
  intros Hfetch Hok Htext Hz.
  rewrite (@fetchBlogPosts_run W {| feedUrl := feedUrl; maxPosts := Some (Int z) |}
             h response xmlText Hfetch Hok Htext).
  cbn [fst maxPosts number_truthy slice0].
  destruct (Z.eqb_spec z 0) as [Hzero | _]; [contradiction|]. cbn [negb].
  destruct (Z.ltb_spec z 0) as [Hneg | Hpos];
    destruct (Z.ltb_spec 0 z) as [Hpos' | Hneg']; try lia; [|reflexivity].
  apply f_equal. apply (f_equal (fun n => firstn n _)). lia.
Qed.

Lemma fetchBlogPosts_cap_witness :
  fst (fetchBlogPosts Scenario.pipeline_world
         {| feedUrl := Scenario.feed_url; maxPosts := Some (Int (-1)) |} [])
  = Ok (if (0 <? -1)%Z
        then firstn (Z.to_nat (-1)) (records_of (item_blocks Scenario.three_items))
        else firstn (length (records_of (item_blocks Scenario.three_items))
                     - Z.to_nat (- -1))
                    (records_of (item_blocks Scenario.three_items))).
Proof.
  apply (@fetchBlogPosts_cap Scenario.pipeline_world Scenario.feed_url (-1) []
           (Scenario.response 200 Scenario.three_items DocNull)
           Scenario.three_items).
  - vm_compute. reflexivity.
  - reflexivity.
  - reflexivity.
  - discriminate.
Defined.

(** X26.  When the read of the path finds a revision, the write that
    follows carries that revision and the message of an update; a
    revision that is the empty string counts as none, and the write is
    that of a new file. *)
Theorem publishToGitHub_sends_revision (W : World) (config : GitHubConfig)
    (postSummary : BlogPostSummary.t) (base64Content sha : jsstring)
    (h : History) :
  let filePath := filePath_of postSummary in
  let read := world_fetch W h (sha_request config filePath) in
  let h1 := h ++ [EvFetch (sha_request config filePath) read] in
  let body := if truthy sha then update_body postSummary base64Content sha
              else create_body postSummary base64Content in
  let req := put_request config filePath body in
  Json.btoa (artifact_text postSummary) = Ok base64Content ->
  revision_marker read = Some sha ->
  publishToGitHub W config postSummary h
  = (Ok (write_accepted (world_fetch W h1 req)),
     h ++ [EvFetch (sha_request config filePath) read;
           EvFetch req (world_fetch W h1 req)]).
Proof.
  intros filePath read h1 body req Hbtoa Hmarker.
  rewrite (@publishToGitHub_conditional_write W config postSummary
             base64Content h Hbtoa).
  cbn zeta. fold filePath. fold read. rewrite Hmarker.
  unfold req, body, h1. destruct sha as [|c sha]; reflexivity.
Qed.

(** X27.  When the store lists the keys of some guids on one complete
    page, [getProcessedPosts] returns those guids, each without the
    [post:] that [getPostKey] put before it, after that one request. *)
Theorem getProcessedPosts_guids (fuel : nat) (kv : KVNamespace) (limit : N)
    (h : History) (guids : list jsstring) (next : option jsstring) :
  let opts := {| list_prefix := js "post:";
                 list_limit := N.min limit 1000;
                 list_cursor := None |} in
  let page := {| keys := map getPostKey guids;
                 list_complete := true;
                 cursor := next |} in
  kv_list kv h opts = Ok page ->
  getProcessedPosts (S fuel) kv limit h
  = Some (Ok guids, h ++ [EvKvList opts (Ok page)]).
Proof.
  intros opts page Hpage. unfold getProcessedPosts. cbn [list_pages].
  unfold call. cbn [length N.of_nat]. rewrite N.sub_0_r. fold opts.
  rewrite Hpage. cbn [list_complete keys page app].
  rewrite map_map.
  assert (Hback : map (fun guid => strip_post_prefix (getPostKey guid)) guids
                  = guids).
  { clear. induction guids as [|guid guids IH]; [reflexivity|].
    cbn [map]. rewrite IH. reflexivity. }
  rewrite Hback. reflexivity.
Qed.

Lemma getProcessedPosts_guids_witness :
  getProcessedPosts 1 single_page_kv 10 []
  = Some (Ok [js "g1"; js "post:g2"],
          [] ++ [EvKvList {| list_prefix := js "post:";
                             list_limit := N.min 10 1000;
                             list_cursor := None |}
                   (Ok {| keys := map getPostKey [js "g1"; js "post:g2"];
                          list_complete := true;
                          cursor := None |})]).
Proof.
  apply (@getProcessedPosts_guids 0 single_page_kv 10 []
           [js "g1"; js "post:g2"] None).
  reflexivity.
Defined.

Lemma publishToGitHub_sends_revision_witness :
  let h := snd (publishToGitHub Scenario.store_world Scenario.config
                  Scenario.plain_artifact []) in
  let base64Content := Json.base64 (artifact_text Scenario.plain_artifact) in
  let sha := js "3d21ec53a331a6f037a91c368710b99387d012c1" in
  let filePath := filePath_of Scenario.plain_artifact in
  let read := world_fetch Scenario.store_world h
                (sha_request Scenario.config filePath) in
  let h1 := h ++ [EvFetch (sha_request Scenario.config filePath) read] in
  let req := put_request Scenario.config filePath
               (update_body Scenario.plain_artifact base64Content sha) in
  publishToGitHub Scenario.store_world Scenario.config Scenario.plain_artifact h
  = (Ok (write_accepted (world_fetch Scenario.store_world h1 req)),
     h ++ [EvFetch (sha_request Scenario.config filePath) read;
           EvFetch req (world_fetch Scenario.store_world h1 req)]).
Proof.
  intros h base64Content sha.
  apply (@publishToGitHub_sends_revision Scenario.store_world Scenario.config
           Scenario.plain_artifact base64Content sha h).
  - vm_compute. reflexivity.
  - vm_compute. reflexivity.
Defined.

Section FailingLedger.

Variable W : World.
Variable env : Env.
Variable ai : Ai.
Variable githubConfig : GitHubConfig.
Variable kv : KVNamespace.

(** X28.  A post can be published and still be counted as failed: when
    the write to the ledger throws after the store accepted the
    artifact, the run of the post throws that error, the loop counts a
    failure, and the accepted write stays in the history. *)
Theorem published_but_not_marked (post : BlogPost.t) (summary : jsstring)
    (e : JsError) (h : History) :
  let gen := generateSummary ai post no_options h in
  let pub := publishToGitHub W githubConfig
               (createBlogPostSummary post summary) (snd gen) in
  let t := world_now W (snd pub) in
  let key := getPostKey (BlogPost.guid post) in
  let text := Json.stringify false (ledger_value t (metadata_of post summary)) in
  PROCESSED_POSTS env = Some kv ->
  fst gen = Ok summary ->
  fst pub = Ok true ->
  kv_put kv (snd pub ++ [EvNow t]) key text None = Throw e ->
  process_post W env ai githubConfig post h
  = (Throw e, snd pub ++ [EvNow t; EvKvPut key text None (Throw e)])
  /\ (forall successCount failureCount,
        fst (process_loop W env ai githubConfig [post] successCount
               failureCount h)
        = Ok (successCount, (failureCount + 1)%N))
  /\ exists events,
       snd pub = snd gen ++ events /\ existsb accepted_put events = true.
Proof.
  intros gen pub t key text Hbound Hgen Hpub Hput.
  assert (Hrun : process_post W env ai githubConfig post h
                 = (Throw e, snd pub ++ [EvNow t; EvKvPut key text None (Throw e)])).
  { rewrite process_post_run. cbn zeta. fold gen. rewrite Hgen. fold pub.
    rewrite Hpub, Hbound. rewrite markPostProcessed_run. cbn zeta.
    fold t. fold key. fold text. cbn [put_options]. rewrite Hput. reflexivity. }
  split; [exact Hrun|]. split.
  - intros successCount failureCount. cbn [process_loop].
    unfold bind, try_catch, ret. rewrite Hrun. reflexivity.
  - destruct (publishToGitHub_outcome W githubConfig
                (createBlogPostSummary post summary) (snd gen))
      as [published [events [Heq [Hcount _]]]].
    fold pub in Heq. exists events. rewrite Heq in Hpub |- *.
    cbn [fst snd] in *. injection Hpub as ->. split; [reflexivity|].
    destruct (existsb accepted_put events) eqn:Hex; [reflexivity|].
    rewrite (filter_none _ _ Hex) in Hcount. discriminate Hcount.
Qed.

End FailingLedger.

Lemma published_but_not_marked_witness :
  let env := Scenario.worker_env Scenario.picky_ai (Some Scenario.failing_kv) in
  let summary := disclaimer ++ Scenario.long_text in
  let gen := generateSummary Scenario.picky_ai Scenario.post1 no_options [] in
  let pub := publishToGitHub Scenario.store_world Scenario.config
               (createBlogPostSummary Scenario.post1 summary) (snd gen) in
  let t := world_now Scenario.store_world (snd pub) in
  let key := getPostKey (BlogPost.guid Scenario.post1) in
  let text := Json.stringify false
                (ledger_value t (metadata_of Scenario.post1 summary)) in
  process_post Scenario.store_world env Scenario.picky_ai Scenario.config
    Scenario.post1 []
  = (Throw Scenario.outage,
     snd pub ++ [EvNow t; EvKvPut key text None (Throw Scenario.outage)])
  /\ (forall successCount failureCount,
        fst (process_loop Scenario.store_world env Scenario.picky_ai
               Scenario.config [Scenario.post1] successCount failureCount [])
        = Ok (successCount, (failureCount + 1)%N))
  /\ exists events,
       snd pub = snd gen ++ events /\ existsb accepted_put events = true.
Proof.
  intros env summary.
  apply (@published_but_not_marked Scenario.store_world env Scenario.picky_ai
           Scenario.config Scenario.failing_kv Scenario.post1 summary
           Scenario.outage []).
  - reflexivity.
  - vm_compute. reflexivity.
  - vm_compute. reflexivity.
  - reflexivity.
Defined.

(* ================================================================== *)
(** * Further properties: which artifacts can be written *)

Lemma escape_unit_wide (c : N) :
  wide c = true -> is_surrogate c = false -> Json.escape_unit c = [c].
Proof.
  unfold wide, is_surrogate, Json.escape_unit. intros Hwide Hsur.
  apply N.ltb_lt in Hwide. rewrite Hsur.
  repeat match goal with
         | |- context [N.eqb c ?k] =>
             destruct (N.eqb_spec c k) as [Heq | _]; [lia|]
         end.
  destruct (N.ltb_spec c 32) as [Hlow | _]; [lia|]. reflexivity.
Qed.

Lemma quote_units_keeps_upto (c : N) (n : nat) :
  wide c = true -> is_surrogate c = false ->
  forall s, length s <= n -> In c s -> In c (Json.quote_units s).
Proof.
  intros Hwide Hsur. induction n as [|n IH]; intros s Hlen Hin.
  - destruct s; [destruct Hin|cbn [length] in Hlen; lia].
  - destruct s as [|x s']; [destruct Hin|]. cbn [length] in Hlen.
    cbn [Json.quote_units]. destruct s' as [|d s''].
    + destruct Hin as [-> | []]. rewrite (@escape_unit_wide c Hwide Hsur).
      left. reflexivity.
    + cbn [length] in Hlen.
      destruct (Json.is_high_surrogate x && Json.is_low_surrogate d).
      * destruct Hin as [-> | [-> | Hin]];
          [left; reflexivity|right; left; reflexivity|].
        right. right. apply IH; [lia|exact Hin].
      * apply in_or_app. destruct Hin as [-> | Hin].
        -- left. rewrite (@escape_unit_wide c Hwide Hsur). left. reflexivity.
        -- right. apply IH; [cbn [length]; lia|exact Hin].
Qed.

Lemma quote_keeps (c : N) (s : jsstring) :
  wide c = true -> is_surrogate c = false -> In c s -> In c (Json.quote s).
Proof.
  intros Hwide Hsur Hin. unfold Json.quote. apply in_or_app. right.
  apply in_or_app. left.
  exact (@quote_units_keeps_upto c (length s) Hwide Hsur s (le_n _) Hin).
Qed.

Lemma in_join (c : N) (sep part : jsstring) (parts : list jsstring) :
  In part parts -> In c part -> In c (join sep parts).
Proof.
  induction parts as [|p parts IH]; intros Hpart Hc; [destruct Hpart|].
  cbn [join]. destruct parts as [|p' parts'].
  - destruct Hpart as [-> | []]. exact Hc.
  - apply in_or_app. destruct Hpart as [-> | Hpart]; [left; exact Hc|].
    right. apply in_or_app. right. exact (IH Hpart Hc).
Qed.

Lemma stringify_value_keeps (c : N) (v : Json.value) (text : jsstring) :
  wide c = true -> is_surrogate c = false ->
  match v with
  | Json.Str s => text = s
  | Json.Bool _ => False
  | Json.Strings l => In text l
  end ->
  In c text -> In c (Json.stringify_value true v).
Proof.
  intros Hwide Hsur Hv Hin. destruct v as [s | b | l].
  - subst s. exact (@quote_keeps c _ Hwide Hsur Hin).
  - destruct Hv.
  - destruct l as [|s l]; [destruct Hv|].
    unfold Json.stringify_value. apply in_or_app. right.
    apply in_or_app. right. apply in_or_app. left.
    apply (@in_join c _ (js "    " ++ Json.quote text)).
    + apply (in_map (fun s => js "    " ++ Json.quote s)). exact Hv.
    + apply in_or_app. right. exact (@quote_keeps c _ Hwide Hsur Hin).
Qed.

Lemma stringify_keeps (c : N) (o : Json.object) (key : jsstring)
    (v : Json.value) (text : jsstring) :
  wide c = true -> is_surrogate c = false ->
  In (key, v) o ->
  match v with
  | Json.Str s => text = s
  | Json.Bool _ => False
  | Json.Strings l => In text l
  end ->
  In c text -> In c (Json.stringify true o).
Proof.
  intros Hwide Hsur Ho Hv Hin. destruct o as [|e o]; [destruct Ho|].
  unfold Json.stringify. apply in_or_app. right. apply in_or_app. right.
  apply in_or_app. left.
  apply (@in_join c _ (js "  " ++ Json.quote key ++ js ": "
                       ++ Json.stringify_value true v)).
  - apply (in_map (fun kv => js "  " ++ Json.quote (fst kv) ++ js ": "
                             ++ Json.stringify_value true (snd kv)) _ _ Ho).
  - apply in_or_app. right. apply in_or_app. right. apply in_or_app. right.
    exact (@stringify_value_keeps c v text Hwide Hsur Hv Hin).
Qed.

Lemma artifact_text_keeps (postSummary : BlogPostSummary.t) (c : N)
    (text : jsstring) :
  wide c = true -> is_surrogate c = false ->
  In text (texts_of postSummary) -> In c text ->
  In c (artifact_text postSummary).
Proof.
  intros Hwide Hsur Htext Hin. unfold artifact_text.
  unfold texts_of in Htext. apply in_app_or in Htext.
  destruct Htext as [Hfield | Hlist].
  - cbn [In] in Hfield.
    destruct Hfield as [<- | [<- | [<- | [<- | [<- | [<- | []]]]]]];
      eapply (@stringify_keeps c _ _ (Json.Str _) _ Hwide Hsur);
      try reflexivity; try exact Hin; unfold summary_object; cbn [In];
      auto 10.
  - apply in_app_or in Hlist. destruct Hlist as [Hauthor | Hcategory].
    + apply (@stringify_keeps c _ (js "authors")
               (Json.Strings (BlogPostSummary.authors postSummary)) text
               Hwide Hsur); [|exact Hauthor|exact Hin].
      unfold summary_object. cbn [In]. auto 10.
    + apply (@stringify_keeps c _ (js "categories")
               (Json.Strings (BlogPostSummary.categories postSummary)) text
               Hwide Hsur); [|exact Hcategory|exact Hin].
      unfold summary_object. cbn [In]. auto 10.
Qed.

(** X29.  An artifact with a code unit above 255 that is not a surrogate
    in any of its texts - title, summary, slug, URL, date, guid, an
    author or a category - is never written: [btoa] rejects its
    serialisation, and [publishToGitHub] answers [false] after the one
    read of the path. *)
Theorem publishToGitHub_rejects_wide (W : World) (config : GitHubConfig)
    (postSummary : BlogPostSummary.t) (text : jsstring) (c : N) (h : History) :
  In text (texts_of postSummary) -> In c text ->
  wide c = true -> is_surrogate c = false ->
  publishToGitHub W config postSummary h
  = (Ok false,
     h ++ [EvFetch (sha_request config (filePath_of postSummary))
             (world_fetch W h (sha_request config (filePath_of postSummary)))]).
Proof.
  intros Htext Hin Hwide Hsur.
  apply (@publishToGitHub_rejected_text W config postSummary h).
  pose proof (@artifact_text_keeps postSummary c text Hwide Hsur Htext Hin)
    as Hkept.
  destruct (forallb (fun c => (c <=? 255)%N) (artifact_text postSummary))
    eqn:Hall; [|reflexivity].
  pose proof (proj1 (forallb_forall _ _) Hall c Hkept) as Hnarrow.
  unfold wide in Hwide. apply N.ltb_lt in Hwide. apply N.leb_le in Hnarrow. lia.
Qed.

Lemma publishToGitHub_rejects_wide_witness :
  publishToGitHub Scenario.store_world Scenario.config Scenario.curly_artifact []
  = (Ok false,
     [] ++ [EvFetch (sha_request Scenario.config
                       (filePath_of Scenario.curly_artifact))
              (world_fetch Scenario.store_world []
                 (sha_request Scenario.config
                    (filePath_of Scenario.curly_artifact)))]).
Proof.
  apply (@publishToGitHub_rejects_wide Scenario.store_world Scenario.config
           Scenario.curly_artifact
           (BlogPostSummary.title Scenario.curly_artifact) 8217%N []).
  - right. left. reflexivity.
  - vm_compute. intuition.
  - reflexivity.
  - reflexivity.
Defined.

Lemma narrow_app (a b : jsstring) :
  narrow (a ++ b) = narrow a && narrow b.
Proof. apply forallb_app. Qed.

Lemma hex_digit_narrow (n : N) : (n < 16)%N -> (Json.hex_digit n <=? 255)%N = true.
Proof.
  intros Hn. unfold Json.hex_digit. apply N.leb_le.
  destruct (N.ltb_spec n 10); lia.
Qed.

Lemma escape_unit_narrow (c : N) :
  (c <=? 255)%N = true -> narrow (Json.escape_unit c) = true.
Proof.
  intros Hc. unfold Json.escape_unit.
  assert (Hescape : narrow (Json.unicode_escape c) = true).
  { unfold Json.unicode_escape. rewrite narrow_app.
    apply andb_true_iff. split; [reflexivity|].
    cbn [narrow forallb].
    rewrite !hex_digit_narrow by (apply N.mod_lt; discriminate).
    reflexivity. }
  repeat match goal with
         | |- context [if ?b then _ else _] =>
             destruct b; [first [reflexivity | exact Hescape]|]
         end.
  cbn [narrow forallb]. rewrite Hc. reflexivity.
Qed.

Lemma quote_units_narrow_upto (n : nat) :
  forall s, length s <= n -> narrow s = true ->
            narrow (Json.quote_units s) = true.
Proof.
  induction n as [|n IH]; intros s Hlen Hs.
  - destruct s; [reflexivity|cbn [length] in Hlen; lia].
  - destruct s as [|x s']; [reflexivity|]. cbn [length] in Hlen.
    cbn [narrow forallb] in Hs. apply andb_true_iff in Hs.
    destruct Hs as [Hx Hs']. cbn [Json.quote_units].
    destruct s' as [|d s'']; [exact (escape_unit_narrow x Hx)|].
    cbn [length] in Hlen.
    destruct (Json.is_high_surrogate x && Json.is_low_surrogate d).
    + cbn [forallb] in Hs'. apply andb_true_iff in Hs'.
      destruct Hs' as [Hd Hs'']. cbn [narrow forallb]. rewrite Hx, Hd.
      apply IH; [lia|exact Hs''].
    + rewrite narrow_app, (escape_unit_narrow x Hx).
      apply IH; [cbn [length]; lia|exact Hs'].
Qed.

Lemma quote_narrow (s : jsstring) :
  narrow s = true -> narrow (Json.quote s) = true.
Proof.
  intros Hs. unfold Json.quote. rewrite !narrow_app.
  rewrite (@quote_units_narrow_upto (length s) s (le_n _) Hs). reflexivity.
Qed.

Lemma join_narrow (sep : jsstring) (parts : list jsstring) :
  narrow sep = true -> forallb narrow parts = true ->
  narrow (join sep parts) = true.
Proof.
  intros Hsep. induction parts as [|p parts IH]; intros Hparts; [reflexivity|].
  cbn [forallb] in Hparts. apply andb_true_iff in Hparts.
  destruct Hparts as [Hp Hrest]. cbn [join].
  destruct parts as [|p' parts']; [exact Hp|].
  rewrite !narrow_app, Hp, Hsep. exact (IH Hrest).
Qed.

Lemma forallb_over_map {A} (p : jsstring -> bool) (f : A -> jsstring)
    (l : list A) :
  forallb p (map f l) = forallb (fun x => p (f x)) l.
Proof.
  induction l as [|x l IH]; [reflexivity|]. cbn [map forallb].
  rewrite IH. reflexivity.
Qed.

Lemma stringify_value_narrow (v : Json.value) :
  narrow_value v = true -> narrow (Json.stringify_value true v) = true.
Proof.
  destruct v as [s | [|] | l]; cbn [narrow_value]; intros Hv;
    try reflexivity; [exact (quote_narrow s Hv)|].
  destruct l as [|s l]; [reflexivity|].
  unfold Json.stringify_value. rewrite !narrow_app.
  rewrite join_narrow; [reflexivity|reflexivity|].
  rewrite forallb_over_map. apply forallb_forall. intros t Ht.
  rewrite narrow_app. rewrite (quote_narrow t); [reflexivity|].
  exact (proj1 (forallb_forall _ _) Hv t Ht).
Qed.

Lemma stringify_narrow (o : Json.object) :
  forallb (fun kv => narrow (fst kv) && narrow_value (snd kv)) o = true ->
  narrow (Json.stringify true o) = true.
Proof.
  intros Ho. destruct o as [|e o]; [reflexivity|].
  unfold Json.stringify. rewrite !narrow_app.
  rewrite join_narrow; [reflexivity|reflexivity|].
  rewrite forallb_over_map. apply forallb_forall. intros kv Hkv.
  pose proof (proj1 (forallb_forall _ _) Ho kv Hkv) as Hentry.
  cbv beta in Hentry. apply andb_true_iff in Hentry.
  destruct Hentry as [Hkey Hvalue].
  rewrite !narrow_app, (quote_narrow _ Hkey), (stringify_value_narrow _ Hvalue).
  reflexivity.
Qed.

Lemma artifact_text_narrow (postSummary : BlogPostSummary.t) :
  forallb narrow (texts_of postSummary) = true ->
  narrow (artifact_text postSummary) = true.
Proof.
  unfold texts_of. rewrite !forallb_app. cbn [forallb]. intros Htexts.
  repeat match goal with
         | H : _ && _ = true |- _ =>
             apply andb_true_iff in H; destruct H
         end.
  unfold artifact_text. apply stringify_narrow.
  unfold summary_object. cbn [forallb fst snd narrow_value].
  repeat match goal with
         | H : narrow _ = true |- _ => rewrite H; clear H
         | H : forallb narrow _ = true |- _ => rewrite H; clear H
         end.
  reflexivity.
Qed.

(** X30.  An artifact whose texts all fit in one byte for each code unit
    is always written: [btoa] accepts its serialisation, the PUT follows
    the read of the path, and [publishToGitHub] answers what the store
    made of that PUT. *)
Theorem publishToGitHub_writes_narrow (W : World) (config : GitHubConfig)
    (postSummary : BlogPostSummary.t) (h : History) :
  forallb narrow (texts_of postSummary) = true ->
  exists req answer,
    req_method req = PUT
    /\ req_url req = contents_url config (filePath_of postSummary)
    /\ publishToGitHub W config postSummary h
       = (Ok (write_accepted answer),
          h ++ [EvFetch (sha_request config (filePath_of postSummary))
                  (world_fetch W h
                     (sha_request config (filePath_of postSummary)));
                EvFetch req answer]).
Proof.
  intros Htexts. pose proof (artifact_text_narrow postSummary Htexts) as Hnarrow.
  assert (Hbtoa : Json.btoa (artifact_text postSummary)
                  = Ok (Json.base64 (artifact_text postSummary))).
  { unfold Json.btoa. unfold narrow in Hnarrow. rewrite Hnarrow. reflexivity. }
  pose proof (@publishToGitHub_conditional_write W config postSummary
                (Json.base64 (artifact_text postSummary)) h Hbtoa) as Hrun.
  cbn zeta in Hrun. eexists. eexists.
  split; [|split; [|exact Hrun]]; reflexivity.
Qed.

Lemma publishToGitHub_writes_narrow_witness :
  exists req answer,
    req_method req = PUT
    /\ req_url req
       = contents_url Scenario.config (filePath_of Scenario.plain_artifact)
    /\ publishToGitHub Scenario.store_world Scenario.config
         Scenario.plain_artifact []
       = (Ok (write_accepted answer),
          [] ++ [EvFetch (sha_request Scenario.config
                            (filePath_of Scenario.plain_artifact))
                   (world_fetch Scenario.store_world []
                      (sha_request Scenario.config
                         (filePath_of Scenario.plain_artifact)));
                 EvFetch req answer]).
Proof.
  apply (@publishToGitHub_writes_narrow Scenario.store_world Scenario.config
           Scenario.plain_artifact []).
  vm_compute. reflexivity.
Defined.

(* ================================================================== *)
(** * Properties: required fields that are blank *)

Lemma drop_while_all (p : N -> bool) (s : jsstring) :
  forallb p s = true -> drop_while p s = [].
Proof.
  induction s as [|c s IH]; [reflexivity|].
  cbn [forallb drop_while]. intros H. apply andb_true_iff in H.
  destruct H as [Hc Hs]. rewrite Hc. exact (IH Hs).
Qed.

(** White space alone is cleaned to the empty string. *)
Lemma cleanText_blank (text : jsstring) :
  forallb is_space text = true -> cleanText text = [].
Proof.
  intros Hblank. unfold cleanText, trim.
  rewrite (@drop_while_all is_space text Hblank). reflexivity.
Qed.

(** C8.  The check of the required fields reads the text as extracted,
    and the record holds the text as cleaned afterwards: an item whose
    title, link or guid is white space only passes the check and is
    returned with that field empty.  A feed of three items of which the
    second has a title of three spaces gives three records, not two,
    the second one with an empty title. *)
Theorem blank_field_is_returned :
  (forall text, forallb is_space text = true -> cleanText text = [])
  /\ (forall itemXml,
        complete_item itemXml = true ->
        exists post,
          parseRSSItem itemXml = Ok post
          /\ (forallb is_space (extractCDATA itemXml (js "title")) = true ->
              BlogPost.title post = [])
          /\ (forallb is_space (extractText itemXml (js "link")) = true ->
              BlogPost.link post = [])
          /\ (forallb is_space (extractText itemXml (js "guid")) = true ->
              BlogPost.guid post = []))
  /\ length (item_blocks blank_feed) = 3
  /\ exists blank,
       parseRSSFeed blank_feed = Ok [Scenario.post1; blank; Scenario.post3]
       /\ BlogPost.title blank = []
       /\ BlogPost.guid blank = js "g2"
       /\ BlogPost.link blank = js "https://blog.cloudflare.com/blank/".
Proof.
  split; [exact cleanText_blank|]. split.
  - intros itemXml Hcomplete.
    destruct (parseRSSItem_complete itemXml Hcomplete)
      as [post [Hparse [Htitle [Hlink Hguid]]]].
    exists post. split; [exact Hparse|].
    rewrite Htitle, Hlink, Hguid.
    repeat split; intros Hblank; exact (cleanText_blank _ Hblank).
  - split; [vm_compute; reflexivity|].
    destruct (parseRSSFeed blank_feed) as [posts | e] eqn:Hparse;
      vm_compute in Hparse; [|discriminate Hparse].
    injection Hparse as <-. eexists.
    split; [vm_compute; reflexivity|]. repeat split.
Qed.
